(** * cloudstore: the in-memory entity store and its route layer

    A shallow embedding of [server/storage.ts] (class [MemStorage]) and of the
    route handlers of [server/routes.ts] that the properties below talk about,
    followed by the properties themselves.

    Conventions of the embedding.
    - A JavaScript [Map<number, V>] is an association list in insertion order
      ([JsMap.t V]); [Array.from(m.values())] is [JsMap.values m].
    - A [Date] is its [getTime()] value, an integer number of milliseconds.
      An operation that evaluates [new Date()] takes the clock reading [now]
      of the call.  [updateFolder] and [getShareByToken] never read the clock
      and take [now] all the same, so that properties about the time of the
      call can be stated of them.
    - Numbers (ids, sizes, counters) are integers of [Z]; the source's
      doubles agree with them below 2^53.
    - A nullable or optional field is an [option]; [None] stands for both
      [null] and [undefined].  The code tells the two apart in one place,
      the [parentId] of a folder in [getFoldersByUserId]; there the
      [parentId] of a stored folder is taken to be [null] or a number, as
      the routes store it.
    - A method that computes with the local calendar takes the offsets
      [LocalTZA] of the time zone of the host.
    - [async] methods are run to completion: every [await] in the store waits
      for a promise that is already settled. *)

From Stdlib Require Import ZArith List Bool String Ascii Lia.
From Stdlib Require Import Permutation Sorted Relations DecimalString.
Import ListNotations.
Local Open Scope Z_scope.

Set Implicit Arguments.

(** ** JavaScript [Map] with numeric keys *)

Module JsMap.
Section Defs.
Variable V : Type.

Definition t := list (Z * V).

Definition empty : t := [].

(** [m.get(k)] *)
Fixpoint get (k : Z) (m : t) : option V :=
  match m with
  | [] => None
  | (k', v) :: m' => if k =? k' then Some v else get k m'
  end.

(** [m.has(k)] *)
Definition has (k : Z) (m : t) : bool :=
  match get k m with Some _ => true | None => false end.

(** [m.set(k, v)]: an existing key keeps its position, a new key goes last. *)
Fixpoint set (k : Z) (v : V) (m : t) : t :=
  match m with
  | [] => [(k, v)]
  | (k', v') :: m' =>
      if k =? k' then (k, v) :: m' else (k', v') :: set k v m'
  end.

(** The map left by [m.delete(k)]; the call itself returns [has k m]. *)
Definition delete (k : Z) (m : t) : t :=
  filter (fun e => negb (fst e =? k)) m.

(** [Array.from(m.values())] and [Array.from(m.keys())] *)
Definition values (m : t) : list V := map snd m.
Definition keys (m : t) : list Z := map fst m.

(** A real [Map] holds each key once. *)
Definition wf (m : t) : Prop := NoDup (keys m).
End Defs.
End JsMap.

Arguments JsMap.empty {V}.

(** ** Entities (shared/schema.ts) *)

Definition Date := Z.

Module User.
Record t := mk {
  id : Z;
  username : string;
  password : string;
  name : option string;
  avatar : option string;
  storageLimit : Z;
  storageUsed : Z;
  createdAt : option Date
}.
Definition with_storageUsed (u : t) (n : Z) : t :=
  mk (id u) (username u) (password u) (name u) (avatar u)
     (storageLimit u) n (createdAt u).
End User.
Abbreviation User := User.t (only parsing).

Module Folder.
Record t := mk {
  id : Z;
  name : string;
  userId : Z;
  parentId : option Z;
  inTrash : option bool;
  deletedAt : option Date;
  starred : option bool;
  isShared : option bool;
  createdAt : option Date;
  modifiedAt : option Date
}.
End Folder.
Abbreviation Folder := Folder.t (only parsing).

Module File.
Record t := mk {
  id : Z;
  name : string;
  type : string;
  size : Z;
  userId : Z;
  folderId : option Z;
  path : string;
  starred : option bool;
  isShared : option bool;
  inTrash : option bool;
  deletedAt : option Date;
  lastAccessedAt : option Date;
  createdAt : option Date;
  modifiedAt : option Date
}.
End File.
Abbreviation File := File.t (only parsing).

Module Share.
Record t := mk {
  id : Z;
  fileId : option Z;
  folderId : option Z;
  userId : Z;
  accessType : string;
  allowDownload : option bool;
  expiryDate : option Date;
  token : string;
  createdAt : option Date
}.
End Share.
Abbreviation Share := Share.t (only parsing).

(** The [Insert*] types: what the caller supplies on creation. *)

Record InsertUser := {
  iu_username : string;
  iu_password : string;
  iu_name : option string;
  iu_avatar : option string
}.

Record InsertFolder := {
  ifo_name : string;
  ifo_userId : Z;
  ifo_parentId : option Z
}.

Record InsertFile := {
  if_name : string;
  if_type : string;
  if_size : Z;
  if_userId : Z;
  if_folderId : option Z;
  if_path : string
}.

(** [Omit<InsertShare, 'token'>] *)
Record InsertShare := {
  is_fileId : option Z;
  is_folderId : option Z;
  is_userId : Z;
  is_accessType : string;
  is_allowDownload : option bool;
  is_expiryDate : option Date
}.

(** [Partial<T>]: every field may be absent ([None]) or provided. *)

Record PartialUser := {
  pu_id : option Z;
  pu_username : option string;
  pu_password : option string;
  pu_name : option (option string);
  pu_avatar : option (option string);
  pu_storageLimit : option Z;
  pu_storageUsed : option Z;
  pu_createdAt : option (option Date)
}.

Record PartialFolder := {
  pfo_id : option Z;
  pfo_name : option string;
  pfo_userId : option Z;
  pfo_parentId : option (option Z);
  pfo_inTrash : option (option bool);
  pfo_deletedAt : option (option Date);
  pfo_starred : option (option bool);
  pfo_isShared : option (option bool);
  pfo_createdAt : option (option Date);
  pfo_modifiedAt : option (option Date)
}.

Record PartialFile := {
  pf_id : option Z;
  pf_name : option string;
  pf_type : option string;
  pf_size : option Z;
  pf_userId : option Z;
  pf_folderId : option (option Z);
  pf_path : option string;
  pf_starred : option (option bool);
  pf_isShared : option (option bool);
  pf_inTrash : option (option bool);
  pf_deletedAt : option (option Date);
  pf_lastAccessedAt : option (option Date);
  pf_createdAt : option (option Date);
  pf_modifiedAt : option (option Date)
}.

(** One property of an object spread [{ ...old, ...data }]. *)
Definition spread (A : Type) (old : A) (data : option A) : A :=
  match data with Some v => v | None => old end.

Definition spreadUser (u : User) (d : PartialUser) : User :=
  User.mk (spread (User.id u) (pu_id d))
          (spread (User.username u) (pu_username d))
          (spread (User.password u) (pu_password d))
          (spread (User.name u) (pu_name d))
          (spread (User.avatar u) (pu_avatar d))
          (spread (User.storageLimit u) (pu_storageLimit d))
          (spread (User.storageUsed u) (pu_storageUsed d))
          (spread (User.createdAt u) (pu_createdAt d)).

Definition spreadFolder (f : Folder) (d : PartialFolder) : Folder :=
  Folder.mk (spread (Folder.id f) (pfo_id d))
            (spread (Folder.name f) (pfo_name d))
            (spread (Folder.userId f) (pfo_userId d))
            (spread (Folder.parentId f) (pfo_parentId d))
            (spread (Folder.inTrash f) (pfo_inTrash d))
            (spread (Folder.deletedAt f) (pfo_deletedAt d))
            (spread (Folder.starred f) (pfo_starred d))
            (spread (Folder.isShared f) (pfo_isShared d))
            (spread (Folder.createdAt f) (pfo_createdAt d))
            (spread (Folder.modifiedAt f) (pfo_modifiedAt d)).

Definition spreadFile (f : File) (d : PartialFile) : File :=
  File.mk (spread (File.id f) (pf_id d))
          (spread (File.name f) (pf_name d))
          (spread (File.type f) (pf_type d))
          (spread (File.size f) (pf_size d))
          (spread (File.userId f) (pf_userId d))
          (spread (File.folderId f) (pf_folderId d))
          (spread (File.path f) (pf_path d))
          (spread (File.starred f) (pf_starred d))
          (spread (File.isShared f) (pf_isShared d))
          (spread (File.inTrash f) (pf_inTrash d))
          (spread (File.deletedAt f) (pf_deletedAt d))
          (spread (File.lastAccessedAt f) (pf_lastAccessedAt d))
          (spread (File.createdAt f) (pf_createdAt d))
          (spread (File.modifiedAt f) (pf_modifiedAt d)).

(** ** The store: the private fields of [MemStorage] *)

Record Store := mkStore {
  users : JsMap.t User;
  folders : JsMap.t Folder;
  files : JsMap.t File;
  shares : JsMap.t Share;
  currentUserId : Z;
  currentFolderId : Z;
  currentFileId : Z;
  currentShareId : Z
}.

Definition with_users (st : Store) (m : JsMap.t User) : Store :=
  mkStore m (folders st) (files st) (shares st)
          (currentUserId st) (currentFolderId st) (currentFileId st)
          (currentShareId st).

Definition with_folders (st : Store) (m : JsMap.t Folder) : Store :=
  mkStore (users st) m (files st) (shares st)
          (currentUserId st) (currentFolderId st) (currentFileId st)
          (currentShareId st).

Definition with_files (st : Store) (m : JsMap.t File) : Store :=
  mkStore (users st) (folders st) m (shares st)
          (currentUserId st) (currentFolderId st) (currentFileId st)
          (currentShareId st).

Definition with_shares (st : Store) (m : JsMap.t Share) : Store :=
  mkStore (users st) (folders st) (files st) m
          (currentUserId st) (currentFolderId st) (currentFileId st)
          (currentShareId st).

(** [x === n] for a nullable [x] and a number [n]. *)
Definition is_id (x : option Z) (n : Z) : bool :=
  match x with Some y => y =? n | None => false end.

(** Truthiness of a nullable number: [null], [undefined] and [0] are falsy. *)
Definition truthy (x : option Z) : bool :=
  match x with Some y => negb (y =? 0) | None => false end.

(** Truthiness of a nullable boolean. *)
Definition truthyb (x : option bool) : bool :=
  match x with Some b => b | None => false end.

(** [s1 || s2] on a nullable string: the empty string is falsy. *)
Definition or_string (x : option string) (dflt : string) : string :=
  match x with
  | Some s => if String.eqb s EmptyString then dflt else s
  | None => dflt
  end.

Definition demoUser (now : Date) : User :=
  User.mk 1 "demo@example.com" "password-hash.salt" (Some "Demo User"%string)
    (Some "https://images.unsplash.com/photo-1472099645785-5658abf4ff4e?ixlib=rb-1.2.1&ixid=eyJhcHBfaWQiOjEyMDd9&auto=format&fit=facearea&facepad=2&w=256&h=256&q=80"%string)
    (15 * 1024 * 1024 * 1024) 0 (Some now).

(** [new MemStorage()] *)
Definition constructor (now : Date) : Store :=
  mkStore (JsMap.set 1 (demoUser now) JsMap.empty)
          JsMap.empty JsMap.empty JsMap.empty 1 1 1 1.

(** *** User operations *)

Definition getUser (st : Store) (id : Z) : option User :=
  JsMap.get id (users st).

Definition getUserByUsername (st : Store) (username : string) : option User :=
  find (fun u => String.eqb (User.username u) username) (JsMap.values (users st)).

Definition createUser (now : Date) (st : Store) (insertUser : InsertUser)
  : User * Store :=
  let id := currentUserId st in
  let user := User.mk id (iu_username insertUser) (iu_password insertUser)
                      (iu_name insertUser) (iu_avatar insertUser)
                      (15 * 1024 * 1024 * 1024) 0 (Some now) in
  (user,
   mkStore (JsMap.set id user (users st)) (folders st) (files st) (shares st)
           (id + 1) (currentFolderId st) (currentFileId st) (currentShareId st)).

Definition updateUser (st : Store) (id : Z) (data : PartialUser)
  : option User * Store :=
  match JsMap.get id (users st) with
  | None => (None, st)
  | Some user =>
      let updatedUser := spreadUser user data in
      (Some updatedUser, with_users st (JsMap.set id updatedUser (users st)))
  end.

(** *** Storage accounting

    The user record is mutated in place and written back.  Records are
    values here, so the in-place mutation is the [set] at the key the record
    was read from.  The model agrees with the heap as long as no record is
    held under two keys, which is so in every store whose users sit under
    their own ids; a store in which [updateUser] gave a user another [id]
    and [createFile] then put the record under that id too is outside of
    the model, and the properties of the counters take the users to sit
    under their own ids. *)

Definition updateUserStorageUsed (st : Store) (userId : Z) (sizeDelta : Z)
  : option User * Store :=
  match JsMap.get userId (users st) with
  | None => (None, st)
  | Some user =>
      let used := User.storageUsed user + sizeDelta in
      let user' := User.with_storageUsed user (if used <? 0 then 0 else used) in
      (Some user', with_users st (JsMap.set userId user' (users st)))
  end.

(** *** File operations *)

(** [createFile] adds the size to the user record it read under
    [file.userId] and writes the record back under the record's own id. *)
Definition createFile (now : Date) (st : Store) (file : InsertFile)
  : File * Store :=
  let id := currentFileId st in
  let newFile := File.mk id (if_name file) (if_type file) (if_size file)
                         (if_userId file) (if_folderId file) (if_path file)
                         (Some false) None None None None
                         (Some now) (Some now) in
  let users' :=
    match JsMap.get (if_userId file) (users st) with
    | Some user =>
        let user' :=
          User.with_storageUsed user (User.storageUsed user + if_size file) in
        JsMap.set (User.id user') user'
                  (JsMap.set (if_userId file) user' (users st))
    | None => users st
    end in
  (newFile,
   mkStore users' (folders st) (JsMap.set id newFile (files st)) (shares st)
           (currentUserId st) (currentFolderId st) (id + 1)
           (currentShareId st)).

Definition getFile (st : Store) (id : Z) : option File :=
  JsMap.get id (files st).

Definition updateFile (now : Date) (st : Store) (id : Z) (data : PartialFile)
  : option File * Store :=
  match JsMap.get id (files st) with
  | None => (None, st)
  | Some file =>
      let st1 :=
        match pf_size data with
        | Some size =>
            if negb (size =? File.size file)
            then snd (updateUserStorageUsed st (File.userId file)
                                            (size - File.size file))
            else st
        | None => st
        end in
      let merged := spreadFile file data in
      let updatedFile :=
        File.mk (File.id merged) (File.name merged) (File.type merged)
                (File.size merged) (File.userId merged) (File.folderId merged)
                (File.path merged) (File.starred merged)
                (File.isShared merged) (File.inTrash merged)
                (File.deletedAt merged) (File.lastAccessedAt merged)
                (File.createdAt merged) (Some now) in
      (Some updatedFile, with_files st1 (JsMap.set id updatedFile (files st1)))
  end.

(** The loop [for (const share of fileShares) this.shares.delete(share.id)]. *)
Definition deleteShares (l : list Share) (m : JsMap.t Share) : JsMap.t Share :=
  fold_left (fun acc share => JsMap.delete (Share.id share) acc) l m.

Definition deleteFile (st : Store) (id : Z) : bool * Store :=
  match JsMap.get id (files st) with
  | None => (false, st)
  | Some file =>
      let st1 := snd (updateUserStorageUsed st (File.userId file)
                                            (- File.size file)) in
      let fileShares :=
        filter (fun share => is_id (Share.fileId share) id)
               (JsMap.values (shares st1)) in
      let st2 := with_shares st1 (deleteShares fileShares (shares st1)) in
      (JsMap.has id (files st2),
       with_files st2 (JsMap.delete id (files st2)))
  end.

(** *** Folder operations *)

Definition createFolder (now : Date) (st : Store) (folder : InsertFolder)
  : Folder * Store :=
  let id := currentFolderId st in
  let newFolder := Folder.mk id (ifo_name folder) (ifo_userId folder)
                             (ifo_parentId folder) None None None None
                             (Some now) None in
  (newFolder,
   mkStore (users st) (JsMap.set id newFolder (folders st)) (files st)
           (shares st) (currentUserId st) (id + 1) (currentFileId st)
           (currentShareId st)).

Definition getFolder (st : Store) (id : Z) : option Folder :=
  JsMap.get id (folders st).

Record FolderWithStats := {
  fws_folder : Folder;
  fileCount : Z;
  totalSize : Z
}.

Definition folderStats (st : Store) (folder : Folder) : FolderWithStats :=
  let folderFiles :=
    filter (fun file => is_id (File.folderId file) (Folder.id folder))
           (JsMap.values (files st)) in
  {| fws_folder := folder;
     fileCount := Z.of_nat (List.length folderFiles);
     totalSize := fold_left (fun sum file => sum + File.size file) folderFiles 0 |}.

(** [folder.parentId === p] for a [p] that is [null] or a number, on a
    folder whose [parentId] is [null] or a number, as the folders are that
    the routes store.  A folder record without a [parentId] is not told
    apart from one whose [parentId] is [null]; the code lists such a record
    under no parent. *)
Definition same_parent (x p : option Z) : bool :=
  match x, p with
  | None, None => true
  | Some a, Some b => a =? b
  | _, _ => false
  end.

(** [getFoldersByUserId(userId, parentId)] with [parentId] given; [None] is
    [null] (an [undefined] argument is turned into [null] by the method). *)
Definition getFoldersByUserId (st : Store) (userId : Z) (parentId : option Z)
  : list FolderWithStats :=
  map (folderStats st)
      (filter (fun folder => (Folder.userId folder =? userId)
                             && same_parent (Folder.parentId folder) parentId)
              (JsMap.values (folders st))).

Definition updateFolder (now : Date) (st : Store) (id : Z) (data : PartialFolder)
  : option Folder * Store :=
  match JsMap.get id (folders st) with
  | None => (None, st)
  | Some folder =>
      let updatedFolder := spreadFolder folder data in
      (Some updatedFolder,
       with_folders st (JsMap.set id updatedFolder (folders st)))
  end.

(** The loop [for (const file of folderFiles) await this.deleteFile(file.id)]. *)
Definition deleteFiles (l : list File) (st : Store) : Store :=
  fold_left (fun acc file => snd (deleteFile acc (File.id file))) l st.

(** [deleteFolder] calls itself on every subfolder, and nothing in it bounds
    the depth: [fuel] is the number of nested calls the run may use, and
    [None] says that they did not suffice. *)
Fixpoint deleteFolder (fuel : nat) (st : Store) (id : Z)
  : option (bool * Store) :=
  match fuel with
  | O => None
  | S fuel' =>
      let folderFiles :=
        filter (fun file => is_id (File.folderId file) id)
               (JsMap.values (files st)) in
      let st1 := deleteFiles folderFiles st in
      let subfolders :=
        filter (fun folder => is_id (Folder.parentId folder) id)
               (JsMap.values (folders st1)) in
      match
        fold_left
          (fun acc subfolder =>
             match acc with
             | None => None
             | Some s =>
                 match deleteFolder fuel' s (Folder.id subfolder) with
                 | Some (_, s') => Some s'
                 | None => None
                 end
             end)
          subfolders (Some st1)
      with
      | None => None
      | Some st2 =>
          Some (JsMap.has id (folders st2),
                with_folders st2 (JsMap.delete id (folders st2)))
      end
  end.

(** *** Share operations *)

(** [token] is the value drawn by [randomBytes(16).toString('hex')]. *)
Definition createShare (now : Date) (token : string) (st : Store)
                       (share : InsertShare) : Share * Store :=
  let id := currentShareId st in
  let newShare := Share.mk id (is_fileId share) (is_folderId share)
                           (is_userId share) (is_accessType share)
                           (is_allowDownload share) (is_expiryDate share)
                           token (Some now) in
  (newShare,
   mkStore (users st) (folders st) (files st)
           (JsMap.set id newShare (shares st))
           (currentUserId st) (currentFolderId st) (currentFileId st)
           (id + 1)).

Record SharedBy := {
  sb_name : string;
  sb_avatar : string
}.

Record ShareWithDetails := {
  swd_share : Share;
  swd_file : option File;
  swd_folder : option Folder;
  sharedBy : option SharedBy
}.

Definition shareDetails (st : Store) (share : Share) : ShareWithDetails :=
  {| swd_share := share;
     swd_file := if truthy (Share.fileId share)
                 then match Share.fileId share with
                      | Some i => JsMap.get i (files st)
                      | None => None
                      end
                 else None;
     swd_folder := if truthy (Share.folderId share)
                   then match Share.folderId share with
                        | Some i => JsMap.get i (folders st)
                        | None => None
                        end
                   else None;
     sharedBy := match JsMap.get (Share.userId share) (users st) with
                 | Some user =>
                     Some {| sb_name := or_string (User.name user)
                                                  (User.username user);
                             sb_avatar := or_string (User.avatar user) EmptyString |}
                 | None => None
                 end |}.

Definition getShareByToken (now : Date) (st : Store) (token : string)
  : option ShareWithDetails :=
  match find (fun s => String.eqb (Share.token s) token)
             (JsMap.values (shares st)) with
  | None => None
  | Some share => Some (shareDetails st share)
  end.

Definition getSharesByUserId (st : Store) (userId : Z)
  : list ShareWithDetails :=
  map (shareDetails st)
      (filter (fun share => Share.userId share =? userId)
              (JsMap.values (shares st))).

Definition deleteShare (st : Store) (id : Z) : bool * Store :=
  (JsMap.has id (shares st), with_shares st (JsMap.delete id (shares st))).

(** *** Derived views of files *)

Record FileWithPath := {
  fwp_file : File;
  url : option string
}.

(** The template literal [`${n}`] for an integer [n]. *)
Definition numberToString (n : Z) : string :=
  NilZero.string_of_int (Z.to_int n).

(** [{ ...file, url: `/api/files/${file.id}/download` }] *)
Definition withUrl (file : File) : FileWithPath :=
  {| fwp_file := file;
     url := Some ("/api/files/" ++ numberToString (File.id file)
                                ++ "/download")%string |}.

Definition getFilesByUserId (st : Store) (userId : Z)
                            (folderId : option (option Z))
  : list FileWithPath :=
  map withUrl
      (filter (fun file =>
                 (File.userId file =? userId)
                 && match folderId with
                    | None => true
                    | Some p => same_parent (File.folderId file) p
                    end)
              (JsMap.values (files st))).

(** [Array.prototype.sort(cmp)] is a stable sort, and every stable sort
    returns the same array when [cmp] is a total preorder, as the comparator
    of [getRecentFiles] is.  It is written here as an insertion sort. *)
Section Sort.
Variable A : Type.
Variable cmp : A -> A -> Z.

Fixpoint insertBy (x : A) (l : list A) : list A :=
  match l with
  | [] => [x]
  | y :: l' => if cmp x y <=? 0 then x :: l else y :: insertBy x l'
  end.

Definition sortBy (l : list A) : list A := fold_right insertBy [] l.
End Sort.

Definition MS_PER_DAY : Z := 86400000.

(** Local time, as ECMAScript defines it from the time zone of the host:
    [LocalTZA t true] is the offset of the zone from UTC at the instant [t],
    [LocalTZA t false] its offset at the local time [t].  The zone is the
    one of the server and is left open. *)
Section LocalClock.
Variable LocalTZA : Date -> bool -> Z.

Definition LocalTime (t : Date) : Date := t + LocalTZA t true.

Definition UTC (t : Date) : Date := t - LocalTZA t false.

(** [d = new Date(); d.setDate(d.getDate() - 30)].  [getDate] reads the day
    of the month of the local time of [d]; [setDate] rebuilds the date from
    the local year and month, that day lowered by thirty, and the local
    time within the day, which is the local time thirty times 24 hours
    earlier, and takes it back to UTC.  The outcome is the same local time
    of day thirty calendar days earlier; it is [now - 30 * MS_PER_DAY] when
    the offset of the zone is the same at both ends and differs from it by
    the change of the offset otherwise.  Dates are taken within the range
    of [Date], where [TimeClip] does nothing. *)
Definition thirtyDaysAgo (now : Date) : Date :=
  UTC (LocalTime now - 30 * MS_PER_DAY).
End LocalClock.

(** A zone whose offset from UTC never changes. *)
Definition fixedZone (offset : Z) : Date -> bool -> Z := fun _ _ => offset.

(** [a.lastAccessedAt ? new Date(a.lastAccessedAt).getTime() : 0] *)
Definition accessTime (file : File) : Z :=
  match File.lastAccessedAt file with Some t => t | None => 0 end.

(** The filter of [getRecentFiles], with the date [since] that the method
    computes before it filters. *)
Definition isRecent (since : Date) (userId : Z) (file : File) : bool :=
  (File.userId file =? userId)
  && match File.lastAccessedAt file with
     | Some t => since <=? t
     | None => false
     end
  && negb (truthyb (File.inTrash file)).

Definition getRecentFiles (LocalTZA : Date -> bool -> Z) (now : Date)
                          (st : Store) (userId : Z)
  : list FileWithPath :=
  let since := thirtyDaysAgo LocalTZA now in
  map withUrl
      (sortBy (fun a b => accessTime b - accessTime a)
              (filter (isRecent since userId) (JsMap.values (files st)))).

Definition getStarredFiles (st : Store) (userId : Z) : list FileWithPath :=
  map withUrl
      (filter (fun file =>
                 (File.userId file =? userId)
                 && match File.starred file with
                    | Some true => true
                    | _ => false
                    end
                 && negb (truthyb (File.inTrash file)))
              (JsMap.values (files st))).

Definition getTrashedFiles (st : Store) (userId : Z) : list FileWithPath :=
  map withUrl
      (filter (fun file =>
                 (File.userId file =? userId)
                 && match File.inTrash file with
                    | Some true => true
                    | _ => false
                    end)
              (JsMap.values (files st))).

(** ** Route handlers (server/routes.ts)

    A handler is run on the authenticated user's id and on the fields it
    reads from a request body that passed the schema check; it answers with
    a status and either a JSON body or a message.  Ids in a body are JSON
    numbers, as the client sends them, so [parseInt] leaves them as they
    are. *)

Inductive Response (A : Type) : Type :=
| json (status : Z) (body : A)
| message (status : Z) (text : string).

Arguments message {A} status text.

Definition status (A : Type) (r : Response A) : Z :=
  match r with json s _ => s | message s _ => s end.

(** [x || null], and [x ? parseInt(x) : undefined] on a JSON number *)
Definition orNull (x : option Z) : option Z :=
  if truthy x then x else None.

Section Routes.
(** [String.prototype.toLowerCase], left open. *)
Variable toLowerCase : string -> string.

(** POST /api/folders *)
Definition postFolders (now : Date) (st : Store) (userId : Z)
                       (name : string) (parentId : option Z)
  : Response Folder * Store :=
  let refused : option (Response Folder) :=
    match parentId with
    | Some p =>
        match getFolder st p with
        | None => Some (message 404 "Parent folder not found")
        | Some parentFolder =>
            if negb (Folder.userId parentFolder =? userId)
            then Some (message 403 "You don't have access to this parent folder")
            else None
        end
    | None => None
    end in
  match refused with
  | Some r => (r, st)
  | None =>
      let userFolders := getFoldersByUserId st userId (orNull parentId) in
      let folderExists :=
        existsb (fun folder =>
                   String.eqb (toLowerCase (Folder.name (fws_folder folder)))
                              (toLowerCase name))
                userFolders in
      if folderExists
      then (message 409 "A folder with this name already exists in this location", st)
      else
        let (folder, st') :=
          createFolder now st {| ifo_name := name;
                                 ifo_userId := userId;
                                 ifo_parentId := orNull parentId |} in
        (json 201 folder, st')
  end.
End Routes.

(** The body of POST /api/shares. *)
Record ShareRequest := {
  sr_fileId : option Z;
  sr_folderId : option Z;
  sr_accessType : option string;
  sr_allowDownload : option bool;
  sr_expiryDate : option Date
}.

(** POST /api/shares *)
Definition postShares (now : Date) (token : string) (st : Store) (userId : Z)
                      (body : ShareRequest) : Response Share * Store :=
  let fileId := sr_fileId body in
  let folderId := sr_folderId body in
  if (negb (truthy fileId) && negb (truthy folderId))
     || (truthy fileId && truthy folderId)
  then (message 400 "Must specify either fileId or folderId", st)
  else
    let fileOk :=
      match fileId with
      | Some i =>
          if truthy fileId
          then match getFile st i with
               | Some file => File.userId file =? userId
               | None => false
               end
          else true
      | None => true
      end in
    if negb fileOk
    then (message 403 "Unauthorized to share this file", st)
    else
      let folderOk :=
        match folderId with
        | Some i =>
            if truthy folderId
            then match getFolder st i with
                 | Some folder => Folder.userId folder =? userId
                 | None => false
                 end
            else true
        | None => true
        end in
      if negb folderOk
      then (message 403 "Unauthorized to share this folder", st)
      else
        let (share, st') :=
          createShare now token st
            {| is_fileId := orNull fileId;
               is_folderId := orNull folderId;
               is_userId := userId;
               is_accessType := or_string (sr_accessType body) "public";
               is_allowDownload :=
                 match sr_allowDownload body with
                 | None => Some true
                 | Some b => Some b
                 end;
               is_expiryDate := orNull (sr_expiryDate body) |} in
        (json 201 share, st').

(** GET /api/shares/:token *)
Definition getSharesToken (now : Date) (st : Store) (token : string)
  : Response ShareWithDetails :=
  match getShareByToken now st token with
  | None => message 404 "Share not found"
  | Some share =>
      match Share.expiryDate (swd_share share) with
      | Some expiry =>
          if expiry <? now
          then message 403 "Share has expired"
          else json 200 share
      | None => json 200 share
      end
  end.

(** ** The remaining views of the store *)

(** [share.fileId !== undefined] keeps a share whose [fileId] is [null],
    which [includes(file.id)] then never matches; dropping it with the
    absent ones gives the same view. *)
Definition isGiven (x : option Z) : bool :=
  match x with Some _ => true | None => false end.

(** [ids.includes(id)] *)
Definition includes (ids : list (option Z)) (id : Z) : bool :=
  existsb (fun x => is_id x id) ids.

Definition getSharedFiles (st : Store) (userId : Z) : list FileWithPath :=
  let fileShares :=
    map Share.fileId
        (filter (fun share => (Share.userId share =? userId)
                              && isGiven (Share.fileId share))
                (JsMap.values (shares st))) in
  map withUrl
      (filter (fun file =>
                 (File.userId file =? userId)
                 && (includes fileShares (File.id file)
                     || truthyb (File.isShared file))
                 && negb (truthyb (File.inTrash file)))
              (JsMap.values (files st))).

Definition getStarredFolders (st : Store) (userId : Z)
  : list FolderWithStats :=
  map (folderStats st)
      (filter (fun folder =>
                 (Folder.userId folder =? userId)
                 && match Folder.starred folder with
                    | Some true => true
                    | _ => false
                    end
                 && negb (truthyb (Folder.inTrash folder)))
              (JsMap.values (folders st))).

Definition getSharedFolders (st : Store) (userId : Z)
  : list FolderWithStats :=
  let folderShares :=
    map Share.folderId
        (filter (fun share => (Share.userId share =? userId)
                              && isGiven (Share.folderId share))
                (JsMap.values (shares st))) in
  map (folderStats st)
      (filter (fun folder =>
                 (Folder.userId folder =? userId)
                 && (includes folderShares (Folder.id folder)
                     || truthyb (Folder.isShared folder))
                 && negb (truthyb (Folder.inTrash folder)))
              (JsMap.values (folders st))).

Definition getTrashedFolders (st : Store) (userId : Z)
  : list FolderWithStats :=
  map (folderStats st)
      (filter (fun folder =>
                 (Folder.userId folder =? userId)
                 && match Folder.inTrash folder with
                    | Some true => true
                    | _ => false
                    end)
              (JsMap.values (folders st))).

(** ** The remaining route handlers

    The upload directory is the list of the paths that exist in it.  A
    numeric route parameter is the number [parseInt] makes of it; one that
    is not a number is an id that nothing is stored under. *)

Definition Disk := list string.

(** [fs.existsSync(path)] *)
Definition existsSync (disk : Disk) (path : string) : bool :=
  existsb (String.eqb path) disk.

(** [fs.unlinkSync(path)], which throws when the path does not exist. *)
Definition unlinkSync (disk : Disk) (path : string) : option Disk :=
  if existsSync disk path
  then Some (filter (fun p => negb (String.eqb p path)) disk)
  else None.

(** [res.status(204).end()] *)
Definition noContent : Response unit := json 204 tt.

(** What the PATCH routes read from the body. *)
Record FolderPatch := {
  fp_name : option string;
  fp_starred : option bool;
  fp_inTrash : option bool
}.

Record FilePatch := {
  fip_name : option string;
  fip_folderId : option (option Z);
  fip_starred : option bool;
  fip_inTrash : option bool
}.

(** [inTrash !== x.inTrash] for a boolean [inTrash] *)
Definition differs (inTrash : bool) (stored : option bool) : bool :=
  match stored with
  | Some b => negb (Bool.eqb inTrash b)
  | None => true
  end.

(** PATCH /api/folders/:id *)
Definition patchFolder (now : Date) (st : Store) (userId : Z) (folderId : Z)
                       (body : FolderPatch)
  : Response (option Folder) * Store :=
  match getFolder st folderId with
  | None => (message 404 "Folder not found", st)
  | Some folder =>
      if negb (Folder.userId folder =? userId)
      then (message 403 "Unauthorized to update this folder", st)
      else
        let trash : option bool :=
          match fp_inTrash body with
          | Some inTrash =>
              if differs inTrash (Folder.inTrash folder)
              then Some inTrash else None
          | None => None
          end in
        let updateData :=
          {| pfo_id := None;
             pfo_name := fp_name body;
             pfo_userId := None;
             pfo_parentId := None;
             pfo_inTrash := option_map Some trash;
             pfo_deletedAt :=
               option_map (fun inTrash : bool =>
                             if inTrash then Some now else None) trash;
             pfo_starred := option_map Some (fp_starred body);
             pfo_isShared := None;
             pfo_createdAt := None;
             pfo_modifiedAt := Some (Some now) |} in
        let (updatedFolder, st') := updateFolder now st folderId updateData in
        (json 200 updatedFolder, st')
  end.

(** DELETE /api/folders/:id.  [None]: the recursion of [deleteFolder] did
    not return within [fuel] nested calls. *)
Definition deleteFolderRoute (fuel : nat) (st : Store) (userId : Z)
                             (folderId : Z)
  : option (Response unit * Store) :=
  match getFolder st folderId with
  | None => Some (message 404 "Folder not found", st)
  | Some folder =>
      if negb (Folder.userId folder =? userId)
      then Some (message 403 "Unauthorized to delete this folder", st)
      else
        match deleteFolder fuel st folderId with
        | Some (_, st') => Some (noContent, st')
        | None => None
        end
  end.

(** [req.file], as multer leaves it after writing the upload to [path]. *)
Record UploadedFile := {
  originalname : string;
  mimetype : string;
  up_size : Z;
  up_path : string
}.

(** POST /api/files/upload.  [folderId] is the body field after
    [req.body.folderId ? parseInt(req.body.folderId) : null], the field
    being absent, empty or a decimal number as the client sends it.  An
    exception of [unlinkSync] is caught and answered with 500. *)
Definition postUpload (now : Date) (st : Store) (disk : Disk) (userId : Z)
                      (file : option UploadedFile) (folderId : option Z)
  : Response File * Store * Disk :=
  match file with
  | None => (message 400 "No file uploaded", st, disk)
  | Some upload =>
      match getUser st userId with
      | None => (message 404 "User not found", st, disk)
      | Some user =>
          if User.storageUsed user + up_size upload >? User.storageLimit user
          then
            match unlinkSync disk (up_path upload) with
            | Some disk' => (message 400 "Not enough storage space", st, disk')
            | None => (message 500 "Failed to upload file", st, disk)
            end
          else
            let folderOk :=
              if truthy folderId
              then match folderId with
                   | Some i =>
                       match getFolder st i with
                       | Some folder => Folder.userId folder =? userId
                       | None => false
                       end
                   | None => true
                   end
              else true in
            if negb folderOk
            then
              match unlinkSync disk (up_path upload) with
              | Some disk' => (message 400 "Invalid folder", st, disk')
              | None => (message 500 "Failed to upload file", st, disk)
              end
            else
              let (created, st') :=
                createFile now st
                  {| if_name := originalname upload;
                     if_type := mimetype upload;
                     if_size := up_size upload;
                     if_userId := userId;
                     if_folderId := folderId;
                     if_path := up_path upload |} in
              (json 201 created, st', disk)
      end
  end.

(** PATCH /api/files/:id *)
Definition patchFile (now : Date) (st : Store) (userId : Z) (fileId : Z)
                     (body : FilePatch)
  : Response (option File) * Store :=
  match getFile st fileId with
  | None => (message 404 "File not found", st)
  | Some file =>
      if negb (File.userId file =? userId)
      then (message 403 "Unauthorized to update this file", st)
      else
        let folderOk :=
          match fip_folderId body with
          | Some (Some target) =>
              if same_parent (Some target) (File.folderId file)
              then true
              else match getFolder st target with
                   | Some folder => Folder.userId folder =? userId
                   | None => false
                   end
          | _ => true
          end in
        if negb folderOk
        then (message 400 "Invalid folder", st)
        else
          let trash : option bool :=
            match fip_inTrash body with
            | Some inTrash =>
                if differs inTrash (File.inTrash file)
                then Some inTrash else None
            | None => None
            end in
          let accessed : bool :=
            match fip_inTrash body with
            | Some inTrash => negb inTrash
            | None => true
            end in
          let updateData :=
            {| pf_id := None;
               pf_name := Some (spread (File.name file) (fip_name body));
               pf_type := None;
               pf_size := None;
               pf_userId := None;
               pf_folderId :=
                 Some (spread (File.folderId file) (fip_folderId body));
               pf_path := None;
               pf_starred :=
                 Some (spread (File.starred file)
                              (option_map Some (fip_starred body)));
               pf_isShared := None;
               pf_inTrash := option_map Some trash;
               pf_deletedAt :=
                 option_map (fun inTrash : bool =>
                               if inTrash then Some now else None) trash;
               pf_lastAccessedAt := if accessed then Some (Some now) else None;
               pf_createdAt := None;
               pf_modifiedAt := None |} in
          let (updatedFile, st') := updateFile now st fileId updateData in
          (json 200 updatedFile, st')
  end.

(** DELETE /api/files/:id *)
Definition deleteFileRoute (st : Store) (disk : Disk) (userId : Z) (fileId : Z)
  : Response unit * Store * Disk :=
  match getFile st fileId with
  | None => (message 404 "File not found", st, disk)
  | Some file =>
      if negb (File.userId file =? userId)
      then (message 403 "Unauthorized to delete this file", st, disk)
      else
        let disk' :=
          if existsSync disk (File.path file)
          then match unlinkSync disk (File.path file) with
               | Some d => d
               | None => disk
               end
          else disk in
        (noContent, snd (deleteFile st fileId), disk')
  end.

(** DELETE /api/shares/:id *)
Definition deleteShareRoute (st : Store) (userId : Z) (shareId : Z)
  : Response unit * Store :=
  match find (fun s => Share.id (swd_share s) =? shareId)
             (getSharesByUserId st userId) with
  | None => (message 404 "Share not found", st)
  | Some _ => (noContent, snd (deleteShare st shareId))
  end.

(** ** Client helpers (client/src/lib/utils.ts)

    A JavaScript string is the list of its UTF-16 code units, of a type
    [U] that the helper does not look into. *)
Section Truncate.
Variable U : Type.
Variable dot : U.

(** [str.substring(0, n)] for an integer [n]: a negative [n] counts as 0. *)
Definition substring0 (str : list U) (n : Z) : list U :=
  firstn (Z.to_nat n) str.

Definition truncateString (str : list U) (maxLength : Z) : list U :=
  if Z.of_nat (List.length str) <=? maxLength
  then str
  else substring0 str maxLength ++ [dot; dot; dot].
End Truncate.

(** ** Notions used by the properties *)

(** Every record of a map is stored under its own [id]. *)
Definition keyed (V : Type) (id : V -> Z) (m : JsMap.t V) : Prop :=
  forall k v, JsMap.get k m = Some v -> id v = k.

(** Every key of a map was handed out by the counter [next]. *)
Definition below (V : Type) (next : Z) (m : JsMap.t V) : Prop :=
  forall k, In k (JsMap.keys m) -> k < next.

(** The folder, file and share counters are ahead of the keys. *)
Record counters_ahead (st : Store) : Prop := {
  ahead_folders : below (currentFolderId st) (folders st);
  ahead_files : below (currentFileId st) (files st);
  ahead_shares : below (currentShareId st) (shares st)
}.

(** The bytes held by the files of user [u]. *)
Definition sizeOfFiles (u : Z) (l : list File) : Z :=
  fold_right Z.add 0
             (map File.size (filter (fun file => File.userId file =? u) l)).

Definition storedSize (st : Store) (u : Z) : Z :=
  sizeOfFiles u (JsMap.values (files st)).

(** The accounting invariant for user [u]: the record exists and its counter
    is the total size of the user's files. *)
Definition accounted (st : Store) (u : Z) : Prop :=
  exists user, getUser st u = Some user
               /\ User.storageUsed user = storedSize st u.

(** The state on which the accounting is well defined: users are stored
    under their ids, file ids come from the counter, the files map is a map
    and no file has a negative size. *)
Record accounting_ok (st : Store) : Prop := {
  ok_users : keyed User.id (users st);
  ok_fresh : below (currentFileId st) (files st);
  ok_files : JsMap.wf (files st);
  ok_sizes : forall file, In file (JsMap.values (files st)) -> 0 <= File.size file
}.

(** A call of [createFile] or of [deleteFile]. *)
Inductive FileOp : Type :=
| OpCreate (now : Date) (file : InsertFile)
| OpDelete (id : Z).

Definition step (st : Store) (op : FileOp) : Store :=
  match op with
  | OpCreate now file => snd (createFile now st file)
  | OpDelete id => snd (deleteFile st id)
  end.

Definition run (ops : list FileOp) (st : Store) : Store :=
  fold_left step ops st.

Definition nonnegative (op : FileOp) : Prop :=
  match op with
  | OpCreate _ file => 0 <= if_size file
  | OpDelete _ => True
  end.

(** [child_of st p c]: some stored folder with id [c] names [p] as parent. *)
Definition child_of (st : Store) (p c : Z) : Prop :=
  exists folder, In folder (JsMap.values (folders st))
                 /\ Folder.parentId folder = Some p
                 /\ Folder.id folder = c.

(** No folder id is its own descendant. *)
Definition acyclic (st : Store) : Prop :=
  forall g, ~ clos_trans Z (child_of st) g g.

(** The subfolder loop of [deleteFolder], on its own. *)
Definition deleteSubfolders (fuel : nat) (l : list Folder) (st : Store)
  : option Store :=
  fold_left
    (fun acc subfolder =>
       match acc with
       | None => None
       | Some s =>
           match deleteFolder fuel s (Folder.id subfolder) with
           | Some (_, s') => Some s'
           | None => None
           end
       end)
    l (Some st).

Definition filesIn (st : Store) (id : Z) : list File :=
  filter (fun file => is_id (File.folderId file) id) (JsMap.values (files st)).

Definition subfoldersOf (st : Store) (id : Z) : list Folder :=
  filter (fun folder => is_id (Folder.parentId folder) id)
         (JsMap.values (folders st)).

(** A share has exactly one of [fileId] and [folderId]. *)
Definition oneTarget (share : Share) : Prop :=
  (Share.fileId share <> None /\ Share.folderId share = None)
  \/ (Share.fileId share = None /\ Share.folderId share <> None).


(** [shrinks st st']: every entry of the folders, files and shares of [st']
    is an entry of [st]. *)
Record shrinks (st st' : Store) : Prop := {
  sh_folders : incl (folders st') (folders st);
  sh_files : incl (files st') (files st);
  sh_shares : incl (shares st') (shares st)
}.

(** [shallower k st g]: every chain of subfolders below [g] has fewer than
    [k] folders. *)
Fixpoint shallower (k : nat) (st : Store) (g : Z) : Prop :=
  match k with
  | O => False
  | S k' =>
      forall sub, In sub (JsMap.values (folders st)) ->
                  Folder.parentId sub = Some g ->
                  shallower k' st (Folder.id sub)
  end.

(** The folders map is a map and every folder is stored under its id, and
    the same for files and shares. *)
Record stored_by_id (st : Store) : Prop := {
  sbi_folders_wf : JsMap.wf (folders st);
  sbi_folders : keyed Folder.id (folders st);
  sbi_files_wf : JsMap.wf (files st);
  sbi_files : keyed File.id (files st);
  sbi_shares_wf : JsMap.wf (shares st);
  sbi_shares : keyed Share.id (shares st)
}.

(** [no_orphans st st']: nothing stored in [st'] sits in, or is a subfolder
    of, a folder that [st] had and [st'] has not, and no share of [st'] is
    a share of a file that [st] had and [st'] has not. *)
Record no_orphans (st st' : Store) : Prop := {
  no_files_of :
    forall key, JsMap.get key (folders st) <> None ->
                JsMap.get key (folders st') = None ->
                forall file, In file (JsMap.values (files st')) ->
                             File.folderId file <> Some key;
  no_folders_of :
    forall key, JsMap.get key (folders st) <> None ->
                JsMap.get key (folders st') = None ->
                forall folder, In folder (JsMap.values (folders st')) ->
                               Folder.parentId folder <> Some key;
  no_shares_of_file :
    forall key, JsMap.get key (files st) <> None ->
                JsMap.get key (files st') = None ->
                forall share, In share (JsMap.values (shares st')) ->
                              Share.fileId share <> Some key
}.

(** The same for shares of folders. *)
Definition no_shares_of_folder (st st' : Store) : Prop :=
  forall key, JsMap.get key (folders st) <> None ->
              JsMap.get key (folders st') = None ->
              forall share, In share (JsMap.values (shares st')) ->
                            Share.folderId share <> Some key.

(** A deletion started from a store whose records are stored under their
    ids ends in such a store, with fewer entries and without orphans. *)
Definition cleans (st st' : Store) : Prop :=
  stored_by_id st ->
  stored_by_id st' /\ shrinks st st' /\ no_orphans st st'.

(** *** The order in which [deleteFolder] deletes *)

(** A call of [files.delete] or of [folders.delete], with its key. *)
Inductive Deletion : Type :=
| FileDeleted (id : Z)
| FolderDeleted (id : Z).

Definition fileIds (log : list Deletion) : list Z :=
  flat_map (fun d => match d with FileDeleted i => [i] | FolderDeleted _ => [] end)
           log.

Definition folderIds (log : list Deletion) : list Z :=
  flat_map (fun d => match d with FolderDeleted i => [i] | FileDeleted _ => [] end)
           log.

(** The map after [m.delete(k)] for each key of [ks] in turn. *)
Definition deleteKeys (V : Type) (ks : list Z) (m : JsMap.t V) : JsMap.t V :=
  fold_left (fun acc k => JsMap.delete k acc) ks m.

(** [deleteFile] together with the log of its call of [files.delete], which
    it reaches when the file is stored. *)
Definition deleteFileTraced (st : Store) (id : Z)
  : bool * Store * list Deletion :=
  let (deleted, st') := deleteFile st id in
  (deleted, st', if JsMap.has id (files st) then [FileDeleted id] else []).

(** The loop [for (const file of folderFiles) await this.deleteFile(file.id)]
    and its log. *)
Fixpoint deleteFilesTraced (l : list File) (st : Store)
  : Store * list Deletion :=
  match l with
  | [] => (st, [])
  | file :: l' =>
      let '(_, st1, log1) := deleteFileTraced st (File.id file) in
      let (st2, log2) := deleteFilesTraced l' st1 in
      (st2, log1 ++ log2)
  end.

(** The loop [for (const subfolder of subfolders) await call(subfolder.id)]
    and its log. *)
Fixpoint deleteSubfoldersTraced
         (call : Store -> Z -> option (bool * Store * list Deletion))
         (l : list Folder) (st : Store) : option (Store * list Deletion) :=
  match l with
  | [] => Some (st, [])
  | subfolder :: l' =>
      match call st (Folder.id subfolder) with
      | None => None
      | Some (_, st1, log1) =>
          match deleteSubfoldersTraced call l' st1 with
          | None => None
          | Some (st2, log2) => Some (st2, log1 ++ log2)
          end
      end
  end.

(** [deleteFolder] together with the log of the calls of [files.delete] and
    of [folders.delete] that the run makes, in the order in which it makes
    them. *)
Fixpoint deleteFolderTraced (fuel : nat) (st : Store) (id : Z)
  : option (bool * Store * list Deletion) :=
  match fuel with
  | O => None
  | S fuel' =>
      let folderFiles :=
        filter (fun file => is_id (File.folderId file) id)
               (JsMap.values (files st)) in
      let (st1, log1) := deleteFilesTraced folderFiles st in
      let subfolders :=
        filter (fun folder => is_id (Folder.parentId folder) id)
               (JsMap.values (folders st1)) in
      match deleteSubfoldersTraced (deleteFolderTraced fuel') subfolders st1 with
      | None => None
      | Some (st2, log2) =>
          Some (JsMap.has id (folders st2),
                with_folders st2 (JsMap.delete id (folders st2)),
                log1 ++ log2 ++ [FolderDeleted id])
      end
  end.

(** The order that the specification gives, as a walk over the store as it
    is before the call: the files of the folder in the order of the files
    map, then the same walk below each subfolder in the order of the
    folders map, then the folder itself.  [depth] bounds the nesting. *)
Fixpoint depthFirst (depth : nat) (st : Store) (id : Z) : list Deletion :=
  match depth with
  | O => []
  | S depth' =>
      map (fun file => FileDeleted (File.id file)) (filesIn st id)
      ++ flat_map (fun sub => depthFirst depth' st (Folder.id sub))
                  (subfoldersOf st id)
      ++ [FolderDeleted id]
  end.

(** The result of a traced run without its log. *)
Definition untraced (r : bool * Store * list Deletion) : bool * Store :=
  (fst (fst r), snd (fst r)).

(** ** Sample stores and requests *)



Definition noFolderFields : PartialFolder :=
  Build_PartialFolder None None None None None None None None None None.

(** A folder made at time 100 by user 1 in a fresh store. *)
Definition storeWithDocs : Store :=
  snd (createFolder 100 (constructor 0)
                    {| ifo_name := "docs"; ifo_userId := 1;
                       ifo_parentId := None |}).

(** A 1000-byte file uploaded at time 100 by user 1 in a fresh store. *)
Definition storeWithPdf : Store :=
  snd (createFile 100 (constructor 0)
                  {| if_name := "a.pdf"; if_type := "application/pdf";
                     if_size := 1000; if_userId := 1; if_folderId := None;
                     if_path := "uploads/user_1/a.pdf" |}).

(** A file accessed at time 850 and trashed files, for the recent view. *)
Definition recentStore : Store :=
  let st1 := snd (createFile 100 storeWithPdf
                    {| if_name := "b.txt"; if_type := "text/plain";
                       if_size := 20; if_userId := 1; if_folderId := None;
                       if_path := "uploads/user_1/b.txt" |}) in
  let touch (t : Date) : PartialFile :=
    Build_PartialFile None None None None None None None None None None None
                      (Some (Some t)) None None in
  let st2 := snd (updateFile 800 st1 1 (touch 800)) in
  snd (updateFile 850 st2 2 (touch 850)).


(** The sample file, last accessed nine days and twenty-three and a half
    hours after the epoch. *)
Definition oldAccessStore : Store :=
  snd (updateFile 850 storeWithPdf 1
         (Build_PartialFile None None None None None None None None None None
                            None (Some (Some (10 * MS_PER_DAY - 1800000)))
                            None None)).

(** A zone an hour ahead of UTC until the instant [switch], at which the
    clocks are set back by an hour to UTC; a local time of the hour that
    comes twice is taken as the earlier of the two. *)
Definition zoneSetBackAt (switch : Date) : Date -> bool -> Z :=
  fun t atUTC =>
    if atUTC
    then (if t <? switch then 3600000 else 0)
    else (if t <? switch + 3600000 then 3600000 else 0).

(** Two uploads by user 1 and the removal of the first. *)
Definition sampleOps : list FileOp :=
  [ OpCreate 100 {| if_name := "a.pdf"; if_type := "application/pdf";
                    if_size := 1000; if_userId := 1; if_folderId := None;
                    if_path := "uploads/user_1/a.pdf" |};
    OpCreate 110 {| if_name := "b.txt"; if_type := "text/plain";
                    if_size := 20; if_userId := 1; if_folderId := None;
                    if_path := "uploads/user_1/b.txt" |};
    OpDelete 1 ].

(** Folder 1 of the sample store moved into itself. *)
Definition selfParentStore : Store :=
  snd (updateFolder 200 storeWithDocs 1
         (Build_PartialFolder None None None (Some (Some 1)) None None None
                              None None None)).

(** A public share of file 1 by user 1 that expires at time 500, and a
    share of folder 1. *)
Definition pdfShare : InsertShare :=
  {| is_fileId := Some 1; is_folderId := None; is_userId := 1;
     is_accessType := "public"; is_allowDownload := Some true;
     is_expiryDate := Some 500 |}.

Definition docsShare : InsertShare :=
  {| is_fileId := None; is_folderId := Some 1; is_userId := 1;
     is_accessType := "public"; is_allowDownload := Some true;
     is_expiryDate := None |}.

(** Three nested folders of user 1: 1 at the root, 2 in 1, 3 in 2; a file
    in folder 2 and a share of folder 1. *)
Definition nestedStore : Store :=
  let mkdir (st : Store) (name : string) (parent : option Z) : Store :=
    snd (createFolder 100 st {| ifo_name := name; ifo_userId := 1;
                                ifo_parentId := parent |}) in
  let st1 := mkdir (constructor 0) "a"%string None in
  let st2 := mkdir st1 "b"%string (Some 1) in
  let st3 := mkdir st2 "c"%string (Some 2) in
  let st4 := snd (createFile 120 st3
                    {| if_name := "n.txt"; if_type := "text/plain";
                       if_size := 7; if_userId := 1; if_folderId := Some 2;
                       if_path := "uploads/user_1/n.txt" |}) in
  snd (createShare 150 "beef" st4 docsShare).

(** Folder 1 at the root, folders 2 and 3 in it, folder 4 in folder 2, and
    a file in each of them: file 1 in folder 4, file 2 in folder 3, file 3
    in folder 2 and file 4 in folder 1. *)
Definition branchedStore : Store :=
  let mkdir (st : Store) (name : string) (parent : option Z) : Store :=
    snd (createFolder 100 st {| ifo_name := name; ifo_userId := 1;
                                ifo_parentId := parent |}) in
  let upload (st : Store) (name : string) (folder : Z) : Store :=
    snd (createFile 120 st {| if_name := name; if_type := "text/plain";
                              if_size := 7; if_userId := 1;
                              if_folderId := Some folder;
                              if_path := name |}) in
  let st1 := mkdir (constructor 0) "a"%string None in
  let st2 := mkdir st1 "b"%string (Some 1) in
  let st3 := mkdir st2 "c"%string (Some 1) in
  let st4 := mkdir st3 "d"%string (Some 2) in
  upload (upload (upload (upload st4 "w"%string 4) "x"%string 3)
                 "y"%string 2)
         "z"%string 1.

Definition storeWithSharedPdf : Store :=
  snd (createShare 150 "c0ffee" storeWithPdf pdfShare).

(** ASCII lower-casing, an instance of [toLowerCase] to run the routes on. *)
Definition lowerChar (c : ascii) : ascii :=
  let n := nat_of_ascii c in
  if ((65 <=? n) && (n <=? 90))%nat then ascii_of_nat (n + 32) else c.

Fixpoint asciiLower (s : string) : string :=
  match s with
  | EmptyString => EmptyString
  | String c s' => String (lowerChar c) (asciiLower s')
  end.

(** The sample file, starred and then moved to the trash at time 300. *)
Definition trashedStore : Store :=
  snd (updateFile 300 storeWithPdf 1
         (Build_PartialFile None None None None None None None
                            (Some (Some true)) None (Some (Some true))
                            (Some (Some 300)) None None None)).

(** A second user, as [createUser] is given it. *)
Definition alice : InsertUser :=
  {| iu_username := "alice@example.com"; iu_password := "hash.salt";
     iu_name := Some "Alice"%string; iu_avatar := None |}.

(** [keeps_accounts st st']: if [st] is a store on which the accounting is
    well defined, so is [st'], and every user whose counter is right in
    [st] has it right in [st']. *)
Definition keeps_accounts (st st' : Store) : Prop :=
  accounting_ok st ->
  accounting_ok st' /\ forall u, accounted st u -> accounted st' u.

(** The record of the sample file. *)
Definition thePdf : File :=
  File.mk 1 "a.pdf" "application/pdf" 1000 1 None "uploads/user_1/a.pdf"
          (Some false) None None None None (Some 100) (Some 100).

(** Two files of user 1 in folder 1 that were last accessed at the same
    time, and a third accessed later. *)
Definition tiedStore : Store :=
  let upload (st : Store) (name : string) : Store :=
    snd (createFile 100 st {| if_name := name; if_type := "text/plain";
                              if_size := 5; if_userId := 1;
                              if_folderId := Some 1;
                              if_path := name |}) in
  let touch (t : Date) : PartialFile :=
    Build_PartialFile None None None None None None None None None None None
                      (Some (Some t)) None None in
  let st1 := upload (upload (upload storeWithDocs "x"%string) "y"%string)
                    "z"%string in
  let st2 := snd (updateFile 700 st1 1 (touch 700)) in
  let st3 := snd (updateFile 700 st2 2 (touch 700)) in
  snd (updateFile 800 st3 3 (touch 800)).

(** The record of the sample folder, and an upload into it. *)
Definition theDocs : Folder :=
  Folder.mk 1 "docs" 1 None None None None None (Some 100) None.

Definition noteInDocs : InsertFile :=
  {| if_name := "x"; if_type := "text/plain"; if_size := 5;
     if_userId := 1; if_folderId := Some 1; if_path := "x" |}.

(** A second user, put in under id 2, with a folder (id 1) and a file
    (id 2) of her own, next to the demo user's file (id 1); and the upload
    directory holding both files. *)
Definition twoUsers : Store :=
  let st0 :=
    mkStore (JsMap.set 2 (User.mk 2 "alice@example.com" "hash.salt"
                                  (Some "Alice"%string) None
                                  (15 * 1024 * 1024 * 1024) 0 (Some 50))
                       (users storeWithPdf))
            (folders storeWithPdf) (files storeWithPdf) (shares storeWithPdf)
            3 1 2 1 in
  let st1 := snd (createFolder 60 st0 {| ifo_name := "private";
                                         ifo_userId := 2;
                                         ifo_parentId := None |}) in
  snd (createFile 70 st1 {| if_name := "diary.txt"; if_type := "text/plain";
                            if_size := 300; if_userId := 2;
                            if_folderId := Some 1;
                            if_path := "uploads/user_2/diary.txt" |}).

Definition twoUsersDisk : Disk :=
  ["uploads/user_1/a.pdf"; "uploads/user_2/diary.txt"]%string.

Definition noFolderPatch : FolderPatch :=
  {| fp_name := None; fp_starred := None; fp_inTrash := None |}.

Definition noFilePatch : FilePatch :=
  {| fip_name := None; fip_folderId := None; fip_starred := None;
     fip_inTrash := None |}.

(** [parents_first st]: the folder counter is ahead of the keys, and every
    folder that names a parent has a larger id than the parent. *)
Definition parents_first (st : Store) : Prop :=
  below (currentFolderId st) (folders st)
  /\ (forall folder, In folder (JsMap.values (folders st)) ->
                     Folder.id folder < currentFolderId st)
  /\ (forall folder p, In folder (JsMap.values (folders st)) ->
                       Folder.parentId folder = Some p ->
                       p < Folder.id folder).

(** * Properties *)

(** ** Facts about [JsMap] *)

Module JsMapFacts.
Section Facts.
Variable V : Type.
Implicit Types (m : JsMap.t V) (k : Z) (v : V).

Lemma get_set_same k v m : JsMap.get k (JsMap.set k v m) = Some v.
Proof.
  induction m as [|[k' v'] m IH]; simpl.
  - now rewrite Z.eqb_refl.
  - destruct (k =? k') eqn:E; simpl; rewrite ?Z.eqb_refl, ?E; auto.
Qed.

Lemma get_set_other k k' v m :
  k <> k' -> JsMap.get k (JsMap.set k' v m) = JsMap.get k m.
Proof.
  intros Hne. induction m as [|[k0 v0] m IH]; simpl.
  - apply Z.eqb_neq in Hne. now rewrite Hne.
  - destruct (k' =? k0) eqn:E; simpl.
    + apply Z.eqb_eq in E. subst k0.
      apply Z.eqb_neq in Hne. now rewrite Hne.
    + now rewrite IH.
Qed.

Lemma get_delete_same k m : JsMap.get k (JsMap.delete k m) = None.
Proof.
  induction m as [|[k' v'] m IH]; simpl; auto.
  destruct (k' =? k) eqn:E; simpl; auto.
  rewrite Z.eqb_sym, E. exact IH.
Qed.

Lemma get_delete_other k k' m :
  k <> k' -> JsMap.get k (JsMap.delete k' m) = JsMap.get k m.
Proof.
  intros Hne. induction m as [|[k0 v0] m IH]; simpl; auto.
  destruct (k0 =? k') eqn:E; simpl.
  - apply Z.eqb_eq in E. subst k0.
    apply Z.eqb_neq in Hne. now rewrite Hne.
  - now rewrite IH.
Qed.

Lemma get_none_keys k m : JsMap.get k m = None <-> ~ In k (JsMap.keys m).
Proof.
  induction m as [|[k' v'] m IH]; simpl.
  - tauto.
  - destruct (k =? k') eqn:E.
    + apply Z.eqb_eq in E. subst. split; [discriminate | tauto].
    + apply Z.eqb_neq in E. rewrite IH. split; [intros H [?|?] | ]; try tauto.
      congruence.
Qed.

Lemma get_some_keys k v m : JsMap.get k m = Some v -> In k (JsMap.keys m).
Proof.
  intros H. destruct (in_dec Z.eq_dec k (JsMap.keys m)) as [|Hn]; auto.
  apply get_none_keys in Hn. congruence.
Qed.

Lemma get_some_values k v m : JsMap.get k m = Some v -> In v (JsMap.values m).
Proof.
  induction m as [|[k' v'] m IH]; simpl; [discriminate|].
  destruct (k =? k'); [intros [= ->]; auto | auto].
Qed.

Lemma get_some_In k v m : JsMap.get k m = Some v -> In (k, v) m.
Proof.
  induction m as [|[k' v'] m IH]; simpl; [discriminate|].
  destruct (k =? k') eqn:E; [intros [= ->]|]; auto.
  apply Z.eqb_eq in E. subst. auto.
Qed.

Lemma In_get k v m : JsMap.wf m -> In (k, v) m -> JsMap.get k m = Some v.
Proof.
  unfold JsMap.wf. induction m as [|[k' v'] m IH]; simpl; [tauto|].
  intros Hnd [H|H].
  - injection H as -> ->. now rewrite Z.eqb_refl.
  - inversion Hnd as [|? ? Hnotin Hnd']; subst.
    destruct (k =? k') eqn:E.
    + apply Z.eqb_eq in E. subst. exfalso. apply Hnotin.
      change k' with (fst (k', v)). now apply in_map.
    + auto.
Qed.

Lemma delete_absent k m : JsMap.get k m = None -> JsMap.delete k m = m.
Proof.
  induction m as [|[k' v'] m IH]; simpl; auto.
  destruct (k =? k') eqn:E; [discriminate|].
  intros H. rewrite Z.eqb_sym, E. simpl. now rewrite IH.
Qed.

Lemma has_false k m : JsMap.get k m = None -> JsMap.has k m = false.
Proof. unfold JsMap.has. now intros ->. Qed.

Lemma In_delete e k m : In e (JsMap.delete k m) <-> In e m /\ fst e <> k.
Proof.
  unfold JsMap.delete. rewrite filter_In, negb_true_iff, Z.eqb_neq. tauto.
Qed.

Lemma values_delete_incl k m :
  incl (JsMap.values (JsMap.delete k m)) (JsMap.values m).
Proof.
  intros v Hv. unfold JsMap.values in *.
  apply in_map_iff in Hv as [e [<- He]]. apply In_delete in He.
  apply in_map. tauto.
Qed.

Lemma keys_set_fresh k v m :
  JsMap.get k m = None -> JsMap.set k v m = m ++ [(k, v)].
Proof.
  induction m as [|[k' v'] m IH]; simpl; auto.
  destruct (k =? k'); [discriminate|]. intros H. now rewrite IH.
Qed.

Lemma keys_set_present k v m :
  JsMap.get k m <> None -> JsMap.keys (JsMap.set k v m) = JsMap.keys m.
Proof.
  induction m as [|[k' v'] m IH]; simpl; [congruence|].
  destruct (k =? k') eqn:E; simpl.
  - apply Z.eqb_eq in E. now subst.
  - intros H. now rewrite IH.
Qed.

Lemma wf_delete k m : JsMap.wf m -> JsMap.wf (JsMap.delete k m).
Proof.
  unfold JsMap.wf, JsMap.keys, JsMap.delete.
  induction m as [|[k' v'] m IH]; simpl; auto.
  intros Hnd. inversion Hnd as [|? ? Hnotin Hnd']; subst.
  destruct (k' =? k); simpl; auto.
  constructor; auto.
  intros Hin. apply Hnotin. apply in_map_iff in Hin as [e [He Hin]].
  apply filter_In in Hin. apply in_map_iff. exists e. tauto.
Qed.

Lemma wf_set k v m : JsMap.wf m -> JsMap.wf (JsMap.set k v m).
Proof.
  intros Hwf. destruct (JsMap.get k m) eqn:E.
  - unfold JsMap.wf. rewrite keys_set_present; auto. congruence.
  - rewrite keys_set_fresh by assumption.
    unfold JsMap.wf, JsMap.keys. rewrite map_app. simpl.
    apply get_none_keys in E.
    apply NoDup_incl_NoDup with (l := k :: map fst m).
    + constructor; assumption.
    + simpl. rewrite length_app. simpl. lia.
    + intros x [Hx|Hx]; apply in_or_app; simpl; auto.
Qed.
Lemma values_set_new k v m : In v (JsMap.values (JsMap.set k v m)).
Proof.
  induction m as [|[k' v'] m IH]; simpl; auto.
  destruct (k =? k'); simpl; auto.
Qed.

Lemma values_set_inv k v w m :
  In w (JsMap.values (JsMap.set k v m)) -> w = v \/ In w (JsMap.values m).
Proof.
  induction m as [|[k' v'] m IH]; simpl.
  - intros [<-|[]]; auto.
  - destruct (k =? k'); simpl; intros [<-|H]; auto.
    apply IH in H. tauto.
Qed.
End Facts.
End JsMapFacts.

Unset Implicit Arguments.

(** ** Small facts about the store record *)

Lemma with_users_same st : with_users st (users st) = st.
Proof. now destruct st. Qed.

Lemma with_folders_same st : with_folders st (folders st) = st.
Proof. now destruct st. Qed.

Lemma with_files_same st : with_files st (files st) = st.
Proof. now destruct st. Qed.

Lemma with_shares_same st : with_shares st (shares st) = st.
Proof. now destruct st. Qed.

(** ** Operations on an id that is not stored *)

(** C10.  When [id] is not a key of the map an operation works on,
    [updateUser], [updateFolder] and [updateFile] return [undefined],
    [deleteFile] and [deleteShare] return [false], and the store that is
    left (all four maps, hence every user's [storageUsed], and the counters)
    is the store the call started from. *)
Theorem missing_id_changes_nothing (st : Store) (id : Z) :
  (JsMap.get id (users st) = None ->
   forall data, updateUser st id data = (None, st))
  /\ (JsMap.get id (folders st) = None ->
      forall now data, updateFolder now st id data = (None, st))
  /\ (JsMap.get id (files st) = None ->
      (forall now data, updateFile now st id data = (None, st))
      /\ deleteFile st id = (false, st))
  /\ (JsMap.get id (shares st) = None ->
      deleteShare st id = (false, st)).
Proof.
  repeat split.
  - intros H data. unfold updateUser. now rewrite H.
  - intros H now data. unfold updateFolder. now rewrite H.
  - intros now data. unfold updateFile. now rewrite H.
  - unfold deleteFile. now rewrite H.
  - intros H. unfold deleteShare.
    rewrite (JsMapFacts.has_false _ _ H), (JsMapFacts.delete_absent _ _ H).
    now rewrite with_shares_same.
Qed.

Lemma missing_id_changes_nothing_witness :
  let st := constructor 0 in
  updateUser st 7 (Build_PartialUser None (Some "x"%string) None None None
                                     None (Some 5) None) = (None, st)
  /\ deleteFile st 7 = (false, st)
  /\ deleteShare st 7 = (false, st).
Proof.
  intros st.
  destruct (missing_id_changes_nothing st 7) as (Hu & _ & Hf & Hs).
  split; [apply Hu; reflexivity|].
  split; [apply Hf; reflexivity | apply Hs; reflexivity].
Defined.

(** ** Identifiers *)

(** C3, on the code.  The constructor seeds the users map with the demo user
    under key 1 and leaves [currentUserId] at 1, so the first [createUser]
    of a fresh store is given id 1, a key that is already present, and the
    demo user is replaced by the new record. *)
Theorem createUser_reuses_seeded_id (now now' : Date) (insertUser : InsertUser) :
  let st := constructor now in
  let (user, st') := createUser now' st insertUser in
  User.id user = 1
  /\ JsMap.has 1 (users st) = true
  /\ getUser st 1 = Some (demoUser now)
  /\ getUser st' 1 = Some user
  /\ JsMap.keys (users st') = [1].
Proof. cbv zeta. simpl. repeat split. Qed.

(** For the three maps that start empty the counter does stay ahead of the
    keys: a store whose keys are below the counter hands out a key that is
    not present, and the keys stay below the counter. *)
Lemma below_fresh {V : Type} (next : Z) (m : JsMap.t V) :
  below next m -> JsMap.get next m = None.
Proof.
  intros H. apply JsMapFacts.get_none_keys. intros Hin.
  specialize (H _ Hin). lia.
Qed.

Lemma below_set {V : Type} (next : Z) (v : V) (m : JsMap.t V) :
  below next m -> below (next + 1) (JsMap.set next v m).
Proof.
  intros H k Hin.
  rewrite JsMapFacts.keys_set_fresh in Hin by now apply below_fresh.
  unfold JsMap.keys in Hin. rewrite map_app in Hin. simpl in Hin.
  apply in_app_or in Hin as [Hin|[<-|[]]]; [|lia].
  specialize (H _ Hin). lia.
Qed.

Lemma below_delete {V : Type} (next k : Z) (m : JsMap.t V) :
  below next m -> below next (JsMap.delete k m).
Proof.
  intros H k' Hin. apply H. unfold JsMap.keys in *.
  apply in_map_iff in Hin as [e [<- He]]. apply JsMapFacts.In_delete in He.
  apply in_map. tauto.
Qed.

(** The folder, file and share counters of a fresh store are ahead of their
    maps, a [create*] call keeps them ahead, and the id it returns is the
    counter's value, which is not a key of the map. *)
Lemma constructor_counters_ahead (now : Date) :
  counters_ahead (constructor now).
Proof. constructor; intros k []. Qed.

Lemma create_ids_fresh (now : Date) (token : string) (st : Store)
      (folder : InsertFolder) (file : InsertFile) (share : InsertShare) :
  counters_ahead st ->
  (Folder.id (fst (createFolder now st folder)) = currentFolderId st
   /\ getFolder st (currentFolderId st) = None
   /\ counters_ahead (snd (createFolder now st folder)))
  /\ (File.id (fst (createFile now st file)) = currentFileId st
      /\ getFile st (currentFileId st) = None
      /\ counters_ahead (snd (createFile now st file)))
  /\ (Share.id (fst (createShare now token st share)) = currentShareId st
      /\ JsMap.get (currentShareId st) (shares st) = None
      /\ counters_ahead (snd (createShare now token st share))).
Proof.
  intros [Hfo Hfi Hsh].
  split; [|split]; (split; [reflexivity|]);
    (split; [now apply below_fresh|]);
    constructor; simpl; auto; now apply below_set.
Qed.


(** ** Partial updates *)

(** C4, as the code has it.  For a stored folder, [updateFolder] returns and
    stores the old record overwritten by exactly the fields that [data]
    provides; [modifiedAt] is one of these fields and changes only when
    [data] provides it.  For a stored file, [updateFile] returns and stores
    the old record overwritten by the fields that [data] provides, except
    that [modifiedAt] is set to the time of the call. *)
Theorem update_merges_provided_fields (now : Date) (st : Store) (id : Z) :
  (forall folder data,
      getFolder st id = Some folder ->
      exists updated st',
        updateFolder now st id data = (Some updated, st')
        /\ getFolder st' id = Some updated
        /\ Folder.id updated = spread (Folder.id folder) (pfo_id data)
        /\ Folder.name updated = spread (Folder.name folder) (pfo_name data)
        /\ Folder.userId updated
           = spread (Folder.userId folder) (pfo_userId data)
        /\ Folder.parentId updated
           = spread (Folder.parentId folder) (pfo_parentId data)
        /\ Folder.inTrash updated
           = spread (Folder.inTrash folder) (pfo_inTrash data)
        /\ Folder.deletedAt updated
           = spread (Folder.deletedAt folder) (pfo_deletedAt data)
        /\ Folder.starred updated
           = spread (Folder.starred folder) (pfo_starred data)
        /\ Folder.isShared updated
           = spread (Folder.isShared folder) (pfo_isShared data)
        /\ Folder.createdAt updated
           = spread (Folder.createdAt folder) (pfo_createdAt data)
        /\ Folder.modifiedAt updated
           = spread (Folder.modifiedAt folder) (pfo_modifiedAt data))
  /\ (forall file data,
         getFile st id = Some file ->
         exists updated st',
           updateFile now st id data = (Some updated, st')
           /\ getFile st' id = Some updated
           /\ File.modifiedAt updated = Some now
           /\ File.id updated = spread (File.id file) (pf_id data)
           /\ File.name updated = spread (File.name file) (pf_name data)
           /\ File.type updated = spread (File.type file) (pf_type data)
           /\ File.size updated = spread (File.size file) (pf_size data)
           /\ File.userId updated = spread (File.userId file) (pf_userId data)
           /\ File.folderId updated
              = spread (File.folderId file) (pf_folderId data)
           /\ File.path updated = spread (File.path file) (pf_path data)
           /\ File.starred updated
              = spread (File.starred file) (pf_starred data)
           /\ File.isShared updated
              = spread (File.isShared file) (pf_isShared data)
           /\ File.inTrash updated
              = spread (File.inTrash file) (pf_inTrash data)
           /\ File.deletedAt updated
              = spread (File.deletedAt file) (pf_deletedAt data)
           /\ File.lastAccessedAt updated
              = spread (File.lastAccessedAt file) (pf_lastAccessedAt data)
           /\ File.createdAt updated
              = spread (File.createdAt file) (pf_createdAt data)).
Proof.
  split.
  - intros folder data Hget. unfold getFolder in Hget.
    unfold updateFolder. rewrite Hget.
    eexists; eexists. split; [reflexivity|].
    split; [apply JsMapFacts.get_set_same|].
    simpl. repeat split.
  - intros file data Hget. unfold getFile in Hget.
    unfold updateFile. rewrite Hget.
    eexists; eexists. split; [reflexivity|].
    split.
    + unfold getFile. simpl. apply JsMapFacts.get_set_same.
    + simpl. repeat split.
Qed.

Definition noFileFields : PartialFile :=
  Build_PartialFile None None None None None None None None None None None
                    None None None.

Lemma update_merges_provided_fields_witness :
  (exists updated st',
      updateFolder 200 storeWithDocs 1
        (Build_PartialFolder None (Some "papers"%string) None None None None
                             (Some (Some true)) None None None)
      = (Some updated, st')
      /\ Folder.name updated = "papers"%string
      /\ Folder.starred updated = Some true
      /\ Folder.userId updated = 1
      /\ Folder.modifiedAt updated = None)
  /\ (exists updated st',
         updateFile 200 storeWithPdf 1
           (Build_PartialFile None (Some "b.pdf"%string) None None None None
                              None None None None None None None (Some (Some 7)))
         = (Some updated, st')
         /\ File.name updated = "b.pdf"%string
         /\ File.size updated = 1000
         /\ File.modifiedAt updated = Some 200).
Proof.
  destruct (update_merges_provided_fields 200 storeWithDocs 1) as [Hfo _].
  destruct (update_merges_provided_fields 200 storeWithPdf 1) as [_ Hfi].
  split.
  - edestruct Hfo as (updated & st' & Hrun & _ & _ & Hname & Huser & _ & _
                      & _ & Hstar & _ & _ & Hmod); [reflexivity|].
    exists updated, st'. split; [exact Hrun|].
    rewrite Hname, Hstar, Huser, Hmod. simpl. repeat split.
  - edestruct Hfi as (updated & st' & Hrun & _ & Hmod & _ & Hname & _ & Hsize
                      & _); [reflexivity|].
    exists updated, st'. split; [exact Hrun|].
    rewrite Hname, Hsize, Hmod. simpl. repeat split.
Defined.

(** C4, as stated, fails on [updateFolder]: renaming at time 200 the folder
    made at time 100 returns a record whose [modifiedAt] is not 200 (it is
    still absent, as [createFolder] left it). *)
Lemma updateFolder_does_not_stamp :
  exists updated st',
    updateFolder 200 storeWithDocs 1
      (Build_PartialFolder None (Some "papers"%string) None None None None
                           None None None None)
    = (Some updated, st')
    /\ getFolder st' 1 = Some updated
    /\ Folder.modifiedAt updated = None
    /\ Folder.modifiedAt updated <> Some 200.
Proof.
  eexists; eexists. split; [reflexivity|].
  split; [reflexivity|]. split; [reflexivity|]. discriminate.
Qed.

(** ** Shares *)

Lemma find_unique {A : Type} (p : A -> bool) (x : A) (l : list A) :
  In x l -> p x = true ->
  (forall y, In y l -> p y = true -> y = x) ->
  find p l = Some x.
Proof.
  induction l as [|a l IH]; simpl; [tauto|].
  intros Hin Hpx Huniq. destruct (p a) eqn:Hpa.
  - f_equal. apply Huniq; auto.
  - destruct Hin as [->|Hin]; [congruence|]. apply IH; auto.
Qed.

(** C5.  A stored share whose [expiryDate] is before the time of the call is
    returned by [getShareByToken] like any other: the share itself, the file
    and folder its ids resolve to and the sharer's name and avatar.  The
    route GET /api/shares/:token is where such a share is refused (403). *)
Theorem expired_share_is_still_returned
        (now : Date) (st : Store) (share : Share) (expiry : Date) :
  In share (JsMap.values (shares st)) ->
  (forall other, In other (JsMap.values (shares st)) ->
                 Share.token other = Share.token share -> other = share) ->
  Share.expiryDate share = Some expiry ->
  expiry < now ->
  exists details,
    getShareByToken now st (Share.token share) = Some details
    /\ swd_share details = share
    /\ (forall i, Share.fileId share = Some i -> i <> 0 ->
                  swd_file details = getFile st i)
    /\ (forall i, Share.folderId share = Some i -> i <> 0 ->
                  swd_folder details = getFolder st i)
    /\ (forall user, getUser st (Share.userId share) = Some user ->
                     sharedBy details
                     = Some {| sb_name := or_string (User.name user)
                                                    (User.username user);
                               sb_avatar := or_string (User.avatar user)
                                                      EmptyString |})
    /\ getSharesToken now st (Share.token share)
       = message 403 "Share has expired".
Proof.
  intros Hin Huniq Hexp Hpast.
  assert (Hfind : find (fun s => String.eqb (Share.token s) (Share.token share))
                       (JsMap.values (shares st)) = Some share).
  { apply find_unique; auto.
    - apply String.eqb_refl.
    - intros y Hy Heq. apply Huniq; auto. now apply String.eqb_eq. }
  exists (shareDetails st share).
  assert (Hget : getShareByToken now st (Share.token share)
                 = Some (shareDetails st share)).
  { unfold getShareByToken. now rewrite Hfind. }
  split; [exact Hget|]. split; [reflexivity|].
  split; [|split; [|split]].
  - intros i Hi Hnz. unfold shareDetails, getFile; simpl. rewrite Hi. simpl.
    apply Z.eqb_neq in Hnz. now rewrite Hnz.
  - intros i Hi Hnz. unfold shareDetails, getFolder; simpl. rewrite Hi. simpl.
    apply Z.eqb_neq in Hnz. now rewrite Hnz.
  - intros user Hu. unfold shareDetails, getUser in *; simpl. now rewrite Hu.
  - unfold getSharesToken. rewrite Hget. simpl. rewrite Hexp.
    apply Z.ltb_lt in Hpast. now rewrite Hpast.
Qed.

Lemma expired_share_is_still_returned_witness :
  exists details,
    getShareByToken 900 storeWithSharedPdf "c0ffee" = Some details
    /\ Share.expiryDate (swd_share details) = Some 500
    /\ swd_file details = getFile storeWithSharedPdf 1
    /\ getSharesToken 900 storeWithSharedPdf "c0ffee"
       = message 403 "Share has expired".
Proof.
  destruct (expired_share_is_still_returned
              900 storeWithSharedPdf
              (fst (createShare 150 "c0ffee" storeWithPdf pdfShare)) 500)
    as (details & Hget & Hshare & Hfile & _ & _ & Hroute).
  - simpl. auto.
  - simpl. intros other [<-|[]] _. reflexivity.
  - reflexivity.
  - lia.
  - exists details. split; [exact Hget|]. rewrite Hshare.
    split; [reflexivity|]. split; [|exact Hroute].
    apply (Hfile 1); [reflexivity | discriminate].
Defined.

(** C6.  POST /api/shares answers 400 and leaves the store as it was when
    the request gives both a [fileId] and a [folderId] or gives neither (an
    id counts as given when it is truthy, so not 0); a request that is
    answered 201 stores a share with exactly one of the two set; hence a
    store in which every share has exactly one of them keeps that property
    through every request. *)
Theorem share_request_needs_exactly_one_target
        (now : Date) (token : string) (st : Store) (userId : Z)
        (body : ShareRequest) :
  ((truthy (sr_fileId body) = true /\ truthy (sr_folderId body) = true)
   \/ (truthy (sr_fileId body) = false /\ truthy (sr_folderId body) = false) ->
   postShares now token st userId body
   = (message 400 "Must specify either fileId or folderId", st))
  /\ (forall share st',
         postShares now token st userId body = (json 201 share, st') ->
         oneTarget share
         /\ In share (JsMap.values (shares st'))
         /\ (truthy (sr_fileId body) = true
             /\ truthy (sr_folderId body) = false
             /\ Share.fileId share = sr_fileId body
             \/ truthy (sr_fileId body) = false
                /\ truthy (sr_folderId body) = true
                /\ Share.folderId share = sr_folderId body))
  /\ ((forall share, In share (JsMap.values (shares st)) -> oneTarget share) ->
      forall share,
        In share (JsMap.values
                    (shares (snd (postShares now token st userId body)))) ->
        oneTarget share).
Proof.
  assert (Hcreated :
            forall share st',
              postShares now token st userId body = (json 201 share, st') ->
              (oneTarget share
               /\ In share (JsMap.values (shares st'))
               /\ (truthy (sr_fileId body) = true
                   /\ truthy (sr_folderId body) = false
                   /\ Share.fileId share = sr_fileId body
                   \/ truthy (sr_fileId body) = false
                      /\ truthy (sr_folderId body) = true
                      /\ Share.folderId share = sr_folderId body))
              /\ forall other, In other (JsMap.values (shares st')) ->
                               other = share
                               \/ In other (JsMap.values (shares st))).
  { intros share st'. unfold postShares, oneTarget, orNull.
    destruct (truthy (sr_fileId body)) eqn:Hf,
             (truthy (sr_folderId body)) eqn:Hg; simpl;
      try discriminate.
    - destruct (sr_fileId body) as [i|] eqn:Hi; [|discriminate].
      destruct (getFile st i) as [file|]; simpl; [|discriminate].
      destruct (File.userId file =? userId); simpl; [|discriminate].
      destruct (sr_folderId body) as [j|] eqn:Hj; simpl.
      + intros [= <- <-]. simpl. split.
        * split; [left; split; [discriminate|reflexivity]|].
          split; [apply JsMapFacts.values_set_new | left; auto].
        * intros other Ho. now apply JsMapFacts.values_set_inv in Ho.
      + intros [= <- <-]. simpl. split.
        * split; [left; split; [discriminate|reflexivity]|].
          split; [apply JsMapFacts.values_set_new | left; auto].
        * intros other Ho. now apply JsMapFacts.values_set_inv in Ho.
    - destruct (sr_folderId body) as [j|] eqn:Hj; [|discriminate].
      assert (Hfile : match sr_fileId body with
                      | Some _ => true | None => true end = true)
        by now destruct (sr_fileId body).
      destruct (sr_fileId body) as [i|] eqn:Hi; simpl;
        (destruct (getFolder st j) as [folder|]; simpl; [|discriminate]);
        (destruct (Folder.userId folder =? userId); simpl; [|discriminate]);
        intros [= <- <-]; simpl; (split;
          [ split; [right; split; [reflexivity|discriminate]|];
            split; [apply JsMapFacts.values_set_new | right; auto]
          | intros other Ho; now apply JsMapFacts.values_set_inv in Ho ]). }
  split; [|split].
  - unfold postShares. intros [[-> ->]|[-> ->]]; reflexivity.
  - intros share st' Hrun. now apply Hcreated.
  - intros Hall share.
    destruct (postShares now token st userId body) as [[code created|code text] st']
      eqn:Hrun; simpl.
    + assert (code = 201) as ->.
      { revert Hrun. unfold postShares.
        repeat match goal with
               | |- context [if ?b then _ else _] => destruct b
               | |- context [let (_, _) := ?p in _] => destruct p
               end; congruence. }
      destruct (Hcreated _ _ eq_refl) as [[Hone _] Hinv].
      intros Hin. apply Hinv in Hin as [->|Hin]; auto.
    + assert (st' = st) as ->; [|now apply Hall].
      revert Hrun. unfold postShares.
      repeat match goal with
             | |- context [if ?b then _ else _] => destruct b
             | |- context [let (_, _) := ?p in _] => destruct p
             end; congruence.
Qed.

Lemma share_request_needs_exactly_one_target_witness :
  postShares 150 "c0ffee" storeWithPdf 1
             {| sr_fileId := Some 1; sr_folderId := Some 1;
                sr_accessType := None; sr_allowDownload := None;
                sr_expiryDate := None |}
  = (message 400 "Must specify either fileId or folderId", storeWithPdf).
Proof.
  apply share_request_needs_exactly_one_target. left. split; reflexivity.
Defined.

(** ** Folder names *)

Lemma same_parent_eq (x p : option Z) : same_parent x p = true <-> x = p.
Proof.
  destruct x, p; simpl; split; try congruence; try discriminate.
  - intros H. apply Z.eqb_eq in H. now subst.
  - intros [= ->]. apply Z.eqb_refl.
Qed.

(** The duplicate check of POST /api/folders finds a folder exactly when the
    user has one in the location whose lower-cased name is the lower-cased
    requested name. *)
Lemma folderExists_iff (toLowerCase : string -> string)
      (st : Store) (userId : Z) (name : string) (location : option Z) :
  existsb (fun folder =>
             String.eqb (toLowerCase (Folder.name (fws_folder folder)))
                        (toLowerCase name))
          (getFoldersByUserId st userId location) = true
  <-> exists sibling,
        In sibling (JsMap.values (folders st))
        /\ Folder.userId sibling = userId
        /\ Folder.parentId sibling = location
        /\ toLowerCase (Folder.name sibling) = toLowerCase name.
Proof.
  unfold getFoldersByUserId. rewrite existsb_exists. split.
  - intros (fws & Hin & Heq). apply in_map_iff in Hin as (sibling & <- & Hin).
    apply filter_In in Hin as (Hin & Hcond).
    apply andb_true_iff in Hcond as (Hu & Hp).
    exists sibling. repeat split; auto.
    + now apply Z.eqb_eq.
    + now apply same_parent_eq.
    + now apply String.eqb_eq.
  - intros (sibling & Hin & Hu & Hp & Heq).
    exists (folderStats st sibling). split.
    + apply in_map. apply filter_In. split; auto.
      apply andb_true_iff. split; [now apply Z.eqb_eq | now apply same_parent_eq].
    + simpl. now apply String.eqb_eq.
Qed.

(** C7.  Let the parent named in the request be absent or a folder of the
    user.  If the user already has a folder in that location whose name
    equals the requested one up to case, POST /api/folders answers 409 and
    the store is unchanged.  If the user has none, the request is answered
    201 with a stored folder of that name, user and location, and any
    further request by the user for the same location and a name that is
    equal up to case is answered 409 and changes nothing. *)
Theorem duplicate_folder_name_conflicts
        (toLowerCase : string -> string) (now : Date) (st : Store)
        (userId : Z) (name : string) (parentId : option Z) :
  (forall p, parentId = Some p ->
             exists parentFolder, getFolder st p = Some parentFolder
                                  /\ Folder.userId parentFolder = userId) ->
  ((exists sibling,
       In sibling (JsMap.values (folders st))
       /\ Folder.userId sibling = userId
       /\ Folder.parentId sibling = orNull parentId
       /\ toLowerCase (Folder.name sibling) = toLowerCase name) ->
   postFolders toLowerCase now st userId name parentId
   = (message 409 "A folder with this name already exists in this location",
      st))
  /\ ((forall sibling,
          In sibling (JsMap.values (folders st)) ->
          Folder.userId sibling = userId ->
          Folder.parentId sibling = orNull parentId ->
          toLowerCase (Folder.name sibling) <> toLowerCase name) ->
      exists folder st',
        postFolders toLowerCase now st userId name parentId
        = (json 201 folder, st')
        /\ Folder.name folder = name
        /\ Folder.userId folder = userId
        /\ Folder.parentId folder = orNull parentId
        /\ getFolder st' (Folder.id folder) = Some folder
        /\ forall now' again,
            toLowerCase again = toLowerCase name ->
            postFolders toLowerCase now' st' userId again parentId
            = (message 409
                 "A folder with this name already exists in this location",
               st')).
Proof.
  intros Hparent.
  assert (Hconflict :
            forall now0 st0 name0,
              (forall p, parentId = Some p ->
                         exists parentFolder,
                           getFolder st0 p = Some parentFolder
                           /\ Folder.userId parentFolder = userId) ->
              (exists sibling,
                  In sibling (JsMap.values (folders st0))
                  /\ Folder.userId sibling = userId
                  /\ Folder.parentId sibling = orNull parentId
                  /\ toLowerCase (Folder.name sibling) = toLowerCase name0) ->
              postFolders toLowerCase now0 st0 userId name0 parentId
              = (message 409
                   "A folder with this name already exists in this location",
                 st0)).
  { intros now0 st0 name0 Hp Hsib. unfold postFolders.
    destruct parentId as [p|].
    - destruct (Hp p eq_refl) as (pf & -> & Hu).
      apply Z.eqb_eq in Hu. rewrite Hu. simpl.
      apply folderExists_iff in Hsib. now rewrite Hsib.
    - apply folderExists_iff in Hsib. now rewrite Hsib. }
  split; [now apply Hconflict|].
  intros Hfresh.
  assert (Hnone :
            existsb (fun folder =>
                       String.eqb
                         (toLowerCase (Folder.name (fws_folder folder)))
                         (toLowerCase name))
                    (getFoldersByUserId st userId (orNull parentId)) = false).
  { apply not_true_is_false. intros Hex.
    apply folderExists_iff in Hex as (sibling & Hin & Hu & Hp & Heq).
    now apply (Hfresh sibling). }
  set (folder := fst (createFolder now st
                        {| ifo_name := name; ifo_userId := userId;
                           ifo_parentId := orNull parentId |})).
  set (st' := snd (createFolder now st
                     {| ifo_name := name; ifo_userId := userId;
                        ifo_parentId := orNull parentId |})).
  assert (Hstored : getFolder st' (Folder.id folder) = Some folder)
    by apply JsMapFacts.get_set_same.
  exists folder, st'. split.
  { unfold postFolders. destruct parentId as [p|].
    - destruct (Hparent p eq_refl) as (pf & -> & Hu).
      apply Z.eqb_eq in Hu. rewrite Hu. simpl. now rewrite Hnone.
    - now rewrite Hnone. }
  repeat split; auto.
  intros now' again Hagain. apply Hconflict.
  - intros p ->. destruct (Hparent p eq_refl) as (pf & Hpf & Hu).
    destruct (Z.eq_dec p (Folder.id folder)) as [Heq|Hne].
    + exists folder. rewrite Heq. split; auto.
    + exists pf. split; auto. unfold getFolder, st'. simpl.
      rewrite JsMapFacts.get_set_other; auto.
  - exists folder. repeat split; auto.
    apply (JsMapFacts.get_some_values _ _ Hstored).
Qed.

Lemma duplicate_folder_name_conflicts_witness :
  postFolders asciiLower 300 storeWithDocs 1 "DOCS" None
  = (message 409 "A folder with this name already exists in this location",
     storeWithDocs)
  /\ exists folder st',
      postFolders asciiLower 300 storeWithDocs 1 "Music" None
      = (json 201 folder, st')
      /\ Folder.name folder = "Music"%string.
Proof.
  destruct (duplicate_folder_name_conflicts
              asciiLower 300 storeWithDocs 1 "DOCS" None) as [Hdup _];
    [discriminate|].
  destruct (duplicate_folder_name_conflicts
              asciiLower 300 storeWithDocs 1 "Music" None) as [_ Hnew];
    [discriminate|].
  split.
  - apply Hdup.
    exists (fst (createFolder 100 (constructor 0)
                   {| ifo_name := "docs"; ifo_userId := 1;
                      ifo_parentId := None |})).
    simpl. repeat split; auto.
  - destruct Hnew as (folder & st' & Hrun & Hname & _).
    + simpl. intros sibling [<-|[]] _ _. simpl. discriminate.
    + exists folder, st'. split; assumption.
Defined.

(** ** The recent-files view *)

Section SortByKey.
Context {A : Type}.
Variable key : A -> Z.

(** The comparator [(a, b) => key(b) - key(a)]: larger keys first. *)
Local Abbreviation cmp := (fun a b : A => key b - key a).
Local Abbreviation desc := (fun a b : A => key b <= key a).

Lemma insertBy_perm (x : A) (l : list A) :
  Permutation (insertBy cmp x l) (x :: l).
Proof.
  induction l as [|y l IH]; simpl; auto.
  destruct (key y - key x <=? 0); auto.
  rewrite IH. apply perm_swap.
Qed.

Lemma sortBy_perm (l : list A) : Permutation (sortBy cmp l) l.
Proof.
  induction l as [|x l IH]; simpl; auto.
  rewrite insertBy_perm. now constructor.
Qed.



(** The sort is stable: elements with equal keys keep their order. *)
Lemma insertBy_filter (p : A -> bool) (x : A) (l : list A) :
  (forall a b, p a = true -> p b = true -> key a = key b) ->
  filter p (insertBy cmp x l) = filter p (x :: l).
Proof.
  intros Hsame. induction l as [|y l IH]; simpl; auto.
  destruct (key y - key x <=? 0) eqn:E; simpl; auto.
  simpl in IH. rewrite IH.
  destruct (p x) eqn:Hx, (p y) eqn:Hy; auto.
  exfalso. apply Z.leb_gt in E.
  specialize (Hsame x y Hx Hy). lia.
Qed.

Lemma sortBy_stable (p : A -> bool) (l : list A) :
  (forall a b, p a = true -> p b = true -> key a = key b) ->
  filter p (sortBy cmp l) = filter p l.
Proof.
  intros Hsame. induction l as [|x l IH]; simpl; auto.
  rewrite insertBy_filter by assumption. simpl. now rewrite IH.
Qed.
End SortByKey.

Lemma isRecent_iff (since : Date) (userId : Z) (file : File) :
  isRecent since userId file = true
  <-> File.userId file = userId
      /\ (exists t, File.lastAccessedAt file = Some t /\ since <= t)
      /\ File.inTrash file <> Some true.
Proof.
  unfold isRecent, truthyb.
  rewrite !andb_true_iff, Z.eqb_eq, negb_true_iff.
  destruct (File.lastAccessedAt file) as [t|].
  - rewrite Z.leb_le. split.
    + intros [[Hu Ht] Hb]. repeat split; eauto.
      destruct (File.inTrash file) as [[]|]; congruence.
    + intros (Hu & (t' & [= <-] & Ht) & Hb). repeat split; auto.
      destruct (File.inTrash file) as [[]|]; congruence.
  - split.
    + intros [[_ ?] _]. discriminate.
    + intros (_ & (t & ? & _) & _). discriminate.
Qed.

(** The date that [setDate] yields is thirty times 24 hours before the
    call, moved by the change of the offset of the zone between the two
    ends. *)
Lemma thirtyDaysAgo_offsets (LocalTZA : Date -> bool -> Z) (now : Date) :
  thirtyDaysAgo LocalTZA now
  = now - 30 * 86400000
    + (LocalTZA now true
       - LocalTZA (now + LocalTZA now true - 30 * 86400000) false).
Proof. unfold thirtyDaysAgo, UTC, LocalTime, MS_PER_DAY. lia. Qed.

Lemma thirtyDaysAgo_fixedZone (offset : Z) (now : Date) :
  thirtyDaysAgo (fixedZone offset) now = now - 30 * 86400000.
Proof. rewrite thirtyDaysAgo_offsets. unfold fixedZone. lia. Qed.

Lemma withUrl_file (l : list File) : map fwp_file (map withUrl l) = l.
Proof. rewrite map_map. simpl. apply map_id. Qed.

Lemma recent_files_perm (LocalTZA : Date -> bool -> Z) (now : Date)
      (st : Store) (userId : Z) :
  Permutation (map fwp_file (getRecentFiles LocalTZA now st userId))
              (filter (isRecent (thirtyDaysAgo LocalTZA now) userId)
                      (JsMap.values (files st))).
Proof. unfold getRecentFiles. rewrite withUrl_file. apply sortBy_perm. Qed.

Lemma recent_files_members (LocalTZA : Date -> bool -> Z) (now : Date)
      (st : Store) (userId : Z) (file : File) :
  In file (map fwp_file (getRecentFiles LocalTZA now st userId))
  <-> In file (JsMap.values (files st))
      /\ File.userId file = userId
      /\ (exists t, File.lastAccessedAt file = Some t
                    /\ thirtyDaysAgo LocalTZA now <= t)
      /\ File.inTrash file <> Some true.
Proof.
  pose proof (recent_files_perm LocalTZA now st userId) as Hperm. split.
  - intros Hin. apply (Permutation_in _ Hperm) in Hin.
    apply filter_In in Hin as [Hin Hrec]. apply isRecent_iff in Hrec. tauto.
  - intros (Hin & Hrec). apply (Permutation_in _ (Permutation_sym Hperm)).
    apply filter_In. split; auto. now apply isRecent_iff.
Qed.




(** Where the clocks were set back by an hour within the thirty days, the
    view reaches an hour further back than thirty times 24 hours: forty
    days after the epoch, with the clocks set back on day twenty, it has
    the file accessed thirty days and half an hour before; in a zone
    without a change it does not. *)
Example recent_files_across_offset_change :
  let now := 40 * 86400000 in
  getFile oldAccessStore 1
  = option_map fwp_file
      (hd_error (getRecentFiles (zoneSetBackAt (20 * 86400000)) now
                                oldAccessStore 1))
  /\ option_map File.lastAccessedAt (getFile oldAccessStore 1)
     = Some (Some (now - 30 * 86400000 - 1800000))
  /\ getRecentFiles (fixedZone 0) now oldAccessStore 1 = [].
Proof. repeat split. Qed.

(** When no stored timestamp lies after the clock reading of the call, the
    files of the view are those accessed between the date that [setDate]
    yields and the call; in a zone whose offset does not change, these are
    the thirty days of 24 hours up to the call. *)
Corollary recent_files_window (LocalTZA : Date -> bool -> Z) (now : Date)
          (st : Store) (userId : Z) :
  (forall file t, In file (JsMap.values (files st)) ->
                  File.lastAccessedAt file = Some t -> t <= now) ->
  forall entry, In entry (getRecentFiles LocalTZA now st userId) ->
  exists t, File.lastAccessedAt (fwp_file entry) = Some t
            /\ thirtyDaysAgo LocalTZA now <= t <= now
            /\ ((forall d atUTC, LocalTZA d atUTC = LocalTZA now true) ->
                now - 30 * 86400000 <= t).
Proof.
  intros Hpast entry Hin.
  assert (Hfile : In (fwp_file entry)
                     (map fwp_file (getRecentFiles LocalTZA now st userId)))
    by now apply in_map.
  apply recent_files_members in Hfile as (Hstored & _ & (t & Ht & Hlo) & _).
  exists t. split; auto. split; [split; auto; eapply Hpast; eauto|].
  intros Hfixed. rewrite thirtyDaysAgo_offsets in Hlo.
  rewrite (Hfixed (now + LocalTZA now true - 30 * 86400000) false) in Hlo.
  lia.
Qed.

(** The view at time 900 of the sample store: the file touched at 850 comes
    before the file touched at 800. *)
Example recent_files_sample :
  map (fun entry => (File.id (fwp_file entry), url entry))
      (getRecentFiles (fixedZone 0) 900 recentStore 1)
  = [(2, Some "/api/files/2/download"%string);
     (1, Some "/api/files/1/download"%string)].
Proof. reflexivity. Qed.

(** ** Storage accounting *)

Lemma sizeOfFiles_app (u : Z) (l1 l2 : list File) :
  sizeOfFiles u (l1 ++ l2) = sizeOfFiles u l1 + sizeOfFiles u l2.
Proof.
  unfold sizeOfFiles. induction l1 as [|f l1 IH]; simpl; auto.
  destruct (File.userId f =? u); simpl; lia.
Qed.

Lemma sizeOfFiles_cons (u : Z) (f : File) (l : list File) :
  sizeOfFiles u (f :: l)
  = (if File.userId f =? u then File.size f else 0) + sizeOfFiles u l.
Proof. unfold sizeOfFiles. simpl. now destruct (File.userId f =? u). Qed.

Lemma sizeOfFiles_bound (u : Z) (l : list File) :
  (forall f, In f l -> 0 <= File.size f) ->
  0 <= sizeOfFiles u l
  /\ forall f, In f l -> File.userId f = u -> File.size f <= sizeOfFiles u l.
Proof.
  induction l as [|g l IH]; intros Hpos.
  - split; [reflexivity | intros f []].
  - rewrite sizeOfFiles_cons.
    assert (Hg : 0 <= File.size g) by (apply Hpos; now left).
    destruct IH as [H0 Hle]; [intros f Hf; apply Hpos; now right|].
    split.
    + destruct (File.userId g =? u); lia.
    + intros f [->|Hf] Hu.
      * apply Z.eqb_eq in Hu. rewrite Hu. lia.
      * specialize (Hle f Hf Hu). destruct (File.userId g =? u); lia.
Qed.

Lemma sizeOfFiles_delete (u k : Z) (f : File) (m : JsMap.t File) :
  JsMap.wf m -> JsMap.get k m = Some f ->
  sizeOfFiles u (JsMap.values (JsMap.delete k m))
  = sizeOfFiles u (JsMap.values m)
    - (if File.userId f =? u then File.size f else 0).
Proof.
  unfold JsMap.wf. induction m as [|[k' g] m IH]; simpl; [discriminate|].
  intros Hnd Hget. inversion Hnd as [|? ? Hnotin Hnd']; subst.
  destruct (k =? k') eqn:E.
  - apply Z.eqb_eq in E. subst k'. injection Hget as ->.
    rewrite Z.eqb_refl. simpl.
    rewrite JsMapFacts.delete_absent
      by now apply JsMapFacts.get_none_keys.
    rewrite sizeOfFiles_cons. lia.
  - rewrite Z.eqb_sym, E. simpl. rewrite !sizeOfFiles_cons.
    rewrite (IH Hnd' Hget). lia.
Qed.

(** What [createFile] leaves in the maps. *)
Lemma createFile_files (now : Date) (st : Store) (file : InsertFile) :
  files (snd (createFile now st file))
  = JsMap.set (currentFileId st) (fst (createFile now st file)) (files st)
  /\ currentFileId (snd (createFile now st file)) = currentFileId st + 1
  /\ File.size (fst (createFile now st file)) = if_size file
  /\ File.userId (fst (createFile now st file)) = if_userId file.
Proof. repeat split. Qed.

Lemma createFile_user (now : Date) (st : Store) (file : InsertFile) (k : Z) :
  keyed User.id (users st) ->
  getUser (snd (createFile now st file)) k
  = match getUser st k with
    | Some user =>
        if k =? if_userId file
        then Some (User.with_storageUsed
                     user (User.storageUsed user + if_size file))
        else Some user
    | None => None
    end.
Proof.
  intros Hkeyed. unfold getUser, createFile. simpl.
  destruct (JsMap.get (if_userId file) (users st)) as [owner|] eqn:Ho.
  - simpl. rewrite (Hkeyed _ _ Ho).
    destruct (Z.eq_dec k (if_userId file)) as [->|Hne].
    + rewrite JsMapFacts.get_set_same, Ho, Z.eqb_refl. reflexivity.
    + rewrite !JsMapFacts.get_set_other by assumption.
      apply Z.eqb_neq in Hne. rewrite Hne.
      now destruct (JsMap.get k (users st)).
  - destruct (Z.eq_dec k (if_userId file)) as [->|Hne].
    + now rewrite Ho.
    + apply Z.eqb_neq in Hne. rewrite Hne.
      now destruct (JsMap.get k (users st)).
Qed.

(** What [deleteFile] leaves in the maps when the file is stored. *)
Lemma deleteFile_files (st : Store) (id : Z) (file : File) :
  getFile st id = Some file ->
  files (snd (deleteFile st id)) = JsMap.delete id (files st)
  /\ currentFileId (snd (deleteFile st id)) = currentFileId st.
Proof.
  unfold getFile, deleteFile. intros ->. simpl.
  unfold updateUserStorageUsed.
  now destruct (JsMap.get (File.userId file) (users st)).
Qed.

Lemma deleteFile_user (st : Store) (id : Z) (file : File) (k : Z) :
  getFile st id = Some file ->
  getUser (snd (deleteFile st id)) k
  = match getUser st k with
    | Some user =>
        if k =? File.userId file
        then Some (User.with_storageUsed
                     user
                     (Z.max 0 (User.storageUsed user - File.size file)))
        else Some user
    | None => None
    end.
Proof.
  unfold getFile, getUser, deleteFile. intros ->. simpl.
  unfold updateUserStorageUsed.
  destruct (JsMap.get (File.userId file) (users st)) as [owner|] eqn:Ho;
    simpl.
  - destruct (Z.eq_dec k (File.userId file)) as [->|Hne].
    + rewrite JsMapFacts.get_set_same, Ho, Z.eqb_refl. do 2 f_equal.
      destruct (User.storageUsed owner + - File.size file <? 0) eqn:E;
        [apply Z.ltb_lt in E | apply Z.ltb_ge in E]; lia.
    + rewrite JsMapFacts.get_set_other by assumption.
      apply Z.eqb_neq in Hne. rewrite Hne.
      now destruct (JsMap.get k (users st)).
  - destruct (Z.eq_dec k (File.userId file)) as [->|Hne].
    + now rewrite Ho.
    + apply Z.eqb_neq in Hne. rewrite Hne.
      now destruct (JsMap.get k (users st)).
Qed.

Lemma keyed_storageUsed (st : Store) (k : Z) (user : User) (n : Z) :
  keyed User.id (users st) -> getUser st k = Some user ->
  keyed User.id (JsMap.set k (User.with_storageUsed user n) (users st)).
Proof.
  intros Hkeyed Hget k' v Hv.
  destruct (Z.eq_dec k' k) as [->|Hne].
  - rewrite JsMapFacts.get_set_same in Hv. injection Hv as <-.
    simpl. now apply Hkeyed.
  - rewrite JsMapFacts.get_set_other in Hv by assumption. now apply Hkeyed.
Qed.

Lemma storedSize_createFile (now : Date) (st : Store) (file : InsertFile)
      (u : Z) :
  below (currentFileId st) (files st) ->
  storedSize (snd (createFile now st file)) u
  = storedSize st u + (if if_userId file =? u then if_size file else 0).
Proof.
  intros Hbelow. unfold storedSize.
  destruct (createFile_files now st file) as (-> & _ & _ & _).
  rewrite JsMapFacts.keys_set_fresh by now apply below_fresh.
  unfold JsMap.values. rewrite map_app, sizeOfFiles_app. simpl.
  rewrite sizeOfFiles_cons. simpl. unfold sizeOfFiles. simpl. lia.
Qed.

Lemma storedSize_deleteFile (st : Store) (id : Z) (file : File) (u : Z) :
  JsMap.wf (files st) -> getFile st id = Some file ->
  storedSize (snd (deleteFile st id)) u
  = storedSize st u - (if File.userId file =? u then File.size file else 0).
Proof.
  intros Hwf Hget. unfold storedSize.
  destruct (deleteFile_files st id file Hget) as [-> _].
  now apply sizeOfFiles_delete.
Qed.

Lemma accounting_ok_createFile (now : Date) (st : Store) (file : InsertFile) :
  accounting_ok st -> 0 <= if_size file ->
  accounting_ok (snd (createFile now st file)).
Proof.
  intros [Hu Hfresh Hwf Hsizes] Hpos.
  destruct (createFile_files now st file) as (Hfiles & Hnext & Hsize & _).
  constructor.
  - intros k v Hv. change (getUser (snd (createFile now st file)) k = Some v) in Hv.
    rewrite createFile_user in Hv by assumption. unfold getUser in Hv.
    destruct (JsMap.get k (users st)) as [user|] eqn:Hk; [|discriminate].
    specialize (Hu _ _ Hk).
    destruct (k =? if_userId file); injection Hv as <-; auto.
  - rewrite Hfiles, Hnext. now apply below_set.
  - rewrite Hfiles. now apply JsMapFacts.wf_set.
  - rewrite Hfiles. intros f Hf.
    apply JsMapFacts.values_set_inv in Hf as [->|Hf];
      [now rewrite Hsize | auto].
Qed.

Lemma accounting_ok_deleteFile (st : Store) (id : Z) :
  accounting_ok st -> accounting_ok (snd (deleteFile st id)).
Proof.
  intros Hok. destruct (getFile st id) as [file|] eqn:Hget.
  - destruct Hok as [Hu Hfresh Hwf Hsizes].
    destruct (deleteFile_files st id file Hget) as [Hfiles Hnext].
    constructor.
    + intros k v Hv. change (getUser (snd (deleteFile st id)) k = Some v) in Hv.
      rewrite (deleteFile_user st id file k Hget) in Hv. unfold getUser in Hv.
      destruct (JsMap.get k (users st)) as [user|] eqn:Hk; [|discriminate].
      specialize (Hu _ _ Hk).
      destruct (k =? File.userId file); injection Hv as <-; auto.
    + rewrite Hfiles, Hnext. now apply below_delete.
    + rewrite Hfiles. now apply JsMapFacts.wf_delete.
    + rewrite Hfiles. intros f Hf. apply Hsizes.
      now apply JsMapFacts.values_delete_incl in Hf.
  - unfold getFile in Hget. unfold deleteFile. now rewrite Hget.
Qed.

Lemma accounted_createFile (now : Date) (st : Store) (file : InsertFile)
      (u : Z) :
  accounting_ok st -> accounted st u ->
  accounted (snd (createFile now st file)) u.
Proof.
  intros [Hu Hfresh _ _] (user & Hget & Hused). unfold accounted.
  rewrite createFile_user, Hget, storedSize_createFile by assumption.
  rewrite (Z.eqb_sym u).
  destruct (if_userId file =? u); eexists; (split; [reflexivity|]); simpl; lia.
Qed.

Lemma accounted_deleteFile (st : Store) (id : Z) (u : Z) :
  accounting_ok st -> accounted st u ->
  accounted (snd (deleteFile st id)) u.
Proof.
  intros [Hu Hfresh Hwf Hsizes] (user & Hget & Hused).
  destruct (getFile st id) as [file|] eqn:Hfile.
  - unfold accounted.
    rewrite (deleteFile_user st id file u Hfile), Hget.
    rewrite (storedSize_deleteFile st id file u Hwf Hfile).
    rewrite (Z.eqb_sym u).
    destruct (File.userId file =? u) eqn:E;
      eexists; (split; [reflexivity|]); simpl; [|lia].
    apply Z.eqb_eq in E.
    destruct (sizeOfFiles_bound u (JsMap.values (files st)) Hsizes) as [_ Hle].
    specialize (Hle file (JsMapFacts.get_some_values _ _ Hfile) E).
    unfold storedSize in *. lia.
  - unfold getFile in Hfile. unfold deleteFile. rewrite Hfile.
    exists user. auto.
Qed.

Lemma run_preserves (ops : list FileOp) (st : Store) (u : Z) :
  accounting_ok st -> accounted st u -> Forall nonnegative ops ->
  accounting_ok (run ops st) /\ accounted (run ops st) u.
Proof.
  revert st. induction ops as [|op ops IH]; intros st Hok Hacc Hpos; simpl.
  - auto.
  - inversion Hpos as [|? ? Hop Hrest]; subst.
    destruct op as [now file|id]; simpl in *; apply IH; auto.
    + now apply accounting_ok_createFile.
    + now apply accounted_createFile.
    + now apply accounting_ok_deleteFile.
    + now apply accounted_deleteFile.
Qed.

(** C2.  Take a store in which users are stored under their ids, file ids
    come from the counter and no file has a negative size, and a user [u] of
    it whose [storageUsed] is the total size of [u]'s files.  After every
    sequence of [createFile] and [deleteFile] calls with non-negative sizes
    (for any users and ids) the same holds again.  In such a store a
    [createFile] for [u] adds exactly the file's size to [u]'s
    [storageUsed], and a [deleteFile] of a stored file of [u] takes exactly
    that file's size off it. *)
Theorem storage_used_is_total_size (st : Store) (u : Z) :
  accounting_ok st ->
  accounted st u ->
  (forall ops, Forall nonnegative ops ->
               accounting_ok (run ops st) /\ accounted (run ops st) u)
  /\ (forall now file user,
         if_userId file = u -> getUser st u = Some user ->
         exists user',
           getUser (snd (createFile now st file)) u = Some user'
           /\ User.storageUsed user' = User.storageUsed user + if_size file)
  /\ (forall id file user,
         getFile st id = Some file -> File.userId file = u ->
         getUser st u = Some user ->
         exists user',
           getUser (snd (deleteFile st id)) u = Some user'
           /\ User.storageUsed user' = User.storageUsed user - File.size file).
Proof.
  intros Hok Hacc. split; [|split].
  - intros ops Hpos. now apply run_preserves.
  - intros now file user Hu Hget.
    rewrite createFile_user, Hget, Hu, Z.eqb_refl by apply Hok.
    eexists. split; reflexivity.
  - intros id file user Hfile Hu Hget.
    rewrite (deleteFile_user st id file u Hfile), Hget, Hu, Z.eqb_refl.
    eexists. split; [reflexivity|]. simpl.
    destruct Hacc as (user0 & Hget0 & Hused). rewrite Hget in Hget0.
    injection Hget0 as <-.
    destruct (sizeOfFiles_bound u (JsMap.values (files st)) (ok_sizes Hok))
      as [_ Hle].
    specialize (Hle file (JsMapFacts.get_some_values _ _ Hfile) Hu).
    unfold storedSize in Hused. lia.
Qed.

(** The store made by the constructor is one of these stores, and the demo
    user's counter is right in it. *)
Lemma constructor_accounting_ok (now : Date) :
  accounting_ok (constructor now) /\ accounted (constructor now) 1.
Proof.
  split.
  - constructor; simpl.
    + intros k v. simpl. destruct (k =? 1) eqn:E; [|discriminate].
      intros [= <-]. apply Z.eqb_eq in E. now subst.
    + intros k [].
    + constructor.
    + intros f [].
  - exists (demoUser now). split; reflexivity.
Qed.

Lemma storage_used_is_total_size_witness :
  accounted (run sampleOps (constructor 0)) 1
  /\ option_map User.storageUsed (getUser (run sampleOps (constructor 0)) 1)
     = Some 20.
Proof.
  destruct (constructor_accounting_ok 0) as [Hok Hacc].
  destruct (storage_used_is_total_size (constructor 0) 1 Hok Hacc)
    as (Hrun & _ & _).
  split; [|reflexivity].
  apply Hrun. repeat constructor; simpl; lia.
Defined.

(** ** Recursive folder deletion *)

Lemma is_id_true (x : option Z) (n : Z) : is_id x n = true <-> x = Some n.
Proof.
  destruct x as [y|]; simpl; [|split; discriminate].
  rewrite Z.eqb_eq. split; congruence.
Qed.

Lemma shrinks_refl (st : Store) : shrinks st st.
Proof. constructor; apply incl_refl. Qed.

Lemma shrinks_trans (a b c : Store) : shrinks a b -> shrinks b c -> shrinks a c.
Proof.
  intros [H1 H2 H3] [H4 H5 H6].
  constructor; eapply incl_tran; eauto.
Qed.

Lemma incl_values {V : Type} (m' m : JsMap.t V) :
  incl m' m -> incl (JsMap.values m') (JsMap.values m).
Proof.
  intros H v Hv. unfold JsMap.values in *.
  apply in_map_iff in Hv as (e & <- & He). apply in_map. auto.
Qed.

Lemma incl_delete {V : Type} (k : Z) (m : JsMap.t V) :
  incl (JsMap.delete k m) m.
Proof. intros e He. now apply JsMapFacts.In_delete in He. Qed.

Lemma deleteShares_incl (l : list Share) (m : JsMap.t Share) :
  incl (deleteShares l m) m.
Proof.
  revert m. induction l as [|share l IH]; intros m; simpl.
  - apply incl_refl.
  - eapply incl_tran; [apply IH | apply incl_delete].
Qed.

(** [deleteFile] only removes entries, and leaves the folders alone. *)
Lemma deleteFile_shrinks (st : Store) (id : Z) :
  shrinks st (snd (deleteFile st id))
  /\ folders (snd (deleteFile st id)) = folders st.
Proof.
  unfold deleteFile. destruct (JsMap.get id (files st)) as [file|]; simpl.
  - unfold updateUserStorageUsed.
    destruct (JsMap.get (File.userId file) (users st)); simpl;
      (split; [constructor; simpl|reflexivity]);
      try apply incl_refl; try apply incl_delete; apply deleteShares_incl.
  - split; [apply shrinks_refl | reflexivity].
Qed.

Lemma deleteFiles_shrinks (l : list File) (st : Store) :
  shrinks st (deleteFiles l st) /\ folders (deleteFiles l st) = folders st.
Proof.
  revert st. induction l as [|file l IH]; intros st; simpl.
  - split; [apply shrinks_refl | reflexivity].
  - destruct (deleteFile_shrinks st (File.id file)) as [Hs Hf].
    destruct (IH (snd (deleteFile st (File.id file)))) as [Hs' Hf'].
    split; [eapply shrinks_trans; eauto | congruence].
Qed.

(** The three phases of one call. *)
Lemma deleteFolder_S (fuel : nat) (st : Store) (id : Z) :
  deleteFolder (S fuel) st id
  = let st1 := deleteFiles (filesIn st id) st in
    match deleteSubfolders fuel (subfoldersOf st1 id) st1 with
    | None => None
    | Some st2 =>
        Some (JsMap.has id (folders st2),
              with_folders st2 (JsMap.delete id (folders st2)))
    end.
Proof. reflexivity. Qed.

Lemma deleteSubfolders_cons (fuel : nat) (sub : Folder) (l : list Folder)
      (st : Store) :
  deleteSubfolders fuel (sub :: l) st
  = match deleteFolder fuel st (Folder.id sub) with
    | Some (_, st') => deleteSubfolders fuel l st'
    | None => None
    end.
Proof.
  unfold deleteSubfolders. simpl.
  destruct (deleteFolder fuel st (Folder.id sub)) as [[b st']|]; auto.
  induction l as [|a l IH]; simpl; auto.
Qed.

(** A property of store pairs that every call has carries over to the loop. *)
Lemma deleteSubfolders_lift (P : Store -> Store -> Prop) (fuel : nat) :
  (forall s, P s s) ->
  (forall a b c, P a b -> P b c -> P a c) ->
  (forall s g b s', deleteFolder fuel s g = Some (b, s') -> P s s') ->
  forall l s s', deleteSubfolders fuel l s = Some s' -> P s s'.
Proof.
  intros Hrefl Htrans Hcall. induction l as [|sub l IH]; intros s s'.
  - intros [= <-]. apply Hrefl.
  - rewrite deleteSubfolders_cons.
    destruct (deleteFolder fuel s (Folder.id sub)) as [[b s1]|] eqn:E;
      [|discriminate].
    intros Hrest. eapply Htrans; [eapply Hcall; eauto | now apply IH].
Qed.

Lemma deleteFolder_shrinks (fuel : nat) :
  forall st id b st',
    deleteFolder fuel st id = Some (b, st') -> shrinks st st'.
Proof.
  induction fuel as [|fuel IH]; intros st id b st'; [discriminate|].
  rewrite deleteFolder_S. cbv zeta.
  destruct (deleteFiles_shrinks (filesIn st id) st) as [Hs1 _].
  destruct (deleteSubfolders fuel _ _) as [st2|] eqn:Hloop; [|discriminate].
  intros [= _ <-].
  assert (Hs2 : shrinks (deleteFiles (filesIn st id) st) st2).
  { eapply (deleteSubfolders_lift shrinks); eauto using shrinks_refl, shrinks_trans. }
  eapply shrinks_trans; [exact Hs1|].
  eapply shrinks_trans; [exact Hs2|].
  destruct Hs2. constructor; simpl; try apply incl_refl. apply incl_delete.
Qed.

(** *** Termination *)

Lemma shallower_shrinks (k : nat) (st st' : Store) (g : Z) :
  shrinks st st' -> shallower k st g -> shallower k st' g.
Proof.
  intros Hs. revert g. induction k as [|k IH]; intros g; simpl; auto.
  intros H sub Hin Hp. apply IH. apply H; auto.
  eapply incl_values; [apply (sh_folders Hs) | exact Hin].
Qed.

Lemma deleteSubfolders_enough_fuel (k : nat) :
  (forall st id, shallower k st id ->
                 exists b st', deleteFolder k st id = Some (b, st')) ->
  forall l st,
    (forall sub, In sub l -> shallower k st (Folder.id sub)) ->
    exists st', deleteSubfolders k l st = Some st'.
Proof.
  intros Hcall. induction l as [|sub l IH]; intros st Hall.
  - exists st. reflexivity.
  - rewrite deleteSubfolders_cons.
    destruct (Hcall st (Folder.id sub)) as (b & st1 & Hrun);
      [apply Hall; now left|].
    rewrite Hrun. apply IH. intros sub' Hin.
    apply (shallower_shrinks k st st1); [|apply Hall; now right].
    eapply deleteFolder_shrinks; eauto.
Qed.

Lemma deleteFolder_enough_fuel (k : nat) :
  forall st id, shallower k st id ->
                exists b st', deleteFolder k st id = Some (b, st').
Proof.
  induction k as [|k IH]; intros st id Hdepth; [destruct Hdepth|].
  rewrite deleteFolder_S. cbv zeta.
  destruct (deleteFiles_shrinks (filesIn st id) st) as [Hs1 Hf1].
  destruct (deleteSubfolders_enough_fuel k IH
              (subfoldersOf (deleteFiles (filesIn st id) st) id)
              (deleteFiles (filesIn st id) st)) as (st2 & ->).
  - intros sub Hin. apply filter_In in Hin as [Hin Hp].
    apply is_id_true in Hp.
    apply (shallower_shrinks k st _ _ Hs1).
    apply Hdepth; auto. now rewrite <- Hf1.
  - eauto.
Qed.

Lemma child_of_shrinks (st st' : Store) (p c : Z) :
  shrinks st st' -> child_of st' p c -> child_of st p c.
Proof.
  intros Hs (folder & Hin & Hp & Hc). exists folder. repeat split; auto.
  eapply incl_values; [apply (sh_folders Hs) | exact Hin].
Qed.

Lemma descendant_shrinks (st st' : Store) (a b : Z) :
  shrinks st st' ->
  clos_trans Z (child_of st') a b -> clos_trans Z (child_of st) a b.
Proof.
  intros Hs. induction 1 as [a b H|a b c _ IH1 _ IH2].
  - apply t_step. eapply child_of_shrinks; eauto.
  - eapply t_trans; eauto.
Qed.

(** In a store without cycles a chain of subfolders visits each folder id
    at most once, so it is no longer than the folders map. *)
Lemma acyclic_chain (st : Store) :
  acyclic st ->
  forall k g seen,
    NoDup seen ->
    incl seen (map Folder.id (JsMap.values (folders st))) ->
    (forall a, In a seen -> clos_refl_trans Z (child_of st) a g) ->
    (List.length (folders st) < List.length seen + k)%nat ->
    shallower k st g.
Proof.
  intros Hacyclic. induction k as [|k IH]; intros g seen Hnd Hincl Hreach Hlen.
  - apply NoDup_incl_length in Hincl; [|exact Hnd].
    unfold JsMap.values in Hincl. rewrite !length_map in Hincl. lia.
  - simpl. intros sub Hin Hp.
    assert (Hchild : child_of st g (Folder.id sub)) by (exists sub; auto).
    apply (IH _ (Folder.id sub :: seen)).
    + constructor; [|exact Hnd]. intros Hseen.
      apply (Hacyclic (Folder.id sub)).
      apply Operators_Properties.clos_rt_t with (y := g).
      * now apply Hreach.
      * now apply t_step.
    + intros a [<-|Ha]; [now apply in_map | now apply Hincl].
    + intros a [<-|Ha]; [apply rt_refl|].
      eapply rt_trans; [now apply Hreach | now apply rt_step].
    + simpl. lia.
Qed.

Lemma acyclic_shallower (st : Store) (g : Z) :
  acyclic st -> shallower (S (List.length (folders st))) st g.
Proof.
  intros Hacyclic. simpl. intros sub Hin Hp.
  apply (acyclic_chain st Hacyclic _ _ [Folder.id sub]).
  - repeat constructor. intros [].
  - intros a [<-|[]]. now apply in_map.
  - intros a [<-|[]]. apply rt_refl.
  - simpl. lia.
Qed.

(** *** Which folder keys a call touches *)

Lemma deleteSubfolders_touches_from (fuel : nat) :
  (forall st g b st',
      deleteFolder fuel st g = Some (b, st') ->
      forall key,
        JsMap.get key (folders st') = JsMap.get key (folders st)
        \/ key = g
        \/ clos_trans Z (child_of st) g key) ->
  forall st g l s s',
    (forall sub, In sub l -> child_of st g (Folder.id sub)) ->
    shrinks st s ->
    deleteSubfolders fuel l s = Some s' ->
    forall key,
      JsMap.get key (folders s') = JsMap.get key (folders s)
      \/ clos_trans Z (child_of st) g key.
Proof.
  intros Hcall st g.
  induction l as [|sub l IHl]; intros s s' Hsubs Hs.
  - intros [= <-] key. now left.
  - rewrite deleteSubfolders_cons.
    destruct (deleteFolder fuel s (Folder.id sub)) as [[b1 s1]|] eqn:Hrun;
      [|discriminate].
    intros Hrest key.
    assert (Hchild : child_of st g (Folder.id sub)) by (apply Hsubs; now left).
    assert (Hs1 : shrinks st s1).
    { eapply shrinks_trans; [exact Hs|].
      eapply deleteFolder_shrinks; eauto. }
    destruct (IHl s1 s' (fun x Hx => Hsubs x (or_intror Hx)) Hs1 Hrest key)
      as [Hsame|Hdesc]; [|now right].
    rewrite Hsame.
    destruct (Hcall _ _ _ _ Hrun key) as [Hsame1|[->|Hdesc1]].
    + now left.
    + right. now apply t_step.
    + right. eapply t_trans; [apply t_step; exact Hchild|].
      now apply (descendant_shrinks st s).
Qed.

Lemma subfoldersOf_children (st st1 : Store) (g : Z) :
  folders st1 = folders st ->
  forall sub, In sub (subfoldersOf st1 g) -> child_of st g (Folder.id sub).
Proof.
  intros Hf sub Hin. apply filter_In in Hin as [Hin Hp].
  apply is_id_true in Hp. exists sub. rewrite <- Hf. auto.
Qed.

(** A call changes the folders map only at its own id and at ids of
    descendants of that id. *)
Lemma deleteFolder_touches (fuel : nat) :
  forall st g b st',
    deleteFolder fuel st g = Some (b, st') ->
    forall key,
      JsMap.get key (folders st') = JsMap.get key (folders st)
      \/ key = g
      \/ clos_trans Z (child_of st) g key.
Proof.
  induction fuel as [|fuel IH]; intros st g b st'; [discriminate|].
  rewrite deleteFolder_S. cbv zeta.
  destruct (deleteFiles_shrinks (filesIn st g) st) as [Hs1 Hf1].
  set (st1 := deleteFiles (filesIn st g) st) in *.
  destruct (deleteSubfolders fuel (subfoldersOf st1 g) st1) as [st2|] eqn:Hrun;
    [|discriminate].
  intros [= _ <-] key. simpl.
  destruct (Z.eq_dec key g) as [->|Hne]; [right; now left|].
  rewrite JsMapFacts.get_delete_other by assumption.
  destruct (deleteSubfolders_touches_from fuel IH st g _ _ _
              (subfoldersOf_children st st1 g Hf1) Hs1 Hrun key)
    as [Hsame|Hdesc].
  - left. now rewrite Hsame, Hf1.
  - right. now right.
Qed.

(** *** More fuel changes nothing *)

Lemma deleteFolder_more_fuel (k : nat) :
  forall st id r,
    deleteFolder k st id = Some r ->
    forall k', (k <= k')%nat -> deleteFolder k' st id = Some r.
Proof.
  induction k as [|k IH]; intros st id r; [discriminate|].
  intros Hrun [|k'] Hle; [lia|]. revert Hrun.
  rewrite !deleteFolder_S. cbv zeta.
  assert (Hloop : forall l s s',
             deleteSubfolders k l s = Some s' ->
             deleteSubfolders k' l s = Some s').
  { induction l as [|sub l IHl]; intros s s'; [auto|].
    rewrite !deleteSubfolders_cons.
    destruct (deleteFolder k s (Folder.id sub)) as [[b s1]|] eqn:E;
      [|discriminate].
    rewrite (IH _ _ _ E k') by lia. apply IHl. }
  destruct (deleteSubfolders k _ _) as [st2|] eqn:E; [|discriminate].
  now rewrite (Hloop _ _ _ E).
Qed.

Lemma acyclic_by_rank (st : Store) :
  (forall p c, child_of st p c -> p < c) -> acyclic st.
Proof.
  intros Hrank g Hcycle.
  assert (Hlt : forall a b, clos_trans Z (child_of st) a b -> a < b).
  { induction 1 as [a b H|a b c _ IH1 _ IH2]; [auto | lia]. }
  specialize (Hlt _ _ Hcycle). lia.
Qed.

Lemma nestedStore_acyclic : acyclic nestedStore.
Proof.
  apply acyclic_by_rank. intros p c (folder & Hin & Hp & Hc).
  simpl in Hin. destruct Hin as [<-|[<-|[<-|[]]]]; simpl in *;
    try discriminate; injection Hp as <-; subst c; lia.
Qed.

(** The run on the sample store empties the folders and the files. *)
Example deleteFolder_nested_sample :
  option_map (fun result => (fst result, folders (snd result),
                             files (snd result)))
             (deleteFolder 4 nestedStore 1)
  = Some (true, [], []).
Proof. reflexivity. Qed.

(** On a store with a cycle the call need not return: on a folder that is
    its own parent no number of nested calls suffices. *)
Lemma deleteFolder_cycle_never_returns (fuel : nat) :
  deleteFolder fuel selfParentStore 1 = None.
Proof.
  induction fuel as [|fuel IH]; [reflexivity|].
  rewrite deleteFolder_S. cbv zeta.
  change (deleteFiles (filesIn selfParentStore 1) selfParentStore)
    with selfParentStore.
  change (subfoldersOf selfParentStore 1)
    with (JsMap.values (folders selfParentStore)).
  unfold selfParentStore at 1 2. simpl JsMap.values.
  rewrite deleteSubfolders_cons. simpl Folder.id.
  fold selfParentStore. now rewrite IH.
Qed.

(** *** What a deletion leaves behind *)

Lemma get_none_incl {V : Type} (k : Z) (m' m : JsMap.t V) :
  incl m' m -> JsMap.get k m = None -> JsMap.get k m' = None.
Proof.
  intros Hincl Hnone. apply JsMapFacts.get_none_keys.
  apply JsMapFacts.get_none_keys in Hnone. intros Hin. apply Hnone.
  unfold JsMap.keys in *. apply in_map_iff in Hin as (e & <- & He).
  apply in_map. auto.
Qed.

Lemma stored_entry {V : Type} (id : V -> Z) (m : JsMap.t V) (v : V) :
  JsMap.wf m -> keyed id m -> In v (JsMap.values m) ->
  JsMap.get (id v) m = Some v.
Proof.
  intros Hwf Hkeyed Hin. unfold JsMap.values in Hin.
  apply in_map_iff in Hin as ([k w] & Hw & He). simpl in Hw. subst w.
  pose proof (JsMapFacts.In_get k v Hwf He) as Hget.
  now rewrite (Hkeyed _ _ Hget).
Qed.

Lemma keyed_delete {V : Type} (id : V -> Z) (k : Z) (m : JsMap.t V) :
  keyed id m -> keyed id (JsMap.delete k m).
Proof.
  intros Hkeyed k' v Hget. apply Hkeyed.
  destruct (Z.eq_dec k' k) as [->|Hne].
  - now rewrite JsMapFacts.get_delete_same in Hget.
  - now rewrite JsMapFacts.get_delete_other in Hget.
Qed.

Lemma deleteShares_stored (l : list Share) (m : JsMap.t Share) :
  JsMap.wf m -> keyed Share.id m ->
  JsMap.wf (deleteShares l m) /\ keyed Share.id (deleteShares l m).
Proof.
  revert m. induction l as [|share l IH]; intros m Hwf Hkeyed; simpl; auto.
  apply IH; [now apply JsMapFacts.wf_delete | now apply keyed_delete].
Qed.

Lemma deleteShares_gone (l : list Share) :
  forall m share,
    In share l -> JsMap.get (Share.id share) (deleteShares l m) = None.
Proof.
  induction l as [|a l IH]; intros m share; simpl; [tauto|].
  intros [->|Hin]; [|now apply IH].
  apply (get_none_incl _ _ _ (deleteShares_incl l _)).
  apply JsMapFacts.get_delete_same.
Qed.

Lemma cleans_refl (st : Store) : cleans st st.
Proof.
  intros Hst. split; [exact Hst|]. split; [apply shrinks_refl|].
  constructor; intros key Hsome Hnone; contradiction.
Qed.

Lemma cleans_trans (a b c : Store) : cleans a b -> cleans b c -> cleans a c.
Proof.
  intros Hab Hbc Ha.
  destruct (Hab Ha) as (Hb & Hsab & [Hab1 Hab2 Hab3]).
  destruct (Hbc Hb) as (Hc & Hsbc & [Hbc1 Hbc2 Hbc3]).
  split; [exact Hc|]. split; [eapply shrinks_trans; eauto|].
  constructor; intros key Hsome Hnone x Hx.
  - destruct (JsMap.get key (folders b)) eqn:E.
    + apply Hbc1; auto. congruence.
    + apply Hab1; auto.
      eapply incl_values; [apply (sh_files Hsbc) | exact Hx].
  - destruct (JsMap.get key (folders b)) eqn:E.
    + apply Hbc2; auto. congruence.
    + apply Hab2; auto.
      eapply incl_values; [apply (sh_folders Hsbc) | exact Hx].
  - destruct (JsMap.get key (files b)) eqn:E.
    + apply Hbc3; auto. congruence.
    + apply Hab3; auto.
      eapply incl_values; [apply (sh_shares Hsbc) | exact Hx].
Qed.

(** [deleteFile] takes the file's shares with it. *)
Lemma deleteFile_cleans (st : Store) (id : Z) :
  cleans st (snd (deleteFile st id))
  /\ JsMap.get id (files (snd (deleteFile st id))) = None.
Proof.
  destruct (deleteFile_shrinks st id) as [Hshrinks Hfolders].
  destruct (JsMap.get id (files st)) as [file|] eqn:Hfile.
  - assert (Hmaps :
              files (snd (deleteFile st id)) = JsMap.delete id (files st)
              /\ shares (snd (deleteFile st id))
                 = deleteShares
                     (filter (fun share => is_id (Share.fileId share) id)
                             (JsMap.values (shares st)))
                     (shares st)).
    { unfold deleteFile. rewrite Hfile. simpl. unfold updateUserStorageUsed.
      now destruct (JsMap.get (File.userId file) (users st)). }
    destruct Hmaps as [Hfiles Hshares].
    split; [|rewrite Hfiles; apply JsMapFacts.get_delete_same].
    intros [Hfow Hfok Hfiw Hfik Hshw Hshk].
    destruct (deleteShares_stored
                (filter (fun share => is_id (Share.fileId share) id)
                        (JsMap.values (shares st)))
                (shares st) Hshw Hshk) as [Hshw' Hshk'].
    split; [|split; [exact Hshrinks|]].
    + constructor; rewrite ?Hfolders, ?Hfiles, ?Hshares; auto.
      * now apply JsMapFacts.wf_delete.
      * now apply keyed_delete.
    + constructor; rewrite ?Hfolders; intros key Hsome Hnone;
        [contradiction | contradiction |].
      rewrite Hfiles in Hnone. rewrite Hshares.
      intros share Hin Hfid.
      destruct (Z.eq_dec key id) as [->|Hne];
        [|rewrite JsMapFacts.get_delete_other in Hnone by assumption;
          contradiction].
      pose proof (stored_entry Share.id _ share Hshw' Hshk' Hin) as Hget.
      rewrite deleteShares_gone in Hget; [discriminate|].
      apply filter_In. split.
      * eapply incl_values; [apply deleteShares_incl | exact Hin].
      * now apply is_id_true.
  - unfold deleteFile. rewrite Hfile. simpl. split; [apply cleans_refl | auto].
Qed.

Lemma deleteFiles_cleans (l : list File) :
  forall st,
    cleans st (deleteFiles l st)
    /\ forall file, In file l ->
                    JsMap.get (File.id file) (files (deleteFiles l st)) = None.
Proof.
  induction l as [|a l IH]; intros st; simpl.
  - split; [apply cleans_refl | tauto].
  - destruct (deleteFile_cleans st (File.id a)) as [Hc Hgone].
    destruct (IH (snd (deleteFile st (File.id a)))) as [Hc' Hgone'].
    split; [eapply cleans_trans; eauto|].
    intros file [<-|Hin]; [|now apply Hgone'].
    destruct (deleteFiles_shrinks l (snd (deleteFile st (File.id a))))
      as [Hs _].
    apply (get_none_incl _ _ _ (sh_files Hs) Hgone).
Qed.

(** After the file phase no file of the folder is left. *)
Lemma deleteFiles_empties (st : Store) (id : Z) :
  stored_by_id st ->
  forall file, In file (JsMap.values (files (deleteFiles (filesIn st id) st))) ->
               File.folderId file <> Some id.
Proof.
  intros Hst file Hin Hfid.
  destruct (deleteFiles_cleans (filesIn st id) st) as [Hc Hgone].
  destruct (Hc Hst) as (Hst1 & Hs & _).
  pose proof (stored_entry File.id _ file (sbi_files_wf Hst1)
                           (sbi_files Hst1) Hin) as Hget.
  rewrite Hgone in Hget; [discriminate|].
  apply filter_In. split.
  - eapply incl_values; [apply (sh_files Hs) | exact Hin].
  - now apply is_id_true.
Qed.

Lemma deleteFolder_gone (fuel : nat) (st : Store) (id : Z) (b : bool)
      (st' : Store) :
  deleteFolder fuel st id = Some (b, st') ->
  JsMap.get id (folders st') = None.
Proof.
  destruct fuel as [|fuel]; [discriminate|].
  rewrite deleteFolder_S. cbv zeta.
  destruct (deleteSubfolders fuel _ _) as [st2|]; [|discriminate].
  intros [= _ <-]. apply JsMapFacts.get_delete_same.
Qed.

Lemma deleteSubfolders_shrinks (fuel : nat) (l : list Folder) (s s' : Store) :
  deleteSubfolders fuel l s = Some s' -> shrinks s s'.
Proof.
  apply (deleteSubfolders_lift shrinks);
    eauto using shrinks_refl, shrinks_trans, deleteFolder_shrinks.
Qed.

Lemma deleteSubfolders_gone (fuel : nat) (l : list Folder) :
  forall s s',
    deleteSubfolders fuel l s = Some s' ->
    forall sub, In sub l -> JsMap.get (Folder.id sub) (folders s') = None.
Proof.
  induction l as [|a l IH]; intros s s'; [intros _ sub []|].
  rewrite deleteSubfolders_cons.
  destruct (deleteFolder fuel s (Folder.id a)) as [[b s1]|] eqn:Hcall;
    [|discriminate].
  intros Hrest sub [<-|Hin]; [|eapply IH; eauto].
  apply deleteFolder_gone in Hcall.
  apply deleteSubfolders_shrinks in Hrest.
  apply (get_none_incl _ _ _ (sh_folders Hrest) Hcall).
Qed.

(** A call that returns leaves no file and no subfolder of its folder, and
    no orphan of anything it removed. *)
Lemma deleteFolder_cleans (fuel : nat) :
  forall st id b st',
    deleteFolder fuel st id = Some (b, st') ->
    cleans st st'
    /\ (stored_by_id st ->
        (forall file, In file (JsMap.values (files st')) ->
                      File.folderId file <> Some id)
        /\ (forall folder, In folder (JsMap.values (folders st')) ->
                           Folder.parentId folder <> Some id)).
Proof.
  induction fuel as [|fuel IH]; intros st id b st'; [discriminate|].
  rewrite deleteFolder_S. cbv zeta.
  destruct (deleteFiles_shrinks (filesIn st id) st) as [_ Hf1].
  destruct (deleteFiles_cleans (filesIn st id) st) as [Hc1 _].
  pose proof (deleteFiles_empties st id) as Hempty.
  set (st1 := deleteFiles (filesIn st id) st) in *.
  destruct (deleteSubfolders fuel (subfoldersOf st1 id) st1) as [st2|] eqn:Hloop;
    [|discriminate].
  intros [= _ <-].
  assert (Hc12 : cleans st1 st2).
  { apply (deleteSubfolders_lift cleans fuel cleans_refl cleans_trans)
      with (l := subfoldersOf st1 id); [|exact Hloop].
    intros s g b' s' Hcall. now apply (IH _ _ _ _ Hcall). }
  assert (Hmain :
            stored_by_id st ->
            (stored_by_id (with_folders st2 (JsMap.delete id (folders st2)))
             /\ shrinks st (with_folders st2 (JsMap.delete id (folders st2)))
             /\ no_orphans st (with_folders st2 (JsMap.delete id (folders st2))))
            /\ (forall file, In file (JsMap.values (files st2)) ->
                             File.folderId file <> Some id)
            /\ (forall folder, In folder (JsMap.values (folders st2)) ->
                               Folder.parentId folder <> Some id)).
  { intros Hst.
    destruct (Hc1 Hst) as (Hst1 & Hs1 & _).
    destruct (Hc12 Hst1) as (Hst2 & Hs12 & _).
    destruct (cleans_trans _ _ _ Hc1 Hc12 Hst) as (_ & Hs02 & [Ho1 Ho2 Ho3]).
    assert (HA : forall file, In file (JsMap.values (files st2)) ->
                              File.folderId file <> Some id).
    { intros file Hin. apply Hempty; auto.
      eapply incl_values; [apply (sh_files Hs12) | exact Hin]. }
    assert (HB : forall folder, In folder (JsMap.values (folders st2)) ->
                                Folder.parentId folder <> Some id).
    { intros folder Hin Hp.
      pose proof (stored_entry Folder.id _ folder (sbi_folders_wf Hst2)
                               (sbi_folders Hst2) Hin) as Hget.
      rewrite (deleteSubfolders_gone fuel _ _ _ Hloop) in Hget;
        [discriminate|].
      apply filter_In. split.
      - eapply incl_values; [apply (sh_folders Hs12) | exact Hin].
      - now apply is_id_true. }
    split; [|split; assumption].
    split; [|split].
    - destruct Hst2. constructor; simpl; auto.
      + now apply JsMapFacts.wf_delete.
      + now apply keyed_delete.
    - eapply shrinks_trans; [exact Hs02|].
      constructor; simpl; try apply incl_refl. apply incl_delete.
    - constructor; simpl; intros key Hsome Hnone x Hx.
      + destruct (Z.eq_dec key id) as [->|Hne]; [now apply HA|].
        rewrite JsMapFacts.get_delete_other in Hnone by assumption.
        now apply (Ho1 key).
      + apply JsMapFacts.values_delete_incl in Hx.
        destruct (Z.eq_dec key id) as [->|Hne]; [now apply HB|].
        rewrite JsMapFacts.get_delete_other in Hnone by assumption.
        now apply (Ho2 key).
      + now apply (Ho3 key). }
  split.
  - intros Hst. now apply Hmain.
  - intros Hst. destruct (Hmain Hst) as (_ & HA & HB). split; [exact HA|].
    intros folder Hin. apply HB.
    now apply JsMapFacts.values_delete_incl in Hin.
Qed.

(** What [deleteFolder] does remove.  In a store whose records are stored
    under their ids, when [deleteFolder(id)] returns the folder is gone, no
    file is left in it or in any other folder that went away, no folder is
    left whose parent is it or any other folder that went away, and no
    share is left of a file that went away. *)
Theorem deleteFolder_removes_contents
        (fuel : nat) (st : Store) (id : Z) (b : bool) (st' : Store) :
  stored_by_id st ->
  deleteFolder fuel st id = Some (b, st') ->
  getFolder st' id = None
  /\ (forall file, In file (JsMap.values (files st')) ->
                   File.folderId file <> Some id)
  /\ (forall folder, In folder (JsMap.values (folders st')) ->
                     Folder.parentId folder <> Some id)
  /\ no_orphans st st'.
Proof.
  intros Hst Hrun.
  destruct (deleteFolder_cleans fuel st id b st' Hrun) as [Hc Hown].
  destruct (Hc Hst) as (_ & _ & Ho). destruct (Hown Hst) as [HA HB].
  split; [eapply deleteFolder_gone; eauto|]. auto.
Qed.

(** C1, on the code.  Deleting folder 1 of the sample store, which holds
    folder 2, which holds folder 3 and a file, returns [true] and removes
    the three folders and the file, but the share of folder 1 is still in
    the shares map: [deleteFolder] never looks at the shares of a folder. *)
Theorem deleteFolder_leaves_folder_share :
  exists st',
    deleteFolder 4 nestedStore 1 = Some (true, st')
    /\ getFolder nestedStore 1 <> None
    /\ getFolder st' 1 = None
    /\ folders st' = []
    /\ files st' = []
    /\ (exists share, In share (JsMap.values (shares st'))
                      /\ Share.folderId share = Some 1)
    /\ ~ no_shares_of_folder nestedStore st'.
Proof.
  eexists. split; [vm_compute; reflexivity|].
  split; [discriminate|]. split; [reflexivity|].
  split; [reflexivity|]. split; [reflexivity|].
  split.
  - eexists. split; [left; reflexivity | reflexivity].
  - intros Hno.
    apply (Hno 1 ltac:(discriminate) eq_refl
               (Share.mk 1 None (Some 1) 1 "public" (Some true) None "beef"
                         (Some 150)));
      [left; reflexivity | reflexivity].
Qed.

(** ** The views of files *)

Lemma truthyb_trashed (x : option bool) :
  x = Some true -> negb (truthyb x) = false.
Proof. now intros ->. Qed.

Lemma getFilesByUserId_members (st : Store) (u : Z) (folderId : option (option Z))
      (entry : FileWithPath) :
  In entry (getFilesByUserId st u folderId)
  <-> exists file,
        entry = withUrl file
        /\ In file (JsMap.values (files st))
        /\ File.userId file = u
        /\ (forall p, folderId = Some p -> File.folderId file = p).
Proof.
  unfold getFilesByUserId. rewrite in_map_iff. split.
  - intros (file & <- & Hin). apply filter_In in Hin as [Hin Hc].
    apply andb_true_iff in Hc as [Hu Hp]. apply Z.eqb_eq in Hu.
    exists file. repeat split; auto.
    intros p ->. now apply same_parent_eq.
  - intros (file & -> & Hin & Hu & Hp). exists file. split; auto.
    apply filter_In. split; auto. apply andb_true_iff. split.
    + now apply Z.eqb_eq.
    + destruct folderId as [p|]; auto. apply same_parent_eq. now apply Hp.
Qed.

Lemma getStarredFiles_members (st : Store) (u : Z) (entry : FileWithPath) :
  In entry (getStarredFiles st u)
  <-> exists file,
        entry = withUrl file
        /\ In file (JsMap.values (files st))
        /\ File.userId file = u
        /\ File.starred file = Some true
        /\ File.inTrash file <> Some true.
Proof.
  unfold getStarredFiles. rewrite in_map_iff. split.
  - intros (file & <- & Hin). apply filter_In in Hin as [Hin Hc].
    apply andb_true_iff in Hc as [Hc Ht].
    apply andb_true_iff in Hc as [Hu Hs]. apply Z.eqb_eq in Hu.
    exists file. repeat split; auto.
    + destruct (File.starred file) as [[]|]; congruence.
    + intros Htr. rewrite (truthyb_trashed _ Htr) in Ht. discriminate.
  - intros (file & -> & Hin & Hu & Hs & Ht). exists file. split; auto.
    apply filter_In. split; auto. rewrite Hs.
    apply Z.eqb_eq in Hu. rewrite Hu. simpl.
    destruct (File.inTrash file) as [[]|]; simpl; congruence.
Qed.

Lemma getTrashedFiles_members (st : Store) (u : Z) (entry : FileWithPath) :
  In entry (getTrashedFiles st u)
  <-> exists file,
        entry = withUrl file
        /\ In file (JsMap.values (files st))
        /\ File.userId file = u
        /\ File.inTrash file = Some true.
Proof.
  unfold getTrashedFiles. rewrite in_map_iff. split.
  - intros (file & <- & Hin). apply filter_In in Hin as [Hin Hc].
    apply andb_true_iff in Hc as [Hu Ht]. apply Z.eqb_eq in Hu.
    exists file. repeat split; auto.
    destruct (File.inTrash file) as [[]|]; congruence.
  - intros (file & -> & Hin & Hu & Ht). exists file. split; auto.
    apply filter_In. split; auto. rewrite Ht.
    apply Z.eqb_eq in Hu. now rewrite Hu.
Qed.

Lemma includes_iff (ids : list (option Z)) (id : Z) :
  includes ids id = true <-> In (Some id) ids.
Proof.
  unfold includes. rewrite existsb_exists. split.
  - intros (x & Hin & Hx). apply is_id_true in Hx. now subst.
  - intros Hin. exists (Some id). split; auto. now apply is_id_true.
Qed.

Lemma getSharedFiles_members (st : Store) (u : Z) (entry : FileWithPath) :
  In entry (getSharedFiles st u)
  <-> exists file,
        entry = withUrl file
        /\ In file (JsMap.values (files st))
        /\ File.userId file = u
        /\ File.inTrash file <> Some true
        /\ (File.isShared file = Some true
            \/ exists share,
                In share (JsMap.values (shares st))
                /\ Share.userId share = u
                /\ Share.fileId share = Some (File.id file)).
Proof.
  unfold getSharedFiles. rewrite in_map_iff. split.
  - intros (file & <- & Hin). apply filter_In in Hin as [Hin Hc].
    apply andb_true_iff in Hc as [Hc Ht].
    apply andb_true_iff in Hc as [Hu Hs]. apply Z.eqb_eq in Hu.
    exists file. repeat split; auto.
    + intros Htr. rewrite (truthyb_trashed _ Htr) in Ht. discriminate.
    + apply orb_true_iff in Hs as [Hs|Hs].
      * right. apply includes_iff in Hs.
        apply in_map_iff in Hs as (share & Hfid & Hshare).
        apply filter_In in Hshare as [Hshare Hc].
        apply andb_true_iff in Hc as [Hsu _]. apply Z.eqb_eq in Hsu.
        exists share. auto.
      * left. destruct (File.isShared file) as [[]|]; simpl in Hs; congruence.
  - intros (file & -> & Hin & Hu & Ht & Hs). exists file. split; auto.
    apply filter_In. split; auto.
    apply Z.eqb_eq in Hu. rewrite Hu. simpl.
    apply andb_true_iff. split.
    + apply orb_true_iff. destruct Hs as [Hs|(share & Hshare & Hsu & Hfid)].
      * right. now rewrite Hs.
      * left. apply includes_iff. apply in_map_iff. exists share.
        split; auto. apply filter_In. split; auto.
        apply Z.eqb_eq in Hsu. rewrite Hsu, Hfid. reflexivity.
    + destruct (File.inTrash file) as [[]|]; simpl; congruence.
Qed.

(** Whatever view of the files is asked for on behalf of a user, every
    entry of the answer is a stored file of that user, and carries the
    download URL of that file. *)
Theorem file_views_show_own_files
        (LocalTZA : Date -> bool -> Z) (now : Date) (st : Store) (u : Z)
        (folderId : option (option Z)) (entry : FileWithPath) :
  In entry (getFilesByUserId st u folderId)
  \/ In entry (getRecentFiles LocalTZA now st u)
  \/ In entry (getStarredFiles st u)
  \/ In entry (getSharedFiles st u)
  \/ In entry (getTrashedFiles st u) ->
  In (fwp_file entry) (JsMap.values (files st))
  /\ File.userId (fwp_file entry) = u
  /\ entry = withUrl (fwp_file entry).
Proof.
  intros [H|[H|[H|[H|H]]]].
  - apply getFilesByUserId_members in H as (file & -> & Hin & Hu & _). auto.
  - assert (Hw : entry = withUrl (fwp_file entry)).
    { unfold getRecentFiles in H. apply in_map_iff in H as (file & <- & _).
      reflexivity. }
    apply (in_map fwp_file) in H.
    apply recent_files_members in H as (Hin & Hu & _). auto.
  - apply getStarredFiles_members in H as (file & -> & Hin & Hu & _). auto.
  - apply getSharedFiles_members in H as (file & -> & Hin & Hu & _). auto.
  - apply getTrashedFiles_members in H as (file & -> & Hin & Hu & _). auto.
Qed.

Lemma file_views_show_own_files_witness :
  Forall (fun entry => File.userId (fwp_file entry) = 1)
         (getRecentFiles (fixedZone 0) 900 recentStore 1).
Proof.
  apply Forall_forall. intros entry Hin.
  apply (file_views_show_own_files (fixedZone 0) 900 recentStore 1 None entry).
  right. left. exact Hin.
Defined.

(** A file in the trash is left out of the recent, starred and shared
    views, whatever its other flags and shares; its owner finds it in the
    trash view, and the plain listing of the owner's files still has it. *)
Theorem trashed_file_is_hidden
        (LocalTZA : Date -> bool -> Z) (now : Date) (st : Store) (u : Z)
        (file : File) :
  In file (JsMap.values (files st)) ->
  File.userId file = u ->
  File.inTrash file = Some true ->
  ~ In file (map fwp_file (getRecentFiles LocalTZA now st u))
  /\ ~ In file (map fwp_file (getStarredFiles st u))
  /\ ~ In file (map fwp_file (getSharedFiles st u))
  /\ In (withUrl file) (getTrashedFiles st u)
  /\ In (withUrl file) (getFilesByUserId st u None).
Proof.
  intros Hin Hu Ht. repeat split.
  - intros H. apply recent_files_members in H as (_ & _ & _ & Hn). congruence.
  - intros H. apply in_map_iff in H as (entry & <- & H).
    apply getStarredFiles_members in H as (f & -> & _ & _ & _ & Hn).
    simpl in Ht. congruence.
  - intros H. apply in_map_iff in H as (entry & <- & H).
    apply getSharedFiles_members in H as (f & -> & _ & _ & Hn & _).
    simpl in Ht. congruence.
  - apply getTrashedFiles_members. exists file. auto.
  - apply getFilesByUserId_members. exists file. repeat split; auto.
    discriminate.
Qed.

Lemma trashed_file_is_hidden_witness :
  getStarredFiles trashedStore 1 = []
  /\ map (fun entry => File.id (fwp_file entry)) (getTrashedFiles trashedStore 1)
     = [1].
Proof.
  assert (Hfile : exists file, getFile trashedStore 1 = Some file)
    by (eexists; reflexivity).
  destruct Hfile as (file & Hfile).
  destruct (trashed_file_is_hidden (fixedZone 0) 900 trashedStore 1 file)
    as (_ & _ & _ & _).
  - apply (JsMapFacts.get_some_values _ _ Hfile).
  - injection Hfile as <-. reflexivity.
  - injection Hfile as <-. reflexivity.
  - split; reflexivity.
Defined.

(** ** Round trips of the store *)

Lemma find_none_iff {A : Type} (p : A -> bool) (l : list A) :
  find p l = None <-> forall x, In x l -> p x = false.
Proof.
  induction l as [|a l IH]; simpl.
  - split; auto. intros _ x [].
  - destruct (p a) eqn:E.
    + split; [discriminate|]. intros H. specialize (H a (or_introl eq_refl)).
      congruence.
    + rewrite IH. split.
      * intros H x [<-|Hx]; auto.
      * intros H x Hx. apply H. now right.
Qed.

(** A share made with a token that no stored share has is what that token
    resolves to afterwards, with the file or folder its id names and the
    sharer's name and avatar. *)
Theorem created_share_resolves_by_token
        (now now' : Date) (token : string) (st : Store) (share : InsertShare) :
  (forall other, In other (JsMap.values (shares st)) ->
                 Share.token other <> token) ->
  let (created, st') := createShare now token st share in
  Share.token created = token
  /\ Share.fileId created = is_fileId share
  /\ Share.folderId created = is_folderId share
  /\ getShareByToken now' st' token = Some (shareDetails st' created)
  /\ (forall i, is_fileId share = Some i -> i <> 0 ->
                swd_file (shareDetails st' created) = getFile st i)
  /\ (forall i, is_folderId share = Some i -> i <> 0 ->
                swd_folder (shareDetails st' created) = getFolder st i)
  /\ (is_fileId share = None -> swd_file (shareDetails st' created) = None)
  /\ (is_folderId share = None -> swd_folder (shareDetails st' created) = None).
Proof.
  intros Hfresh.
  destruct (createShare now token st share) as [created st'] eqn:Hrun.
  unfold createShare in Hrun. injection Hrun as <- <-.
  split; [reflexivity|]. split; [reflexivity|]. split; [reflexivity|].
  split; [|repeat split].
  - unfold getShareByToken. simpl shares.
    rewrite (find_unique _ _ _ (JsMapFacts.values_set_new _ _ _)); auto.
    + apply String.eqb_refl.
    + intros y Hy Heq. apply String.eqb_eq in Heq.
      apply JsMapFacts.values_set_inv in Hy as [->|Hy]; auto.
      destruct (Hfresh y Hy Heq).
  - intros i Hi Hnz. unfold shareDetails. simpl. rewrite Hi. simpl.
    apply Z.eqb_neq in Hnz. now rewrite Hnz.
  - intros i Hi Hnz. unfold shareDetails. simpl. rewrite Hi. simpl.
    apply Z.eqb_neq in Hnz. now rewrite Hnz.
  - intros Hi. unfold shareDetails. simpl. now rewrite Hi.
  - intros Hi. unfold shareDetails. simpl. now rewrite Hi.
Qed.

Lemma created_share_resolves_by_token_witness :
  exists details,
    getShareByToken 160 storeWithSharedPdf "c0ffee" = Some details
    /\ swd_file details = getFile storeWithPdf 1
    /\ swd_folder details = None.
Proof.
  pose proof (created_share_resolves_by_token 150 160 "c0ffee" storeWithPdf
                                              pdfShare) as H.
  simpl in H. destruct H as (_ & _ & _ & Hget & Hfile & _ & _ & Hfolder).
  - intros other [].
  - eexists. split; [exact Hget|]. split.
    + apply (Hfile 1); [reflexivity | discriminate].
    + now apply Hfolder.
Defined.

(** A user created under a user name that no stored user has is found by
    that name, and by the id the call returned. *)
Theorem created_user_is_found_by_name
        (now : Date) (st : Store) (insertUser : InsertUser) :
  (forall other, In other (JsMap.values (users st)) ->
                 User.username other <> iu_username insertUser) ->
  let (user, st') := createUser now st insertUser in
  getUserByUsername st' (iu_username insertUser) = Some user
  /\ getUser st' (User.id user) = Some user
  /\ User.storageUsed user = 0
  /\ User.storageLimit user = 15 * 1024 * 1024 * 1024.
Proof.
  intros Hfresh.
  destruct (createUser now st insertUser) as [user st'] eqn:Hrun.
  unfold createUser in Hrun. injection Hrun as <- <-.
  split; [|split; [apply JsMapFacts.get_set_same | split; reflexivity]].
  unfold getUserByUsername. simpl users.
  apply find_unique.
  - apply JsMapFacts.values_set_new.
  - apply String.eqb_refl.
  - intros y Hy Heq. apply String.eqb_eq in Heq.
    apply JsMapFacts.values_set_inv in Hy as [->|Hy]; auto.
    destruct (Hfresh y Hy Heq).
Qed.

Lemma created_user_is_found_by_name_witness :
  let (user, st') := createUser 5 (constructor 0) alice in
  getUserByUsername st' "alice@example.com" = Some user
  /\ getUser st' (User.id user) = Some user
  /\ User.storageUsed user = 0
  /\ User.storageLimit user = 15 * 1024 * 1024 * 1024.
Proof.
  apply (created_user_is_found_by_name 5 (constructor 0) alice).
  intros other [<-|[]]. discriminate.
Defined.

Lemma delete_set_fresh {V : Type} (k : Z) (v : V) (m : JsMap.t V) :
  JsMap.get k m = None -> JsMap.delete k (JsMap.set k v m) = m.
Proof.
  intros Hnone. rewrite JsMapFacts.keys_set_fresh by assumption.
  unfold JsMap.delete. rewrite filter_app. simpl. rewrite Z.eqb_refl. simpl.
  rewrite app_nil_r. now apply JsMapFacts.delete_absent.
Qed.

Lemma set_set_same {V : Type} (k : Z) (v v' : V) (m : JsMap.t V) :
  JsMap.set k v (JsMap.set k v' m) = JsMap.set k v m.
Proof.
  induction m as [|[k0 v0] m IH]; simpl.
  - now rewrite Z.eqb_refl.
  - destruct (k =? k0) eqn:E; simpl; rewrite ?Z.eqb_refl, ?E; auto.
    now rewrite IH.
Qed.

Lemma set_get_same {V : Type} (k : Z) (v : V) (m : JsMap.t V) :
  JsMap.get k m = Some v -> JsMap.set k v m = m.
Proof.
  induction m as [|[k0 v0] m IH]; simpl; [discriminate|].
  destruct (k =? k0) eqn:E.
  - apply Z.eqb_eq in E. subst. now intros [= ->].
  - intros H. now rewrite IH.
Qed.

(** Deleting a share right after it was created gives back the shares map
    as it was, while the counter stays advanced, so that the id is not
    handed out again. *)
Theorem created_share_can_be_deleted
        (now : Date) (token : string) (st : Store) (share : InsertShare) :
  below (currentShareId st) (shares st) ->
  let (created, st1) := createShare now token st share in
  let (existed, st2) := deleteShare st1 (Share.id created) in
  existed = true
  /\ shares st2 = shares st
  /\ users st2 = users st /\ folders st2 = folders st /\ files st2 = files st
  /\ currentShareId st2 = currentShareId st + 1
  /\ below (currentShareId st2) (shares st2).
Proof.
  intros Hbelow. unfold createShare, deleteShare. simpl.
  pose proof (below_fresh _ _ Hbelow) as Hnone.
  unfold JsMap.has. rewrite JsMapFacts.get_set_same.
  rewrite delete_set_fresh by assumption. repeat split.
  intros k Hk. specialize (Hbelow k Hk). lia.
Qed.

Lemma created_share_can_be_deleted_witness :
  shares (snd (deleteShare storeWithSharedPdf 1)) = shares storeWithPdf
  /\ currentShareId (snd (deleteShare storeWithSharedPdf 1)) = 2.
Proof.
  pose proof (created_share_can_be_deleted 150 "c0ffee" storeWithPdf pdfShare)
    as H.
  simpl in H. destruct H as (_ & Hshares & _ & _ & _ & Hnext & _).
  - intros k [].
  - split; [exact Hshares | exact Hnext].
Defined.

Lemma with_storageUsed_same (user : User) :
  User.with_storageUsed user (User.storageUsed user) = user.
Proof. now destruct user. Qed.

Lemma with_storageUsed_twice (user : User) (a b : Z) :
  User.with_storageUsed (User.with_storageUsed user a) b
  = User.with_storageUsed user b.
Proof. reflexivity. Qed.

(** Deleting a file right after it was created gives back the files map
    and every user record as they were: what the upload added to the
    owner's [storageUsed] is taken off again. *)
Theorem created_file_can_be_deleted
        (now : Date) (st : Store) (file : InsertFile) :
  keyed User.id (users st) ->
  below (currentFileId st) (files st) ->
  (forall user, getUser st (if_userId file) = Some user ->
                0 <= User.storageUsed user) ->
  let (created, st1) := createFile now st file in
  let (existed, st2) := deleteFile st1 (File.id created) in
  existed = true
  /\ files st2 = files st
  /\ users st2 = users st
  /\ folders st2 = folders st
  /\ incl (shares st2) (shares st)
  /\ currentFileId st2 = currentFileId st + 1.
Proof.
  intros Hkeyed Hbelow Hpos.
  pose proof (below_fresh _ _ Hbelow) as Hnone.
  unfold createFile, deleteFile. cbv zeta. simpl File.id. simpl files.
  rewrite JsMapFacts.get_set_same. simpl File.userId. simpl File.size.
  unfold updateUserStorageUsed. simpl users.
  unfold getUser in Hpos.
  destruct (JsMap.get (if_userId file) (users st)) as [user|] eqn:Hu.
  - simpl User.id. rewrite (Hkeyed _ _ Hu).
    rewrite set_set_same, JsMapFacts.get_set_same. simpl.
    unfold JsMap.has. rewrite JsMapFacts.get_set_same.
    rewrite delete_set_fresh by assumption.
    specialize (Hpos user eq_refl).
    replace (if User.storageUsed user + if_size file + - if_size file <? 0
             then 0
             else User.storageUsed user + if_size file + - if_size file)
      with (User.storageUsed user)
      by (destruct (_ <? 0) eqn:E;
          [apply Z.ltb_lt in E | apply Z.ltb_ge in E]; lia).
    rewrite with_storageUsed_twice, with_storageUsed_same.
    rewrite set_set_same, (set_get_same _ _ _ Hu).
    repeat split. apply deleteShares_incl.
  - rewrite Hu. simpl.
    unfold JsMap.has. rewrite JsMapFacts.get_set_same.
    rewrite delete_set_fresh by assumption.
    repeat split. apply deleteShares_incl.
Qed.

Lemma created_file_can_be_deleted_witness :
  files (snd (deleteFile storeWithPdf 1)) = []
  /\ users (snd (deleteFile storeWithPdf 1)) = users (constructor 0).
Proof.
  pose proof (created_file_can_be_deleted 100 (constructor 0)
                {| if_name := "a.pdf"; if_type := "application/pdf";
                   if_size := 1000; if_userId := 1; if_folderId := None;
                   if_path := "uploads/user_1/a.pdf" |}) as H.
  simpl in H. destruct H as (_ & Hfiles & Husers & _).
  - apply (constructor_accounting_ok 0).
  - intros k [].
  - intros user [= <-]. simpl. lia.
  - split; [exact Hfiles | exact Husers].
Defined.

(** ** More on storage accounting *)

(** In a store whose users each sit under their own id, so that no user
    record is held under two keys, [updateUserStorageUsed] adds the delta
    to the counter of a stored user and stops at 0, so the counter it
    leaves is never negative; it changes nothing else of that user, no
    other user and no other map, and the users still sit under their own
    ids. *)
Theorem storage_counter_stops_at_zero
        (st : Store) (userId : Z) (sizeDelta : Z) (user : User) :
  keyed User.id (users st) ->
  getUser st userId = Some user ->
  let (result, st') := updateUserStorageUsed st userId sizeDelta in
  exists user',
    result = Some user'
    /\ getUser st' userId = Some user'
    /\ User.storageUsed user' = Z.max 0 (User.storageUsed user + sizeDelta)
    /\ 0 <= User.storageUsed user'
    /\ user' = User.with_storageUsed user (User.storageUsed user')
    /\ (forall k, k <> userId -> getUser st' k = getUser st k)
    /\ keyed User.id (users st')
    /\ folders st' = folders st /\ files st' = files st
    /\ shares st' = shares st.
Proof.
  intros Hkeyed Hget.
  pose proof (keyed_storageUsed st userId user
                (if User.storageUsed user + sizeDelta <? 0
                 then 0 else User.storageUsed user + sizeDelta)
                Hkeyed Hget) as Hkeyed'.
  revert Hget Hkeyed'.
  unfold getUser, updateUserStorageUsed. intros -> Hkeyed'.
  eexists. split; [reflexivity|]. simpl.
  split; [apply JsMapFacts.get_set_same|].
  assert (Hmax : (if User.storageUsed user + sizeDelta <? 0
                  then 0 else User.storageUsed user + sizeDelta)
                 = Z.max 0 (User.storageUsed user + sizeDelta)).
  { destruct (_ <? 0) eqn:E;
      [apply Z.ltb_lt in E | apply Z.ltb_ge in E]; lia. }
  rewrite Hmax in *. repeat split; try lia; try assumption.
  intros k Hk. now apply JsMapFacts.get_set_other.
Qed.

Lemma storage_counter_stops_at_zero_witness :
  option_map User.storageUsed
             (fst (updateUserStorageUsed storeWithPdf 1 (-5000)))
  = Some 0.
Proof.
  pose proof (storage_counter_stops_at_zero storeWithPdf 1 (-5000)) as H.
  destruct (updateUserStorageUsed storeWithPdf 1 (-5000)) as [result st'].
  edestruct H as (user' & -> & _ & Hused & _).
  - intros k v. simpl. destruct (k =? 1) eqn:E; [|discriminate].
    intros [= <-]. apply Z.eqb_eq in E. now subst.
  - reflexivity.
  - simpl. rewrite Hused. reflexivity.
Defined.

Lemma sizeOfFiles_set (u k : Z) (old new : File) (m : JsMap.t File) :
  JsMap.wf m -> JsMap.get k m = Some old ->
  sizeOfFiles u (JsMap.values (JsMap.set k new m))
  = sizeOfFiles u (JsMap.values m)
    - (if File.userId old =? u then File.size old else 0)
    + (if File.userId new =? u then File.size new else 0).
Proof.
  unfold JsMap.wf. induction m as [|[k' g] m IH]; simpl; [discriminate|].
  intros Hnd Hget. inversion Hnd as [|? ? Hnotin Hnd']; subst.
  destruct (k =? k') eqn:E.
  - injection Hget as ->. simpl. rewrite !sizeOfFiles_cons. lia.
  - simpl. rewrite !sizeOfFiles_cons. rewrite (IH Hnd' Hget). lia.
Qed.

(** The users that [updateFile] leaves. *)
Lemma updateFile_user (now : Date) (st : Store) (id : Z) (data : PartialFile)
      (file : File) (k : Z) :
  getFile st id = Some file ->
  getUser (snd (updateFile now st id data)) k
  = match getUser st k with
    | Some user =>
        if (k =? File.userId file)
           && negb (spread (File.size file) (pf_size data) =? File.size file)
        then Some (User.with_storageUsed
                     user
                     (Z.max 0 (User.storageUsed user
                               + (spread (File.size file) (pf_size data)
                                  - File.size file))))
        else Some user
    | None => None
    end.
Proof.
  unfold getFile, getUser, updateFile. intros ->. simpl.
  destruct (pf_size data) as [size|]; simpl.
  - destruct (size =? File.size file) eqn:Hsame; simpl.
    + rewrite andb_false_r. now destruct (JsMap.get k (users st)).
    + rewrite andb_true_r. unfold updateUserStorageUsed.
      destruct (JsMap.get (File.userId file) (users st)) as [owner|] eqn:Ho;
        simpl.
      * destruct (Z.eq_dec k (File.userId file)) as [->|Hne].
        -- rewrite JsMapFacts.get_set_same, Ho, Z.eqb_refl. do 2 f_equal.
           destruct (_ <? 0) eqn:E;
             [apply Z.ltb_lt in E | apply Z.ltb_ge in E]; lia.
        -- rewrite JsMapFacts.get_set_other by assumption.
           apply Z.eqb_neq in Hne. rewrite Hne.
           now destruct (JsMap.get k (users st)).
      * destruct (Z.eq_dec k (File.userId file)) as [->|Hne].
        -- now rewrite Ho.
        -- apply Z.eqb_neq in Hne. rewrite Hne.
           now destruct (JsMap.get k (users st)).
  - rewrite Z.eqb_refl, andb_false_r. now destruct (JsMap.get k (users st)).
Qed.

Lemma updateFile_files (now : Date) (st : Store) (id : Z) (data : PartialFile)
      (file : File) :
  getFile st id = Some file ->
  exists updated,
    fst (updateFile now st id data) = Some updated
    /\ files (snd (updateFile now st id data))
       = JsMap.set id updated (files st)
    /\ currentFileId (snd (updateFile now st id data)) = currentFileId st
    /\ File.size updated = spread (File.size file) (pf_size data)
    /\ File.userId updated = spread (File.userId file) (pf_userId data).
Proof.
  unfold getFile, updateFile. intros ->. eexists. split; [reflexivity|].
  simpl. repeat split;
    destruct (pf_size data) as [size|]; simpl; auto;
    destruct (negb (size =? File.size file)); auto;
    unfold updateUserStorageUsed;
    now destruct (JsMap.get (File.userId file) (users st)).
Qed.

(** Changing the size of a file through [updateFile] keeps the accounting
    right: in a well-formed store where a user's [storageUsed] is the total
    size of the user's files, it still is after an update that leaves the
    owner alone and gives no negative size. *)
Theorem resized_file_keeps_accounting
        (now : Date) (st : Store) (id : Z) (data : PartialFile) (file : File)
        (u : Z) :
  accounting_ok st ->
  accounted st u ->
  getFile st id = Some file ->
  pf_userId data = None ->
  (forall size, pf_size data = Some size -> 0 <= size) ->
  accounting_ok (snd (updateFile now st id data))
  /\ accounted (snd (updateFile now st id data)) u.
Proof.
  intros [Hu Hfresh Hwf Hsizes] (user & Hget & Hused) Hfile Howner Hpos.
  destruct (updateFile_files now st id data file Hfile)
    as (updated & _ & Hfiles & Hnext & Hsize & Huid).
  rewrite Howner in Huid. simpl in Huid.
  assert (Hold : 0 <= File.size file)
    by (apply Hsizes; apply (JsMapFacts.get_some_values _ _ Hfile)).
  assert (Hnew : 0 <= spread (File.size file) (pf_size data))
    by (destruct (pf_size data); simpl; auto).
  split.
  - constructor.
    + intros k v Hv.
      change (getUser (snd (updateFile now st id data)) k = Some v) in Hv.
      rewrite (updateFile_user now st id data file k Hfile) in Hv.
      unfold getUser in Hv.
      destruct (JsMap.get k (users st)) as [w|] eqn:Hk; [|discriminate].
      specialize (Hu _ _ Hk).
      destruct (_ && _); injection Hv as <-; auto.
    + rewrite Hfiles, Hnext. intros k Hk.
      rewrite JsMapFacts.keys_set_present in Hk; [now apply Hfresh|].
      unfold getFile in Hfile. congruence.
    + rewrite Hfiles. now apply JsMapFacts.wf_set.
    + rewrite Hfiles. intros f Hf.
      apply JsMapFacts.values_set_inv in Hf as [->|Hf]; auto.
      now rewrite Hsize.
  - unfold accounted, storedSize.
    rewrite (updateFile_user now st id data file u Hfile), Hget, Hfiles.
    rewrite (sizeOfFiles_set u id file updated (files st) Hwf Hfile).
    rewrite Huid, Hsize.
    destruct (sizeOfFiles_bound u (JsMap.values (files st)) Hsizes) as [_ Hle].
    unfold storedSize in Hused. rewrite (Z.eqb_sym u).
    destruct (File.userId file =? u) eqn:E; simpl.
    + apply Z.eqb_eq in E.
      specialize (Hle file (JsMapFacts.get_some_values _ _ Hfile) E).
      destruct (spread (File.size file) (pf_size data) =? File.size file)
        eqn:Hsame; simpl; eexists; (split; [reflexivity|]); simpl.
      * apply Z.eqb_eq in Hsame. lia.
      * lia.
    + eexists. split; [reflexivity|]. lia.
Qed.

Lemma resized_file_keeps_accounting_witness :
  let st' := snd (updateFile 200 storeWithPdf 1
                    (Build_PartialFile None None None (Some 250) None None
                                       None None None None None None None
                                       None)) in
  accounted st' 1
  /\ option_map User.storageUsed (getUser st' 1) = Some 250.
Proof.
  intros st'. split; [|reflexivity].
  assert (Hok : accounting_ok storeWithPdf /\ accounted storeWithPdf 1).
  { destruct (constructor_accounting_ok 0) as [Hok Hacc]. split.
    - now apply accounting_ok_createFile; [|simpl; lia].
    - now apply accounted_createFile. }
  destruct Hok as [Hok Hacc].
  eapply (resized_file_keeps_accounting 200 storeWithPdf 1 _ _ 1 Hok Hacc);
    [reflexivity | reflexivity |].
  intros size [= <-]. lia.
Defined.

Lemma keeps_accounts_refl (st : Store) : keeps_accounts st st.
Proof. intros Hok. auto. Qed.

Lemma keeps_accounts_trans (a b c : Store) :
  keeps_accounts a b -> keeps_accounts b c -> keeps_accounts a c.
Proof.
  intros Hab Hbc Ha. destruct (Hab Ha) as [Hb Habu].
  destruct (Hbc Hb) as [Hc Hbcu]. auto.
Qed.

Lemma deleteFiles_keeps_accounts (l : list File) (st : Store) :
  keeps_accounts st (deleteFiles l st).
Proof.
  revert st. induction l as [|file l IH]; intros st; simpl.
  - apply keeps_accounts_refl.
  - eapply keeps_accounts_trans; [|apply IH].
    intros Hok. split; [now apply accounting_ok_deleteFile|].
    intros u Hu. now apply accounted_deleteFile.
Qed.

Lemma deleteFolder_keeps_accounts (fuel : nat) :
  forall st id b st',
    deleteFolder fuel st id = Some (b, st') -> keeps_accounts st st'.
Proof.
  induction fuel as [|fuel IH]; intros st id b st'; [discriminate|].
  rewrite deleteFolder_S. cbv zeta.
  destruct (deleteSubfolders fuel _ _) as [st2|] eqn:Hloop; [|discriminate].
  intros [= _ <-].
  eapply keeps_accounts_trans; [apply deleteFiles_keeps_accounts|].
  eapply keeps_accounts_trans.
  - eapply (deleteSubfolders_lift keeps_accounts);
      eauto using keeps_accounts_refl, keeps_accounts_trans.
  - intros [Hu Hfresh Hwf Hsizes]. split; [now constructor|].
    intros u Hacc. exact Hacc.
Qed.

(** Deleting a folder keeps the accounting right: when [deleteFolder]
    returns on a well-formed store, every user whose [storageUsed] was the
    total size of the user's files has it equal to the total size of the
    files that are left. *)
Theorem deleted_folder_keeps_accounting
        (fuel : nat) (st : Store) (id : Z) (b : bool) (st' : Store) (u : Z) :
  accounting_ok st ->
  accounted st u ->
  deleteFolder fuel st id = Some (b, st') ->
  accounting_ok st' /\ accounted st' u.
Proof.
  intros Hok Hacc Hrun.
  destruct (deleteFolder_keeps_accounts fuel st id b st' Hrun Hok) as [Hok' H].
  auto.
Qed.

Lemma nestedStore_accounting :
  accounting_ok nestedStore /\ accounted nestedStore 1.
Proof.
  split.
  - constructor; simpl.
    + intros k v. simpl. destruct (k =? 1) eqn:E; [|discriminate].
      intros [= <-]. apply Z.eqb_eq in E. now subst.
    + intros k [<-|[]]. reflexivity.
    + repeat constructor. intros [].
    + intros f [<-|[]]. simpl. lia.
  - eexists. split; reflexivity.
Qed.

Lemma deleted_folder_keeps_accounting_witness :
  exists st',
    deleteFolder 4 nestedStore 1 = Some (true, st')
    /\ accounted st' 1
    /\ option_map User.storageUsed (getUser st' 1) = Some 0.
Proof.
  destruct nestedStore_accounting as [Hok Hacc].
  eexists. split; [vm_compute; reflexivity|].
  split; [|reflexivity].
  eapply (deleted_folder_keeps_accounting 4 nestedStore 1 true _ 1 Hok Hacc).
  vm_compute. reflexivity.
Defined.

(** ** Deleted files and their links *)

(** Once a stored file is deleted no share token resolves to it any more:
    in a store whose shares are stored under their ids, whatever
    [getShareByToken] returns after [deleteFile(id)] is not a share of
    file [id], and the file itself is gone. *)
Theorem deleted_file_has_no_link
        (now : Date) (st : Store) (id : Z) (file : File) (token : string) :
  stored_by_id st ->
  getFile st id = Some file ->
  let (existed, st') := deleteFile st id in
  existed = true
  /\ getFile st' id = None
  /\ forall details,
       getShareByToken now st' token = Some details ->
       Share.fileId (swd_share details) <> Some id
       /\ swd_file details <> Some file.
Proof.
  intros Hst Hfile.
  destruct (deleteFile_cleans st id) as [Hc Hgone].
  destruct (Hc Hst) as (Hst' & _ & [_ _ Hno]).
  assert (Hex : fst (deleteFile st id) = true).
  { unfold getFile in Hfile. unfold deleteFile. rewrite Hfile. simpl.
    unfold JsMap.has, updateUserStorageUsed.
    destruct (JsMap.get (File.userId file) (users st)); simpl;
      now rewrite Hfile. }
  destruct (deleteFile st id) as [existed st'] eqn:Hrun. simpl in *.
  split; [exact Hex|]. split; [exact Hgone|].
  intros details Hget. unfold getShareByToken in Hget.
  destruct (find _ _) as [share|] eqn:Hfind; [|discriminate].
  injection Hget as <-. simpl.
  apply find_some in Hfind as [Hin _].
  assert (Hfid : Share.fileId share <> Some id).
  { apply (Hno id); auto. unfold getFile in Hfile. congruence. }
  split; [exact Hfid|].
  destruct (truthy (Share.fileId share)); [|discriminate].
  destruct (Share.fileId share) as [i|]; [|discriminate].
  intros Hi.
  pose proof (sbi_files Hst') as Hkeyed'.
  pose proof (sbi_files Hst) as Hkeyed.
  pose proof (Hkeyed' _ _ Hi) as Hkey.
  pose proof (Hkeyed _ _ Hfile) as Hkey0.
  congruence.
Qed.

Ltac concrete_keyed :=
  let k := fresh "k" in
  let v := fresh "v" in
  let E := fresh "E" in
  intros k v; simpl;
  repeat (destruct (k =? _) eqn:E;
          [ intros [= <-]; apply Z.eqb_eq in E; subst; reflexivity | clear E ]);
  discriminate.

Ltac concrete_wf :=
  unfold JsMap.wf; simpl;
  repeat (constructor; [simpl; intuition discriminate|]); constructor.

Lemma storeWithSharedPdf_stored : stored_by_id storeWithSharedPdf.
Proof. constructor; try concrete_keyed; concrete_wf. Qed.

Lemma deleted_file_has_no_link_witness :
  let (existed, st') := deleteFile storeWithSharedPdf 1 in
  existed = true
  /\ getFile st' 1 = None
  /\ forall details,
       getShareByToken 900 st' "c0ffee" = Some details ->
       Share.fileId (swd_share details) <> Some 1
       /\ swd_file details <> Some thePdf.
Proof.
  apply (deleted_file_has_no_link 900 storeWithSharedPdf 1 thePdf "c0ffee").
  - exact storeWithSharedPdf_stored.
  - reflexivity.
Defined.

(** ** Ties in the recent-files view *)

(** Files of the recent view that were last accessed at the same time come
    in the order in which the files map holds them. *)
Theorem recent_files_ties_keep_map_order
        (LocalTZA : Date -> bool -> Z) (now : Date) (st : Store)
        (userId : Z) (t : Z) :
  filter (fun file => accessTime file =? t)
         (map fwp_file (getRecentFiles LocalTZA now st userId))
  = filter (fun file => accessTime file =? t)
           (filter (isRecent (thirtyDaysAgo LocalTZA now) userId)
                   (JsMap.values (files st))).
Proof.
  unfold getRecentFiles. rewrite withUrl_file.
  apply (sortBy_stable accessTime).
  intros a b Ha Hb. apply Z.eqb_eq in Ha, Hb. congruence.
Qed.

Example recent_files_ties_sample :
  map (fun entry => File.id (fwp_file entry)) (getRecentFiles (fixedZone 0) 900 tiedStore 1)
  = [3; 1; 2].
Proof. reflexivity. Qed.

(** ** Folder statistics *)

Lemma fold_left_sizes (l : list File) (a : Z) :
  fold_left (fun sum file => sum + File.size file) l a
  = a + fold_right Z.add 0 (map File.size l).
Proof.
  revert a. induction l as [|f l IH]; intros a; simpl; [lia|].
  rewrite IH. lia.
Qed.

(** The statistics of a folder listing count the files that sit directly
    in the folder: after a [createFile] into folder [g] the [fileCount] of
    [g] is one more and its [totalSize] is larger by the size of the file,
    and the statistics of every other folder are what they were. *)
Theorem created_file_shows_in_folder_stats
        (now : Date) (st : Store) (file : InsertFile) (folder : Folder) :
  below (currentFileId st) (files st) ->
  let st' := snd (createFile now st file) in
  fws_folder (folderStats st' folder) = folder
  /\ (if_folderId file = Some (Folder.id folder) ->
      fileCount (folderStats st' folder) = fileCount (folderStats st folder) + 1
      /\ totalSize (folderStats st' folder)
         = totalSize (folderStats st folder) + if_size file)
  /\ (if_folderId file <> Some (Folder.id folder) ->
      folderStats st' folder = folderStats st folder).
Proof.
  intros Hbelow st'. split; [reflexivity|].
  assert (Hfiles :
            filter (fun f => is_id (File.folderId f) (Folder.id folder))
                   (JsMap.values (files st'))
            = filter (fun f => is_id (File.folderId f) (Folder.id folder))
                     (JsMap.values (files st))
              ++ (if is_id (if_folderId file) (Folder.id folder)
                  then [fst (createFile now st file)] else [])).
  { unfold st'. destruct (createFile_files now st file) as (-> & _).
    rewrite JsMapFacts.keys_set_fresh by now apply below_fresh.
    unfold JsMap.values. rewrite map_app, filter_app. reflexivity. }
  split.
  - intros Hin. apply is_id_true in Hin.
    unfold folderStats. cbv zeta. cbn [fileCount totalSize].
    rewrite Hfiles, Hin. rewrite length_app, !fold_left_sizes, map_app.
    rewrite fold_right_app. simpl.
    split; [lia|].
    generalize (map File.size
                    (filter (fun f => is_id (File.folderId f) (Folder.id folder))
                            (JsMap.values (files st)))).
    intros l. induction l as [|x l IH]; simpl; lia.
  - intros Hout. unfold folderStats. cbv zeta. rewrite Hfiles.
    destruct (is_id (if_folderId file) (Folder.id folder)) eqn:E.
    + apply is_id_true in E. contradiction.
    + now rewrite app_nil_r.
Qed.

Lemma created_file_shows_in_folder_stats_witness :
  let st' := snd (createFile 100 storeWithDocs noteInDocs) in
  fileCount (folderStats st' theDocs) = 1
  /\ totalSize (folderStats st' theDocs) = 5.
Proof.
  destruct (created_file_shows_in_folder_stats 100 storeWithDocs noteInDocs
                                               theDocs) as (_ & Hin & _).
  - intros k [].
  - apply Hin. reflexivity.
Defined.

(** ** Ownership in the routes *)

Lemma existsSync_iff (disk : Disk) (path : string) :
  existsSync disk path = true <-> In path disk.
Proof.
  unfold existsSync. rewrite existsb_exists. split.
  - intros (p & Hin & Heq). apply String.eqb_eq in Heq. now subst.
  - intros Hin. exists path. split; auto. apply String.eqb_refl.
Qed.

Lemma unlinkSync_In (disk disk' : Disk) (path : string) :
  unlinkSync disk path = Some disk' ->
  In path disk /\ forall p, In p disk' <-> In p disk /\ p <> path.
Proof.
  unfold unlinkSync. destruct (existsSync disk path) eqn:E; [|discriminate].
  intros [= <-]. split; [now apply existsSync_iff|].
  intros p. rewrite filter_In, negb_true_iff. split.
  - intros [Hin Hne]. split; auto. intros ->.
    now rewrite String.eqb_refl in Hne.
  - intros [Hin Hne]. split; auto. now apply String.eqb_neq.
Qed.

(** A folder that belongs to someone else can be neither changed nor
    deleted through the routes: PATCH and DELETE /api/folders/:id answer
    403 and leave the store as it was; for an id that is not stored they
    answer 404. *)
Theorem foreign_folder_is_protected
        (now : Date) (fuel : nat) (st : Store) (userId : Z) (folderId : Z)
        (body : FolderPatch) :
  (getFolder st folderId = None ->
   patchFolder now st userId folderId body
   = (message 404 "Folder not found", st)
   /\ deleteFolderRoute fuel st userId folderId
      = Some (message 404 "Folder not found", st))
  /\ (forall folder,
         getFolder st folderId = Some folder ->
         Folder.userId folder <> userId ->
         patchFolder now st userId folderId body
         = (message 403 "Unauthorized to update this folder", st)
         /\ deleteFolderRoute fuel st userId folderId
            = Some (message 403 "Unauthorized to delete this folder", st)).
Proof.
  unfold patchFolder, deleteFolderRoute. split.
  - intros ->. auto.
  - intros folder -> Hne. apply Z.eqb_neq in Hne. rewrite Hne. auto.
Qed.

Lemma foreign_folder_is_protected_witness :
  patchFolder 900 twoUsers 1 1 {| fp_name := Some "mine"%string;
                                  fp_starred := None; fp_inTrash := None |}
  = (message 403 "Unauthorized to update this folder", twoUsers)
  /\ deleteFolderRoute 5 twoUsers 1 1
     = Some (message 403 "Unauthorized to delete this folder", twoUsers).
Proof.
  eapply (foreign_folder_is_protected 900 5 twoUsers 1 1);
    [reflexivity | discriminate].
Defined.

(** The same for files: PATCH and DELETE /api/files/:id answer 403 for a
    file of another user and 404 for an id that is not stored, and leave
    the store and the upload directory as they were. *)
Theorem foreign_file_is_protected
        (now : Date) (st : Store) (disk : Disk) (userId : Z) (fileId : Z)
        (body : FilePatch) :
  (getFile st fileId = None ->
   patchFile now st userId fileId body = (message 404 "File not found", st)
   /\ deleteFileRoute st disk userId fileId
      = (message 404 "File not found", st, disk))
  /\ (forall file,
         getFile st fileId = Some file ->
         File.userId file <> userId ->
         patchFile now st userId fileId body
         = (message 403 "Unauthorized to update this file", st)
         /\ deleteFileRoute st disk userId fileId
            = (message 403 "Unauthorized to delete this file", st, disk)).
Proof.
  unfold patchFile, deleteFileRoute. split.
  - intros ->. auto.
  - intros file -> Hne. apply Z.eqb_neq in Hne. rewrite Hne. auto.
Qed.

Lemma foreign_file_is_protected_witness :
  patchFile 900 twoUsers 1 2 {| fip_name := None; fip_folderId := None;
                                fip_starred := None;
                                fip_inTrash := Some true |}
  = (message 403 "Unauthorized to update this file", twoUsers)
  /\ deleteFileRoute twoUsers twoUsersDisk 1 2
     = (message 403 "Unauthorized to delete this file", twoUsers, twoUsersDisk).
Proof.
  eapply (foreign_file_is_protected 900 twoUsers twoUsersDisk 1 2);
    [reflexivity | discriminate].
Defined.

(** DELETE /api/shares/:id removes a share only for the user who made it:
    in a store whose shares are stored under their ids, the share of the
    requester under that id is removed and nothing else changes; when the
    id holds no share, or a share of someone else, the answer is 404 and
    the store is as it was. *)
Theorem share_is_deleted_by_its_owner_only
        (st : Store) (userId : Z) (shareId : Z) :
  JsMap.wf (shares st) ->
  keyed Share.id (shares st) ->
  ((forall share, JsMap.get shareId (shares st) = Some share ->
                  Share.userId share <> userId) ->
   deleteShareRoute st userId shareId = (message 404 "Share not found", st))
  /\ (forall share,
         JsMap.get shareId (shares st) = Some share ->
         Share.userId share = userId ->
         exists st',
           deleteShareRoute st userId shareId = (noContent, st')
           /\ JsMap.get shareId (shares st') = None
           /\ (forall k, k <> shareId ->
                         JsMap.get k (shares st') = JsMap.get k (shares st))
           /\ users st' = users st /\ folders st' = folders st
           /\ files st' = files st).
Proof.
  intros Hwf Hkeyed. unfold deleteShareRoute. split.
  - intros Hforeign.
    destruct (find _ _) as [d|] eqn:Hfind; [|reflexivity].
    apply find_some in Hfind as [Hin Hid]. apply Z.eqb_eq in Hid.
    unfold getSharesByUserId in Hin.
    apply in_map_iff in Hin as (share & <- & Hin).
    apply filter_In in Hin as [Hin Hu]. apply Z.eqb_eq in Hu.
    simpl in Hid.
    pose proof (stored_entry Share.id _ share Hwf Hkeyed Hin) as Hget.
    rewrite Hid in Hget. destruct (Hforeign share Hget Hu).
  - intros share Hget Hu.
    destruct (find _ _) as [d|] eqn:Hfind.
    + eexists. split; [reflexivity|]. simpl.
      split; [apply JsMapFacts.get_delete_same|].
      split; [|auto].
      intros k Hk. now apply JsMapFacts.get_delete_other.
    + exfalso.
      pose proof (proj1 (find_none_iff _ _) Hfind (shareDetails st share))
        as Hnone.
      simpl in Hnone. rewrite (Hkeyed _ _ Hget), Z.eqb_refl in Hnone.
      assert (Hin : In (shareDetails st share) (getSharesByUserId st userId)).
      { unfold getSharesByUserId. apply in_map. apply filter_In. split.
        - apply (JsMapFacts.get_some_values _ _ Hget).
        - now apply Z.eqb_eq. }
      specialize (Hnone Hin). discriminate.
Qed.

Lemma share_is_deleted_by_its_owner_only_witness :
  deleteShareRoute storeWithSharedPdf 2 1
  = (message 404 "Share not found", storeWithSharedPdf)
  /\ exists st',
      deleteShareRoute storeWithSharedPdf 1 1 = (noContent, st')
      /\ JsMap.get 1 (shares st') = None.
Proof.
  destruct (share_is_deleted_by_its_owner_only storeWithSharedPdf 2 1)
    as [Hforeign _];
    [apply storeWithSharedPdf_stored | apply storeWithSharedPdf_stored |].
  destruct (share_is_deleted_by_its_owner_only storeWithSharedPdf 1 1)
    as [_ Hown];
    [apply storeWithSharedPdf_stored | apply storeWithSharedPdf_stored |].
  split.
  - apply Hforeign. intros share [= <-]. discriminate.
  - edestruct Hown as (st' & Hrun & Hgone & _); [reflexivity | reflexivity |].
    exists st'. split; assumption.
Defined.

(** ** Uploads *)

(** POST /api/files/upload keeps a user within the storage limit.  An
    upload that would take [storageUsed] over [storageLimit] is refused:
    the store is as it was and the uploaded file is no longer in the upload
    directory.  An upload that is answered 201 fits: the user's
    [storageUsed] has grown by exactly the size, is within the limit, and
    the new file is stored for that user. *)
Theorem upload_respects_quota
        (now : Date) (st : Store) (disk : Disk) (userId : Z)
        (upload : UploadedFile) (folderId : option Z) (user : User) :
  keyed User.id (users st) ->
  getUser st userId = Some user ->
  let '(response, st', disk') :=
    postUpload now st disk userId (Some upload) folderId in
  (User.storageLimit user < User.storageUsed user + up_size upload ->
   st' = st
   /\ status response <> 201
   /\ ~ In (up_path upload) disk'
   /\ (In (up_path upload) disk ->
       response = message 400 "Not enough storage space"))
  /\ (forall created,
         response = json 201 created ->
         User.storageUsed user + up_size upload <= User.storageLimit user
         /\ getUser st' userId
            = Some (User.with_storageUsed
                      user (User.storageUsed user + up_size upload))
         /\ getFile st' (File.id created) = Some created
         /\ File.size created = up_size upload
         /\ File.userId created = userId
         /\ File.folderId created = folderId
         /\ disk' = disk).
Proof.
  intros Hkeyed Huser. unfold postUpload. rewrite Huser.
  destruct (User.storageUsed user + up_size upload >? User.storageLimit user)
    eqn:Hover.
  - apply Z.gtb_lt in Hover.
    destruct (unlinkSync disk (up_path upload)) as [disk'|] eqn:Hun.
    + apply unlinkSync_In in Hun as [Hin Hrest]. split.
      * intros _. split; [reflexivity|]. split; [simpl; lia|].
        split; [|reflexivity]. intros Hp. apply Hrest in Hp. tauto.
      * intros created [=].
    + split.
      * intros _. split; [reflexivity|]. split; [simpl; lia|].
        assert (Hnot : ~ In (up_path upload) disk).
        { intros Hin. apply existsSync_iff in Hin. unfold unlinkSync in Hun.
          rewrite Hin in Hun. discriminate. }
        split; [exact Hnot | intros Hin; destruct (Hnot Hin)].
      * intros created [=].
  - assert (Hfits : User.storageUsed user + up_size upload
                    <= User.storageLimit user).
    { destruct (Z.gtb_spec (User.storageUsed user + up_size upload)
                           (User.storageLimit user)); [discriminate | lia]. }
    match goal with
    | |- context [if negb ?ok then _ else _] => destruct ok
    end; simpl negb; cbv iota.
    + pose proof (createFile_user
                    now st
                    {| if_name := originalname upload;
                       if_type := mimetype upload;
                       if_size := up_size upload;
                       if_userId := userId;
                       if_folderId := folderId;
                       if_path := up_path upload |} userId Hkeyed) as Hu'.
      destruct (createFile now st _) as [c s1] eqn:Hrun.
      pose proof Hrun as Hrun'. unfold createFile in Hrun'.
      injection Hrun' as Hc Hs1.
      split; [intros Hlt; lia|].
      intros created [= <-]. split; [exact Hfits|].
      split.
      { simpl snd in Hu'. rewrite Hu'. simpl if_userId.
        now rewrite Huser, Z.eqb_refl. }
      split.
      { rewrite <- Hs1, <- Hc. apply JsMapFacts.get_set_same. }
      rewrite <- Hc. repeat split.
    + destruct (unlinkSync disk (up_path upload)) as [disk'|];
        (split; [intros Hlt; lia | intros created [=]]).
Qed.

Lemma upload_respects_quota_witness :
  let big := {| originalname := "movie.mkv"; mimetype := "video/x-matroska";
                up_size := 16 * 1024 * 1024 * 1024;
                up_path := "uploads/user_1/movie.mkv" |} in
  let '(response, st', disk') :=
    postUpload 900 storeWithPdf ["uploads/user_1/movie.mkv"%string] 1
               (Some big) None in
  st' = storeWithPdf
  /\ response = message 400 "Not enough storage space"
  /\ ~ In "uploads/user_1/movie.mkv"%string disk'.
Proof.
  intros big.
  assert (Hkeyed : keyed User.id (users storeWithPdf)).
  { apply (accounting_ok_createFile 100);
      [apply (constructor_accounting_ok 0) | simpl; lia]. }
  pose proof (upload_respects_quota
                900 storeWithPdf ["uploads/user_1/movie.mkv"%string] 1 big
                None _ Hkeyed eq_refl) as H.
  revert H.
  destruct (postUpload 900 storeWithPdf ["uploads/user_1/movie.mkv"%string] 1
                       (Some big) None) as [[response st'] disk'].
  intros [Hover _].
  destruct Hover as (Hst & _ & Hdisk & Hresp); [simpl; lia|].
  split; [exact Hst|]. split; [|exact Hdisk].
  apply Hresp. left. reflexivity.
Defined.

(** An upload into a folder that is not stored, or that belongs to someone
    else, is refused and changes nothing in the store. *)
Theorem upload_into_foreign_folder_is_refused
        (now : Date) (st : Store) (disk : Disk) (userId : Z)
        (upload : UploadedFile) (target : Z) :
  target <> 0 ->
  (forall folder, getFolder st target = Some folder ->
                  Folder.userId folder <> userId) ->
  let '(response, st', disk') :=
    postUpload now st disk userId (Some upload) (Some target) in
  st' = st
  /\ status response <> 201
  /\ (forall p, In p disk' -> In p disk).
Proof.
  intros Hnz Hforeign. unfold postUpload.
  destruct (getUser st userId) as [user|]; [|now repeat split].
  assert (Hdisk : forall (r1 r2 : Response File),
             status r1 <> 201 -> status r2 <> 201 ->
             let '(response, st', disk') :=
               match unlinkSync disk (up_path upload) with
               | Some disk' => (r1, st, disk')
               | None => (r2, st, disk)
               end in
             st' = st /\ status response <> 201
             /\ (forall p, In p disk' -> In p disk)).
  { intros r1 r2 H1 H2.
    destruct (unlinkSync disk (up_path upload)) as [disk'|] eqn:Hun.
    - apply unlinkSync_In in Hun as [_ Hrest].
      repeat split; auto. intros p Hp. now apply Hrest in Hp.
    - repeat split; auto. }
  destruct (_ >? _); [apply Hdisk; simpl; lia|].
  assert (Htruthy : truthy (Some target) = true)
    by (simpl; apply Z.eqb_neq in Hnz; now rewrite Hnz).
  rewrite Htruthy.
  destruct (getFolder st target) as [folder|] eqn:Hfolder.
  - specialize (Hforeign folder eq_refl). apply Z.eqb_neq in Hforeign.
    rewrite Hforeign. simpl negb. cbv iota. apply Hdisk; simpl; lia.
  - simpl negb. cbv iota. apply Hdisk; simpl; lia.
Qed.

Lemma upload_into_foreign_folder_is_refused_witness :
  let note := {| originalname := "n.txt"; mimetype := "text/plain";
                 up_size := 10; up_path := "uploads/user_1/n.txt" |} in
  let '(response, st', disk') :=
    postUpload 900 twoUsers ("uploads/user_1/n.txt"%string :: twoUsersDisk) 1
               (Some note) (Some 1) in
  st' = twoUsers /\ status response <> 201
  /\ (forall p, In p disk' ->
                In p ("uploads/user_1/n.txt"%string :: twoUsersDisk)).
Proof.
  intros note.
  apply (upload_into_foreign_folder_is_refused
           900 twoUsers ("uploads/user_1/n.txt"%string :: twoUsersDisk) 1
           note 1).
  - discriminate.
  - intros folder [= <-]. discriminate.
Defined.

(** ** Changing files and folders through the routes *)

(** PATCH /api/files/:id on a file of the requester, without a move.  The
    stored file keeps its id, owner, size, type, path and folder, and no
    user record changes.  Moving it to the trash sets [inTrash], stamps
    [deletedAt] and leaves [lastAccessedAt] alone, after which the trash
    view has the file and the starred view has not; taking it out clears
    [deletedAt]; every request that is not a move to trash stamps
    [lastAccessedAt]. *)
Theorem owner_trashes_and_restores_file
        (now : Date) (st : Store) (userId : Z) (fileId : Z) (body : FilePatch)
        (file : File) :
  getFile st fileId = Some file ->
  File.userId file = userId ->
  fip_folderId body = None ->
  exists updated st',
    patchFile now st userId fileId body = (json 200 (Some updated), st')
    /\ getFile st' fileId = Some updated
    /\ users st' = users st /\ folders st' = folders st
    /\ shares st' = shares st
    /\ File.id updated = File.id file
    /\ File.userId updated = userId
    /\ File.size updated = File.size file
    /\ File.type updated = File.type file
    /\ File.path updated = File.path file
    /\ File.folderId updated = File.folderId file
    /\ File.name updated = spread (File.name file) (fip_name body)
    /\ File.starred updated
       = spread (File.starred file) (option_map Some (fip_starred body))
    /\ File.modifiedAt updated = Some now
    /\ (fip_inTrash body = Some true ->
        File.inTrash updated = Some true
        /\ File.lastAccessedAt updated = File.lastAccessedAt file
        /\ (File.inTrash file <> Some true ->
            File.deletedAt updated = Some now)
        /\ In (withUrl updated) (getTrashedFiles st' userId)
        /\ ~ In (withUrl updated) (getStarredFiles st' userId))
    /\ (fip_inTrash body = Some false ->
        File.inTrash updated = Some false
        /\ File.lastAccessedAt updated = Some now
        /\ (File.inTrash file <> Some false -> File.deletedAt updated = None))
    /\ (fip_inTrash body = None ->
        File.inTrash updated = File.inTrash file
        /\ File.deletedAt updated = File.deletedAt file
        /\ File.lastAccessedAt updated = Some now).
Proof.
  intros Hfile Hu Hmove. unfold patchFile. rewrite Hfile, Hmove.
  apply Z.eqb_eq in Hu. rewrite Hu. simpl negb. cbv iota.
  unfold updateFile. unfold getFile in Hfile. rewrite Hfile. cbv zeta.
  cbn [pf_size]. apply Z.eqb_eq in Hu.
  eexists; eexists. split; [reflexivity|].
  split; [apply JsMapFacts.get_set_same|].
  cbn -[getTrashedFiles getStarredFiles withUrl].
  do 12 (split; [auto|]).
  split; [|split].
  - intros ->. cbn -[getTrashedFiles getStarredFiles withUrl].
    assert (Hflag :
              spread (File.inTrash file)
                     (option_map Some
                                 (if differs true (File.inTrash file)
                                  then Some true else None)) = Some true).
    { destruct (File.inTrash file) as [[]|]; reflexivity. }
    split; [exact Hflag|]. split; [reflexivity|]. split.
    + intros Hnot. destruct (File.inTrash file) as [[]|]; simpl; congruence.
    + split.
      * apply getTrashedFiles_members. eexists. split; [reflexivity|].
        split; [apply JsMapFacts.values_set_new|]. split; [exact Hu|].
        exact Hflag.
      * intros Hin. apply getStarredFiles_members in Hin
          as (f & Heq & _ & _ & _ & Hnot).
        apply (f_equal fwp_file) in Heq. simpl in Heq. subst f.
        apply Hnot. exact Hflag.
  - intros ->. cbn. split.
    + destruct (File.inTrash file) as [[]|]; reflexivity.
    + split; [reflexivity|]. intros Hnot.
      destruct (File.inTrash file) as [[]|]; simpl; congruence.
  - intros ->. cbn. auto.
Qed.

Lemma owner_trashes_and_restores_file_witness :
  exists updated st',
    patchFile 400 storeWithPdf 1 1
              {| fip_name := None; fip_folderId := None; fip_starred := None;
                 fip_inTrash := Some true |}
    = (json 200 (Some updated), st')
    /\ File.inTrash updated = Some true
    /\ File.deletedAt updated = Some 400
    /\ In (withUrl updated) (getTrashedFiles st' 1).
Proof.
  destruct (owner_trashes_and_restores_file
              400 storeWithPdf 1 1
              {| fip_name := None; fip_folderId := None; fip_starred := None;
                 fip_inTrash := Some true |} thePdf eq_refl eq_refl eq_refl)
    as (updated & st' & Hrun & H).
  decompose [and] H. clear H.
  match goal with
  | Ht : _ = Some true -> _ |- _ =>
      destruct (Ht eq_refl) as (Hflag & _ & Hdel & Hview & _)
  end.
  exists updated, st'. split; [exact Hrun|]. split; [exact Hflag|].
  split; [apply Hdel; discriminate | exact Hview].
Defined.

(** A file can be moved only into a folder of its owner: a PATCH that
    names another folder is answered 400, with the store unchanged, when
    that folder is not stored or belongs to someone else, and moves the
    file when the folder is the requester's. *)
Theorem file_moves_only_into_own_folder
        (now : Date) (st : Store) (userId : Z) (fileId : Z) (body : FilePatch)
        (file : File) (target : Z) :
  getFile st fileId = Some file ->
  File.userId file = userId ->
  fip_folderId body = Some (Some target) ->
  File.folderId file <> Some target ->
  ((forall folder, getFolder st target = Some folder ->
                   Folder.userId folder <> userId) ->
   patchFile now st userId fileId body = (message 400 "Invalid folder", st))
  /\ (forall folder,
         getFolder st target = Some folder ->
         Folder.userId folder = userId ->
         exists updated st',
           patchFile now st userId fileId body = (json 200 (Some updated), st')
           /\ getFile st' fileId = Some updated
           /\ File.folderId updated = Some target
           /\ File.userId updated = userId
           /\ File.size updated = File.size file
           /\ users st' = users st).
Proof.
  intros Hfile Hu Hmove Hother. unfold patchFile. rewrite Hfile, Hmove.
  apply Z.eqb_eq in Hu. rewrite Hu. simpl negb. cbv iota.
  assert (Hdiff : same_parent (Some target) (File.folderId file) = false).
  { apply not_true_is_false. intros H. apply same_parent_eq in H. congruence. }
  unfold same_parent in Hdiff. rewrite Hdiff. split.
  - intros Hforeign. destruct (getFolder st target) as [folder|] eqn:Hfolder.
    + specialize (Hforeign folder eq_refl). apply Z.eqb_neq in Hforeign.
      now rewrite Hforeign.
    + reflexivity.
  - intros folder -> Hown. apply Z.eqb_eq in Hown. rewrite Hown.
    simpl negb. cbv iota.
    unfold updateFile. unfold getFile in Hfile. rewrite Hfile. cbv zeta.
    cbn [pf_size]. apply Z.eqb_eq in Hu.
    eexists; eexists. split; [reflexivity|].
    split; [apply JsMapFacts.get_set_same|]. cbn. auto.
Qed.

Lemma file_moves_only_into_own_folder_witness :
  patchFile 900 twoUsers 1 1
            {| fip_name := None; fip_folderId := Some (Some 1);
               fip_starred := None; fip_inTrash := None |}
  = (message 400 "Invalid folder", twoUsers).
Proof.
  eapply (file_moves_only_into_own_folder 900 twoUsers 1 1 _ thePdf 1);
    try reflexivity; try discriminate.
  intros folder [= <-]. discriminate.
Defined.

Lemma acyclic_fewer_edges (st st' : Store) :
  (forall p c, child_of st' p c -> child_of st p c) ->
  acyclic st -> acyclic st'.
Proof.
  intros Hsub Hacyclic g Hcycle. apply (Hacyclic g).
  assert (Hmono : forall a b, clos_trans Z (child_of st') a b ->
                              clos_trans Z (child_of st) a b).
  { induction 1 as [a b H|a b c _ IH1 _ IH2].
    - apply t_step. now apply Hsub.
    - eapply t_trans; eauto. }
  now apply Hmono.
Qed.

(** PATCH /api/folders/:id on a folder of the requester stamps
    [modifiedAt] with the time of the request and changes at most the name,
    the star and the trash state: the folder keeps its id, owner and
    parent, every other folder is untouched, and a store without cycles
    stays without cycles. *)
Theorem owner_patches_folder
        (now : Date) (st : Store) (userId : Z) (folderId : Z)
        (body : FolderPatch) (folder : Folder) :
  getFolder st folderId = Some folder ->
  Folder.userId folder = userId ->
  exists updated st',
    patchFolder now st userId folderId body = (json 200 (Some updated), st')
    /\ getFolder st' folderId = Some updated
    /\ (forall k, k <> folderId -> getFolder st' k = getFolder st k)
    /\ users st' = users st /\ files st' = files st /\ shares st' = shares st
    /\ Folder.modifiedAt updated = Some now
    /\ Folder.id updated = Folder.id folder
    /\ Folder.userId updated = userId
    /\ Folder.parentId updated = Folder.parentId folder
    /\ Folder.createdAt updated = Folder.createdAt folder
    /\ Folder.name updated = spread (Folder.name folder) (fp_name body)
    /\ Folder.starred updated
       = spread (Folder.starred folder) (option_map Some (fp_starred body))
    /\ (forall inTrash, fp_inTrash body = Some inTrash ->
                        Folder.inTrash updated = Some inTrash
                        /\ (Folder.inTrash folder <> Some inTrash ->
                            Folder.deletedAt updated
                            = if inTrash then Some now else None))
    /\ (fp_inTrash body = None ->
        Folder.inTrash updated = Folder.inTrash folder
        /\ Folder.deletedAt updated = Folder.deletedAt folder)
    /\ (acyclic st -> acyclic st').
Proof.
  intros Hfolder Hu. unfold patchFolder. rewrite Hfolder.
  apply Z.eqb_eq in Hu. rewrite Hu. simpl negb. cbv iota.
  unfold updateFolder. unfold getFolder in Hfolder. rewrite Hfolder.
  apply Z.eqb_eq in Hu.
  eexists; eexists. split; [reflexivity|].
  split; [apply JsMapFacts.get_set_same|].
  split; [intros k Hk; now apply JsMapFacts.get_set_other|].
  cbn -[acyclic]. do 10 (split; [auto|]).
  split; [|split].
  - intros inTrash ->. cbn. split.
    + destruct inTrash, (Folder.inTrash folder) as [[]|]; reflexivity.
    + intros Hnot.
      destruct inTrash, (Folder.inTrash folder) as [[]|]; simpl; congruence.
  - intros ->. cbn. auto.
  - apply acyclic_fewer_edges. intros p c (f & Hin & Hp & Hc).
    simpl in Hin. apply JsMapFacts.values_set_inv in Hin as [->|Hin].
    + exists folder. split; [apply (JsMapFacts.get_some_values _ _ Hfolder)|].
      simpl in Hp, Hc. auto.
    + exists f. auto.
Qed.

Lemma owner_patches_folder_witness :
  exists updated st',
    patchFolder 500 storeWithDocs 1 1
                {| fp_name := Some "papers"%string; fp_starred := Some true;
                   fp_inTrash := None |}
    = (json 200 (Some updated), st')
    /\ Folder.modifiedAt updated = Some 500
    /\ Folder.name updated = "papers"%string.
Proof.
  destruct (owner_patches_folder
              500 storeWithDocs 1 1
              {| fp_name := Some "papers"%string; fp_starred := Some true;
                 fp_inTrash := None |} theDocs eq_refl eq_refl)
    as (updated & st' & Hrun & _ & _ & _ & _ & _ & Hmod & _ & _ & _ & _
        & Hname & _).
  exists updated, st'. split; [exact Hrun|]. split; [exact Hmod|].
  rewrite Hname. reflexivity.
Defined.

(** DELETE /api/folders/:id by the owner, on a store without cycles:
    the request is answered 204 within one nested call per stored folder
    plus one, the folder is gone, nothing was added to the store, and in a
    store whose records are stored under their ids nothing is left in the
    folder or in anything else that went away. *)
Theorem owner_deletes_folder
        (st : Store) (userId : Z) (folderId : Z) (folder : Folder) :
  acyclic st ->
  getFolder st folderId = Some folder ->
  Folder.userId folder = userId ->
  exists st',
    deleteFolderRoute (S (List.length (folders st))) st userId folderId
    = Some (noContent, st')
    /\ getFolder st' folderId = None
    /\ shrinks st st'
    /\ (stored_by_id st ->
        no_orphans st st'
        /\ (forall file, In file (JsMap.values (files st')) ->
                         File.folderId file <> Some folderId)
        /\ (forall sub, In sub (JsMap.values (folders st')) ->
                        Folder.parentId sub <> Some folderId)).
Proof.
  intros Hacyclic Hfolder Hu. unfold deleteFolderRoute. rewrite Hfolder.
  apply Z.eqb_eq in Hu. rewrite Hu. simpl negb. cbv iota.
  destruct (deleteFolder_enough_fuel (S (List.length (folders st))) st folderId
              (acyclic_shallower st folderId Hacyclic)) as (b & st' & Hrun).
  rewrite Hrun. exists st'. split; [reflexivity|].
  split; [eapply deleteFolder_gone; eauto|].
  split; [eapply deleteFolder_shrinks; eauto|].
  intros Hst.
  destruct (deleteFolder_cleans _ _ _ _ _ Hrun) as [Hc Hown].
  destruct (Hc Hst) as (_ & _ & Ho). destruct (Hown Hst) as [HA HB]. auto.
Qed.

Lemma owner_deletes_folder_witness :
  exists st',
    deleteFolderRoute 4 nestedStore 1 1 = Some (noContent, st')
    /\ getFolder st' 1 = None.
Proof.
  assert (Hfolder : exists folder, getFolder nestedStore 1 = Some folder
                                   /\ Folder.userId folder = 1)
    by (eexists; split; reflexivity).
  destruct Hfolder as (folder & Hfolder & Hu).
  destruct (owner_deletes_folder nestedStore 1 1 folder nestedStore_acyclic
                                 Hfolder Hu) as (st' & Hrun & Hgone & _).
  exists st'. split; assumption.
Defined.

(** DELETE /api/files/:id by the owner is answered 204: the file is gone
    from the store, its path is gone from the upload directory while every
    other path stays, no folder changes, and a user whose [storageUsed] was
    the total size of the user's files still has it so. *)
Theorem owner_deletes_file
        (st : Store) (disk : Disk) (userId : Z) (fileId : Z) (file : File) :
  getFile st fileId = Some file ->
  File.userId file = userId ->
  let '(response, st', disk') := deleteFileRoute st disk userId fileId in
  response = noContent
  /\ getFile st' fileId = None
  /\ ~ In (File.path file) disk'
  /\ (forall p, p <> File.path file -> (In p disk' <-> In p disk))
  /\ folders st' = folders st
  /\ (accounting_ok st ->
      forall u, accounted st u -> accounted st' u).
Proof.
  intros Hfile Hu. unfold deleteFileRoute. rewrite Hfile.
  apply Z.eqb_eq in Hu. rewrite Hu. simpl negb. cbv iota.
  split; [reflexivity|].
  destruct (deleteFile_cleans st fileId) as [_ Hgone].
  destruct (deleteFile_shrinks st fileId) as [_ Hfolders].
  split; [exact Hgone|].
  assert (Hdisk :
            ~ In (File.path file)
                 (if existsSync disk (File.path file)
                  then match unlinkSync disk (File.path file) with
                       | Some d => d
                       | None => disk
                       end
                  else disk)
            /\ forall p, p <> File.path file ->
                         (In p (if existsSync disk (File.path file)
                                then match unlinkSync disk (File.path file) with
                                     | Some d => d
                                     | None => disk
                                     end
                                else disk) <-> In p disk)).
  { destruct (existsSync disk (File.path file)) eqn:Hex.
    - destruct (unlinkSync disk (File.path file)) as [d|] eqn:Hun.
      + apply unlinkSync_In in Hun as [_ Hrest]. split.
        * intros Hin. apply Hrest in Hin. tauto.
        * intros p Hp. rewrite Hrest. tauto.
      + unfold unlinkSync in Hun. rewrite Hex in Hun. discriminate.
    - split; [|tauto]. intros Hin. apply existsSync_iff in Hin. congruence. }
  destruct Hdisk as [Hgone' Hrest].
  split; [exact Hgone'|]. split; [exact Hrest|]. split; [exact Hfolders|].
  intros Hok u Hacc. now apply accounted_deleteFile.
Qed.

Lemma owner_deletes_file_witness :
  let '(response, st', disk') := deleteFileRoute twoUsers twoUsersDisk 1 1 in
  response = noContent
  /\ getFile st' 1 = None
  /\ ~ In "uploads/user_1/a.pdf"%string disk'.
Proof.
  pose proof (owner_deletes_file twoUsers twoUsersDisk 1 1 thePdf
                                 eq_refl eq_refl) as H.
  revert H.
  destruct (deleteFileRoute twoUsers twoUsersDisk 1 1) as [[response st'] disk'].
  intros (Hresp & Hgone & Hdisk & _). auto.
Defined.

(** ** The client helper [truncateString] *)

Section TruncateFacts.
Context {U : Type}.
Variable dot : U.

Lemma truncateString_length (str : list U) (maxLength : Z) :
  Z.of_nat (List.length (truncateString dot str maxLength))
  <= Z.max 0 maxLength + 3.
Proof.
  unfold truncateString, substring0.
  destruct (Z.of_nat (List.length str) <=? maxLength) eqn:E.
  - apply Z.leb_le in E. lia.
  - apply Z.leb_gt in E. rewrite length_app, length_firstn. simpl. lia.
Qed.

(** [truncateString] returns a string that fits as it is; it cuts a longer
    one to its first [maxLength] code units followed by three dots, so the
    result is never longer than [maxLength + 3] (3 for a negative
    [maxLength]); and truncating the result again changes nothing. *)
Theorem truncateString_cuts_once (str : list U) (maxLength : Z) :
  (Z.of_nat (List.length str) <= maxLength ->
   truncateString dot str maxLength = str)
  /\ (maxLength < Z.of_nat (List.length str) ->
      truncateString dot str maxLength
      = firstn (Z.to_nat maxLength) str ++ [dot; dot; dot]
      /\ Z.of_nat (List.length (truncateString dot str maxLength))
         = Z.max 0 maxLength + 3)
  /\ Z.of_nat (List.length (truncateString dot str maxLength))
     <= Z.max 0 maxLength + 3
  /\ truncateString dot (truncateString dot str maxLength) maxLength
     = truncateString dot str maxLength.
Proof.
  split; [|split; [|split; [apply truncateString_length|]]].
  - intros Hfit. unfold truncateString. apply Z.leb_le in Hfit.
    now rewrite Hfit.
  - intros Hlong. unfold truncateString, substring0.
    apply Z.leb_gt in Hlong. rewrite Hlong. split; [reflexivity|].
    apply Z.leb_gt in Hlong. rewrite length_app, length_firstn. simpl. lia.
  - unfold truncateString at 2. unfold substring0.
    destruct (Z.of_nat (List.length str) <=? maxLength) eqn:E.
    + unfold truncateString. now rewrite E.
    + pose proof E as Eb. apply Z.leb_gt in E.
      unfold truncateString, substring0. rewrite Eb.
      assert (Hlen : List.length (firstn (Z.to_nat maxLength) str)
                     = Z.to_nat maxLength)
        by (rewrite length_firstn; lia).
      assert (Hlong : (Z.of_nat (List.length (firstn (Z.to_nat maxLength) str
                                                ++ [dot; dot; dot]))
                       <=? maxLength) = false).
      { apply Z.leb_gt. rewrite length_app, Hlen. simpl. lia. }
      rewrite Hlong. f_equal.
      rewrite firstn_app, Hlen, Nat.sub_diag. simpl. rewrite app_nil_r.
      rewrite firstn_firstn. now rewrite Nat.min_id.
Qed.
End TruncateFacts.

Example truncateString_sample :
  truncateString "."%char (list_ascii_of_string "quarterly-report.pdf") 9
  = list_ascii_of_string "quarterly...".
Proof. reflexivity. Qed.

(** ** Sharing *)

(** Sharing a file puts it into the sharer's shared view: a file of the
    user that is not in the trash is listed by [getSharedFiles] once the
    user has a share of it, and was not listed before if the user had none
    and its [isShared] flag was not set. *)
Theorem shared_file_shows_in_shared_view
        (now : Date) (token : string) (st : Store) (share : InsertShare)
        (file : File) :
  getFile st (File.id file) = Some file ->
  File.userId file = is_userId share ->
  is_fileId share = Some (File.id file) ->
  File.inTrash file <> Some true ->
  In (withUrl file)
     (getSharedFiles (snd (createShare now token st share)) (is_userId share))
  /\ (File.isShared file <> Some true ->
      (forall other, In other (JsMap.values (shares st)) ->
                     Share.userId other = is_userId share ->
                     Share.fileId other <> Some (File.id file)) ->
      ~ In (withUrl file) (getSharedFiles st (is_userId share))).
Proof.
  intros Hfile Hu Hfid Htrash. split.
  - apply getSharedFiles_members. exists file. split; [reflexivity|].
    split; [apply (JsMapFacts.get_some_values _ _ Hfile)|].
    split; [exact Hu|]. split; [exact Htrash|]. right.
    exists (fst (createShare now token st share)).
    split; [apply JsMapFacts.values_set_new|]. split; [reflexivity|].
    exact Hfid.
  - intros Hflag Hnone Hin.
    apply getSharedFiles_members in Hin as (f & Heq & _ & _ & _ & Hs).
    apply (f_equal fwp_file) in Heq. simpl in Heq. subst f.
    destruct Hs as [Hs|(other & Hin & Hou & Hof)]; [contradiction|].
    exact (Hnone other Hin Hou Hof).
Qed.

Lemma shared_file_shows_in_shared_view_witness :
  In (withUrl thePdf) (getSharedFiles storeWithSharedPdf 1)
  /\ ~ In (withUrl thePdf) (getSharedFiles storeWithPdf 1).
Proof.
  destruct (shared_file_shows_in_shared_view 150 "c0ffee" storeWithPdf pdfShare
                                             thePdf) as [Hafter Hbefore];
    try reflexivity; try discriminate.
  split; [exact Hafter|]. apply Hbefore; [discriminate|]. intros other [].
Defined.

(** Nobody can share what belongs to someone else: POST /api/shares for a
    file, or for a folder, that is not stored or is not the requester's is
    answered 403 and stores nothing. *)
Theorem foreign_item_cannot_be_shared
        (now : Date) (token : string) (st : Store) (userId : Z)
        (body : ShareRequest) (target : Z) :
  target <> 0 ->
  (sr_fileId body = Some target ->
   truthy (sr_folderId body) = false ->
   (forall file, getFile st target = Some file ->
                 File.userId file <> userId) ->
   postShares now token st userId body
   = (message 403 "Unauthorized to share this file", st))
  /\ (sr_folderId body = Some target ->
      truthy (sr_fileId body) = false ->
      (forall folder, getFolder st target = Some folder ->
                      Folder.userId folder <> userId) ->
      postShares now token st userId body
      = (message 403 "Unauthorized to share this folder", st)).
Proof.
  intros Hnz.
  assert (Htruthy : truthy (Some target) = true)
    by (simpl; apply Z.eqb_neq in Hnz; now rewrite Hnz).
  unfold postShares. split.
  - intros -> -> Hforeign. rewrite Htruthy. simpl.
    destruct (getFile st target) as [file|] eqn:Hfile; [|reflexivity].
    specialize (Hforeign file eq_refl). apply Z.eqb_neq in Hforeign.
    now rewrite Hforeign.
  - intros -> Hfile Hforeign. rewrite Htruthy, Hfile. simpl.
    assert (Hok : match sr_fileId body with
                  | Some _ => true
                  | None => true
                  end = true) by now destruct (sr_fileId body).
    rewrite Hok. simpl.
    destruct (getFolder st target) as [folder|] eqn:Hfolder; [|reflexivity].
    specialize (Hforeign folder eq_refl). apply Z.eqb_neq in Hforeign.
    now rewrite Hforeign.
Qed.

Lemma foreign_item_cannot_be_shared_witness :
  postShares 900 "feed" twoUsers 1
             {| sr_fileId := Some 2; sr_folderId := None;
                sr_accessType := None; sr_allowDownload := None;
                sr_expiryDate := None |}
  = (message 403 "Unauthorized to share this file", twoUsers).
Proof.
  eapply (foreign_item_cannot_be_shared 900 "feed" twoUsers 1 _ 2);
    [discriminate | reflexivity | reflexivity |].
  intros file [= <-]. discriminate.
Defined.

(** The list of a user's shares and the lookup by token agree: when tokens
    are unique, every entry of [getSharesByUserId] is a stored share of
    that user, and it is what [getShareByToken] returns for its token. *)
Theorem listed_share_resolves_by_its_token
        (now : Date) (st : Store) (userId : Z) (details : ShareWithDetails) :
  (forall a b, In a (JsMap.values (shares st)) ->
               In b (JsMap.values (shares st)) ->
               Share.token a = Share.token b -> a = b) ->
  In details (getSharesByUserId st userId) ->
  In (swd_share details) (JsMap.values (shares st))
  /\ Share.userId (swd_share details) = userId
  /\ getShareByToken now st (Share.token (swd_share details)) = Some details.
Proof.
  intros Huniq Hin. unfold getSharesByUserId in Hin.
  apply in_map_iff in Hin as (share & <- & Hin).
  apply filter_In in Hin as [Hin Hu]. apply Z.eqb_eq in Hu.
  simpl. split; [exact Hin|]. split; [exact Hu|].
  unfold getShareByToken.
  rewrite (find_unique _ share _ Hin); auto.
  - apply String.eqb_refl.
  - intros y Hy Heq. apply String.eqb_eq in Heq. now apply Huniq.
Qed.

Lemma listed_share_resolves_by_its_token_witness :
  Forall (fun details =>
            getShareByToken 900 storeWithSharedPdf
                            (Share.token (swd_share details)) = Some details)
         (getSharesByUserId storeWithSharedPdf 1).
Proof.
  apply Forall_forall. intros details Hin.
  apply (listed_share_resolves_by_its_token 900 storeWithSharedPdf 1 details);
    [|exact Hin].
  simpl. intros a b [<-|[]] [<-|[]] _. reflexivity.
Defined.

(** ** The views of folders *)

Lemma trashed_flag (x : option bool) :
  match x with Some true => true | _ => false end = true <-> x = Some true.
Proof. destruct x as [[]|]; split; congruence. Qed.

(** Every entry of a folder view asked for on behalf of a user is a stored
    folder of that user together with its statistics.  A folder in the
    trash is left out of the starred and shared views; the trash view has
    it, and when its [parentId] is a number, so has the plain listing under
    that parent. *)
Theorem folder_views_show_own_folders
        (st : Store) (u : Z) (parent : option Z) :
  (forall entry,
      In entry (getFoldersByUserId st u parent)
      \/ In entry (getStarredFolders st u)
      \/ In entry (getSharedFolders st u)
      \/ In entry (getTrashedFolders st u) ->
      In (fws_folder entry) (JsMap.values (folders st))
      /\ Folder.userId (fws_folder entry) = u
      /\ entry = folderStats st (fws_folder entry))
  /\ (forall folder,
         In folder (JsMap.values (folders st)) ->
         Folder.userId folder = u ->
         Folder.inTrash folder = Some true ->
         ~ In folder (map fws_folder (getStarredFolders st u))
         /\ ~ In folder (map fws_folder (getSharedFolders st u))
         /\ In (folderStats st folder) (getTrashedFolders st u)
         /\ (forall p, Folder.parentId folder = Some p ->
                       In (folderStats st folder)
                          (getFoldersByUserId st u (Some p)))).
Proof.
  assert (Hview : forall (p : Folder -> bool) entry,
             In entry (map (folderStats st)
                           (filter (fun folder =>
                                      (Folder.userId folder =? u) && p folder)
                                   (JsMap.values (folders st)))) ->
             In (fws_folder entry) (JsMap.values (folders st))
             /\ Folder.userId (fws_folder entry) = u
             /\ entry = folderStats st (fws_folder entry)
             /\ p (fws_folder entry) = true).
  { intros p entry Hin. apply in_map_iff in Hin as (folder & <- & Hin).
    apply filter_In in Hin as [Hin Hc].
    apply andb_true_iff in Hc as [Hu Hp]. apply Z.eqb_eq in Hu.
    simpl. auto. }
  split.
  - intros entry [H|[H|[H|H]]].
    + apply Hview in H. tauto.
    + unfold getStarredFolders in H.
      erewrite filter_ext in H; [apply Hview in H; tauto|].
      intros a. simpl. now rewrite andb_assoc.
    + unfold getSharedFolders in H.
      erewrite filter_ext in H; [apply Hview in H; tauto|].
      intros a. simpl. now rewrite andb_assoc.
    + apply Hview in H. tauto.
  - intros folder Hin Hu Htrash. repeat split.
    + intros H. apply in_map_iff in H as (entry & <- & H).
      unfold getStarredFolders in H.
      apply in_map_iff in H as (f & <- & H). simpl in Htrash.
      apply filter_In in H as [_ Hc]. apply andb_true_iff in Hc as [_ Hc].
      now rewrite Htrash in Hc.
    + intros H. apply in_map_iff in H as (entry & <- & H).
      unfold getSharedFolders in H.
      apply in_map_iff in H as (f & <- & H). simpl in Htrash.
      apply filter_In in H as [_ Hc]. apply andb_true_iff in Hc as [_ Hc].
      now rewrite Htrash in Hc.
    + unfold getTrashedFolders. apply in_map. apply filter_In.
      split; auto. apply Z.eqb_eq in Hu. now rewrite Hu, Htrash.
    + intros p Hp. unfold getFoldersByUserId. apply in_map. apply filter_In.
      split; auto. apply Z.eqb_eq in Hu. rewrite Hu, Hp. simpl.
      apply Z.eqb_refl.
Qed.

Lemma folder_views_show_own_folders_witness :
  Forall (fun entry => Folder.userId (fws_folder entry) = 2)
         (getFoldersByUserId twoUsers 2 None).
Proof.
  apply Forall_forall. intros entry Hin.
  destruct (folder_views_show_own_folders twoUsers 2 None) as [Hown _].
  apply Hown. left. exact Hin.
Defined.

(** ** The folder tree under the routes *)

Lemma deleteFiles_counter (l : list File) (st : Store) :
  currentFolderId (deleteFiles l st) = currentFolderId st.
Proof.
  revert st. induction l as [|file l IH]; intros st; simpl; auto.
  rewrite IH. unfold deleteFile.
  destruct (JsMap.get (File.id file) (files st)) as [f|]; simpl; auto.
  unfold updateUserStorageUsed.
  now destruct (JsMap.get (File.userId f) (users st)).
Qed.

Lemma deleteFolder_counter (fuel : nat) :
  forall st id b st',
    deleteFolder fuel st id = Some (b, st') ->
    currentFolderId st' = currentFolderId st.
Proof.
  induction fuel as [|fuel IH]; intros st id b st'; [discriminate|].
  rewrite deleteFolder_S. cbv zeta.
  destruct (deleteSubfolders fuel _ _) as [st2|] eqn:Hloop; [|discriminate].
  intros [= _ <-]. simpl.
  rewrite (deleteSubfolders_lift
             (fun s s' => currentFolderId s' = currentFolderId s) fuel
             (fun s => eq_refl)
             (fun a b c H1 H2 => eq_trans H2 H1) IH _ _ _ Hloop).
  apply deleteFiles_counter.
Qed.

Lemma parents_first_acyclic (st : Store) : parents_first st -> acyclic st.
Proof.
  intros (_ & _ & Hedges). apply acyclic_by_rank.
  intros p c (folder & Hin & Hp & <-). eapply Hedges; eauto.
Qed.

Lemma parents_first_shrinks (st st' : Store) :
  parents_first st -> shrinks st st' ->
  currentFolderId st' = currentFolderId st -> parents_first st'.
Proof.
  intros (Hbelow & Hids & Hedges) Hs Hnext.
  pose proof (incl_values _ _ (sh_folders Hs)) as Hvalues.
  split; [|split].
  - rewrite Hnext. intros k Hk. apply Hbelow.
    unfold JsMap.keys in *. apply in_map_iff in Hk as (e & <- & He).
    apply in_map. now apply (sh_folders Hs).
  - rewrite Hnext. intros folder Hin. apply Hids. now apply Hvalues.
  - intros folder p Hin. apply Hedges. now apply Hvalues.
Qed.

(** Through the folder routes the tree never gets a cycle.  A store in
    which every folder has a larger id than its parent, as a fresh store
    trivially is, stays so under POST, PATCH and DELETE on folders; such a
    store has no cycle, and so DELETE /api/folders/:id always answers. *)
Theorem folder_routes_keep_the_tree
        (toLowerCase : string -> string) (st : Store) :
  parents_first st ->
  acyclic st
  /\ (forall now userId name parentId,
         parents_first
           (snd (postFolders toLowerCase now st userId name parentId)))
  /\ (forall now userId folderId body,
         parents_first (snd (patchFolder now st userId folderId body)))
  /\ (forall fuel userId folderId response st',
         deleteFolderRoute fuel st userId folderId = Some (response, st') ->
         parents_first st')
  /\ (forall userId folderId,
         exists response st',
           deleteFolderRoute (S (List.length (folders st))) st userId folderId
           = Some (response, st')).
Proof.
  intros Hpf. pose proof (parents_first_acyclic st Hpf) as Hacyclic.
  destruct Hpf as (Hbelow & Hids & Hedges).
  assert (Hpf : parents_first st) by (split; [|split]; assumption).
  split; [exact Hacyclic|]. split; [|split; [|split]].
  - intros now userId name parentId. unfold postFolders.
    assert (Hcreate :
              (forall p, orNull parentId = Some p -> p < currentFolderId st) ->
              parents_first
                (snd (createFolder now st
                        {| ifo_name := name; ifo_userId := userId;
                           ifo_parentId := orNull parentId |}))).
    { intros Hparent. split; [|split]; simpl.
      - now apply below_set.
      - intros folder Hin.
        apply JsMapFacts.values_set_inv in Hin as [->|Hin]; simpl; [lia|].
        specialize (Hids folder Hin). lia.
      - intros folder p Hin Hp.
        apply JsMapFacts.values_set_inv in Hin as [->|Hin]; simpl in *.
        + now apply Hparent.
        + eapply Hedges; eauto. }
    destruct parentId as [p|].
    + destruct (getFolder st p) as [parentFolder|] eqn:Hparent; [|exact Hpf].
      destruct (negb (Folder.userId parentFolder =? userId)); [exact Hpf|].
      destruct (existsb _ _); [exact Hpf|].
      destruct (createFolder now st _) as [folder st'] eqn:Hrun.
      apply Hcreate. intros q Hq. unfold orNull in Hq.
      destruct (truthy (Some p)); [|discriminate]. injection Hq as <-.
      apply Hbelow. apply (JsMapFacts.get_some_keys _ _ Hparent).
    + destruct (existsb _ _); [exact Hpf|].
      destruct (createFolder now st _) as [folder st'] eqn:Hrun.
      apply Hcreate. intros q Hq. discriminate.
  - intros now userId folderId body. unfold patchFolder.
    destruct (getFolder st folderId) as [folder|] eqn:Hfolder; [|exact Hpf].
    destruct (negb (Folder.userId folder =? userId)); [exact Hpf|].
    unfold updateFolder. unfold getFolder in Hfolder. rewrite Hfolder.
    pose proof (JsMapFacts.get_some_values _ _ Hfolder) as Hin0.
    split; [|split]; simpl.
    + intros k Hk. rewrite JsMapFacts.keys_set_present in Hk by congruence.
      now apply Hbelow.
    + intros f Hin.
      apply JsMapFacts.values_set_inv in Hin as [->|Hin]; simpl; auto.
    + intros f p Hin Hp.
      apply JsMapFacts.values_set_inv in Hin as [->|Hin]; simpl in *;
        eapply Hedges; eauto.
  - intros fuel userId folderId response st'. unfold deleteFolderRoute.
    destruct (getFolder st folderId) as [folder|]; [|now intros [= _ <-]].
    destruct (negb (Folder.userId folder =? userId)); [now intros [= _ <-]|].
    destruct (deleteFolder fuel st folderId) as [[b s]|] eqn:Hrun;
      [|discriminate].
    intros [= _ <-]. apply (parents_first_shrinks st s Hpf).
    + eapply deleteFolder_shrinks; eauto.
    + eapply deleteFolder_counter; eauto.
  - intros userId folderId. unfold deleteFolderRoute.
    destruct (getFolder st folderId) as [folder|]; [|eauto].
    destruct (negb (Folder.userId folder =? userId)); [eauto|].
    destruct (deleteFolder_enough_fuel
                (S (List.length (folders st))) st folderId
                (acyclic_shallower st folderId Hacyclic)) as (b & s & ->).
    eauto.
Qed.

Lemma folder_routes_keep_the_tree_witness :
  acyclic (snd (postFolders asciiLower 300 storeWithDocs 1 "Music" (Some 1))).
Proof.
  assert (Hfresh : parents_first (constructor 0)).
  { split; [|split]; simpl; [intros k [] | intros f [] | intros f p []]. }
  destruct (folder_routes_keep_the_tree asciiLower (constructor 0) Hfresh)
    as (_ & Hpost & _).
  specialize (Hpost 100 1 "docs"%string None).
  change (snd (postFolders asciiLower 100 (constructor 0) 1 "docs" None))
    with storeWithDocs in Hpost.
  destruct (folder_routes_keep_the_tree asciiLower storeWithDocs Hpost)
    as (_ & Hpost' & _).
  destruct (folder_routes_keep_the_tree
              asciiLower _ (Hpost' 300 1 "Music"%string (Some 1)))
    as (Hacyclic & _).
  exact Hacyclic.
Defined.

Lemma truncateString_cuts_once_witness :
  truncateString "."%char (list_ascii_of_string "quarterly-report.pdf") 9
  = list_ascii_of_string "quarterly..."
  /\ truncateString "."%char (list_ascii_of_string "a.pdf") 9
     = list_ascii_of_string "a.pdf".
Proof.
  destruct (truncateString_cuts_once
              "."%char (list_ascii_of_string "quarterly-report.pdf") 9)
    as (_ & Hcut & _).
  destruct (truncateString_cuts_once
              "."%char (list_ascii_of_string "a.pdf") 9) as (Hfit & _).
  split.
  - destruct Hcut as [-> _]; [simpl; lia | reflexivity].
  - apply Hfit. simpl. lia.
Defined.

Lemma nestedStore_stored : stored_by_id nestedStore.
Proof. constructor; try concrete_keyed; concrete_wf. Qed.

Lemma deleteFolder_removes_contents_witness :
  exists st',
    deleteFolder 4 nestedStore 1 = Some (true, st')
    /\ getFolder st' 1 = None
    /\ no_orphans nestedStore st'.
Proof.
  eexists. split; [vm_compute; reflexivity|].
  match goal with
  | |- getFolder ?s 1 = None /\ _ =>
      destruct (deleteFolder_removes_contents 4 nestedStore 1 true s
                                              nestedStore_stored)
        as (Hgone & _ & _ & Hno); [vm_compute; reflexivity|]
  end.
  split; [exact Hgone | exact Hno].
Defined.

Lemma create_ids_fresh_witness :
  Folder.id (fst (createFolder 200 storeWithDocs
                                {| ifo_name := "more"; ifo_userId := 1;
                                   ifo_parentId := None |})) = 2
  /\ getFolder storeWithDocs 2 = None.
Proof.
  assert (Hahead : counters_ahead storeWithDocs).
  { destruct (create_ids_fresh 100 "" (constructor 0)
                {| ifo_name := "docs"; ifo_userId := 1; ifo_parentId := None |}
                noteInDocs pdfShare (constructor_counters_ahead 0))
      as ((_ & _ & H) & _).
    exact H. }
  destruct (create_ids_fresh 200 "" storeWithDocs
              {| ifo_name := "more"; ifo_userId := 1; ifo_parentId := None |}
              noteInDocs pdfShare Hahead) as ((Hid & Hnone & _) & _).
  split; [exact Hid | exact Hnone].
Defined.

(** ** The order in which a folder is deleted *)

Lemma deleteFile_maps (st : Store) (id : Z) :
  files (snd (deleteFile st id)) = JsMap.delete id (files st)
  /\ folders (snd (deleteFile st id)) = folders st.
Proof.
  unfold deleteFile.
  destruct (JsMap.get id (files st)) as [file|] eqn:E; simpl.
  - unfold updateUserStorageUsed.
    now destruct (JsMap.get (File.userId file) (users st)).
  - split; auto. symmetry. now apply JsMapFacts.delete_absent.
Qed.

Lemma deleteKeys_app {V : Type} (a b : list Z) (m : JsMap.t V) :
  deleteKeys (a ++ b) m = deleteKeys b (deleteKeys a m).
Proof. unfold deleteKeys. apply fold_left_app. Qed.

Lemma In_deleteKeys {V : Type} (ks : list Z) :
  forall (m : JsMap.t V) e,
    In e (deleteKeys ks m) <-> In e m /\ ~ In (fst e) ks.
Proof.
  induction ks as [|k ks IH]; intros m e; simpl; [tauto|].
  rewrite IH, JsMapFacts.In_delete. intuition congruence.
Qed.

Lemma filter_values_delete {V : Type} (c : V -> bool) (k : Z) (m : JsMap.t V) :
  (forall e, In e m -> c (snd e) = true -> fst e <> k) ->
  filter c (JsMap.values (JsMap.delete k m)) = filter c (JsMap.values m).
Proof.
  unfold JsMap.values, JsMap.delete.
  induction m as [|e m IH]; intros Hkeep; simpl; auto.
  assert (IH' := IH (fun x Hx => Hkeep x (or_intror Hx))).
  destruct (fst e =? k) eqn:E; simpl.
  - rewrite IH'. destruct (c (snd e)) eqn:Ec; auto.
    apply Z.eqb_eq in E. destruct (Hkeep e (or_introl eq_refl) Ec E).
  - now rewrite IH'.
Qed.

(** Deleting keys under which no record of a kind sits leaves the records
    of that kind as they are, in their order. *)
Lemma filter_values_deleteKeys {V : Type} (c : V -> bool) (ks : list Z) :
  forall m : JsMap.t V,
    (forall e, In e m -> c (snd e) = true -> ~ In (fst e) ks) ->
    filter c (JsMap.values (deleteKeys ks m)) = filter c (JsMap.values m).
Proof.
  induction ks as [|k ks IH]; intros m Hkeep; simpl; auto.
  rewrite IH.
  - apply filter_values_delete. intros e He Hc Heq.
    apply (Hkeep e He Hc). left. now symmetry.
  - intros e He Hc Hin. apply JsMapFacts.In_delete in He as [He _].
    apply (Hkeep e He Hc). now right.
Qed.

Lemma In_fileIds (i : Z) (log : list Deletion) :
  In i (fileIds log) <-> In (FileDeleted i) log.
Proof.
  unfold fileIds. rewrite in_flat_map. split.
  - intros ([j|j] & Hin & Hi); simpl in Hi; [|tauto].
    destruct Hi as [<-|[]]. exact Hin.
  - intros Hin. exists (FileDeleted i). simpl. auto.
Qed.

Lemma In_folderIds (i : Z) (log : list Deletion) :
  In i (folderIds log) <-> In (FolderDeleted i) log.
Proof.
  unfold folderIds. rewrite in_flat_map. split.
  - intros ([j|j] & Hin & Hi); simpl in Hi; [tauto|].
    destruct Hi as [<-|[]]. exact Hin.
  - intros Hin. exists (FolderDeleted i). simpl. auto.
Qed.

Lemma fileIds_app (a b : list Deletion) :
  fileIds (a ++ b) = fileIds a ++ fileIds b.
Proof. apply flat_map_app. Qed.

Lemma folderIds_app (a b : list Deletion) :
  folderIds (a ++ b) = folderIds a ++ folderIds b.
Proof. apply flat_map_app. Qed.

Lemma fileIds_files (l : list File) :
  fileIds (map (fun file => FileDeleted (File.id file)) l) = map File.id l
  /\ folderIds (map (fun file => FileDeleted (File.id file)) l) = [].
Proof. induction l as [|a l [IH1 IH2]]; simpl; split; auto. now rewrite IH1. Qed.

(** *** The traced run is the run *)

Lemma deleteFilesTraced_store (l : list File) :
  forall st, fst (deleteFilesTraced l st) = deleteFiles l st.
Proof.
  induction l as [|a l IH]; intros st; simpl; auto.
  unfold deleteFileTraced.
  destruct (deleteFile st (File.id a)) as [d s1].
  specialize (IH s1). destruct (deleteFilesTraced l s1) as [s2 log2].
  simpl in *. exact IH.
Qed.

Lemma deleteFolderTraced_S (fuel : nat) (st : Store) (id : Z) :
  deleteFolderTraced (S fuel) st id
  = let (st1, log1) := deleteFilesTraced (filesIn st id) st in
    match deleteSubfoldersTraced (deleteFolderTraced fuel)
                                 (subfoldersOf st1 id) st1 with
    | None => None
    | Some (st2, log2) =>
        Some (JsMap.has id (folders st2),
              with_folders st2 (JsMap.delete id (folders st2)),
              log1 ++ log2 ++ [FolderDeleted id])
    end.
Proof. reflexivity. Qed.

Lemma deleteSubfoldersTraced_store (k : nat) :
  (forall st id,
      option_map untraced (deleteFolderTraced k st id) = deleteFolder k st id) ->
  forall l st,
    option_map fst (deleteSubfoldersTraced (deleteFolderTraced k) l st)
    = deleteSubfolders k l st.
Proof.
  intros Hcall. induction l as [|a l IH]; intros st; [reflexivity|].
  rewrite deleteSubfolders_cons. simpl. rewrite <- Hcall.
  destruct (deleteFolderTraced k st (Folder.id a)) as [[[b s1] lg]|]; simpl; auto.
  rewrite <- IH.
  now destruct (deleteSubfoldersTraced (deleteFolderTraced k) l s1) as [[s2 l2]|].
Qed.

(** Dropping the log of the traced run gives the run of [deleteFolder]. *)
Lemma deleteFolderTraced_store (k : nat) :
  forall st id,
    option_map untraced (deleteFolderTraced k st id) = deleteFolder k st id.
Proof.
  induction k as [|k IH]; intros st id; [reflexivity|].
  rewrite deleteFolder_S, deleteFolderTraced_S. cbv zeta.
  pose proof (deleteFilesTraced_store (filesIn st id) st) as Hf.
  destruct (deleteFilesTraced (filesIn st id) st) as [st1 log1].
  simpl in Hf. rewrite <- Hf.
  rewrite <- (deleteSubfoldersTraced_store k IH).
  now destruct (deleteSubfoldersTraced (deleteFolderTraced k) _ st1)
    as [[s2 l2]|].
Qed.

Lemma deleteFolderTraced_run (k : nat) (st : Store) (id : Z) (b : bool)
      (st' : Store) (log : list Deletion) :
  deleteFolderTraced k st id = Some (b, st', log) ->
  deleteFolder k st id = Some (b, st').
Proof. intros H. rewrite <- deleteFolderTraced_store, H. reflexivity. Qed.

Lemma deleteFolder_traced (k : nat) (st : Store) (id : Z) (b : bool)
      (st' : Store) :
  deleteFolder k st id = Some (b, st') ->
  exists log, deleteFolderTraced k st id = Some (b, st', log).
Proof.
  rewrite <- deleteFolderTraced_store.
  destruct (deleteFolderTraced k st id) as [[[b1 s1] lg]|]; [|discriminate].
  intros [= <- <-]. now exists lg.
Qed.

(** *** The file phase *)

Lemma deleteFiles_maps (l : list File) :
  forall st,
    files (deleteFiles l st) = deleteKeys (map File.id l) (files st)
    /\ folders (deleteFiles l st) = folders st.
Proof.
  induction l as [|a l IH]; intros st; simpl; auto.
  destruct (IH (snd (deleteFile st (File.id a)))) as [-> ->].
  destruct (deleteFile_maps st (File.id a)) as [-> ->]. auto.
Qed.

Lemma deleteFilesTraced_log (l : list File) :
  forall st,
    NoDup (map File.id l) ->
    (forall f, In f l -> JsMap.get (File.id f) (files st) <> None) ->
    snd (deleteFilesTraced l st)
    = map (fun file => FileDeleted (File.id file)) l.
Proof.
  induction l as [|a l IH]; intros st Hnd Hall; simpl; auto.
  inversion Hnd as [|? ? Hnotin Hnd']; subst.
  unfold deleteFileTraced.
  destruct (deleteFile_maps st (File.id a)) as [Hfiles _].
  destruct (deleteFile st (File.id a)) as [d s1]. simpl in Hfiles.
  specialize (IH s1 Hnd').
  destruct (deleteFilesTraced l s1) as [s2 log2]. simpl in *.
  unfold JsMap.has.
  destruct (JsMap.get (File.id a) (files st)) eqn:E;
    [|destruct (Hall a (or_introl eq_refl) E)].
  simpl. f_equal. apply IH. intros f Hin. rewrite Hfiles.
  rewrite JsMapFacts.get_delete_other; [auto|].
  intros Heq. apply Hnotin. rewrite <- Heq. now apply in_map.
Qed.

Lemma ids_are_keys {V : Type} (id : V -> Z) (m : JsMap.t V) :
  JsMap.wf m -> keyed id m -> map id (JsMap.values m) = JsMap.keys m.
Proof.
  intros Hwf Hkeyed. unfold JsMap.values, JsMap.keys. rewrite map_map.
  apply map_ext_in. intros [k v] Hin. simpl.
  apply Hkeyed. now apply JsMapFacts.In_get.
Qed.

(** The records of one kind have pairwise distinct ids in a map that holds
    every record under its id. *)
Lemma ids_distinct {V : Type} (id : V -> Z) (keep : V -> bool) (m : JsMap.t V) :
  JsMap.wf m -> keyed id m -> NoDup (map id (filter keep (JsMap.values m))).
Proof.
  intros Hwf Hkeyed.
  assert (Hnd : NoDup (JsMap.values m)).
  { apply (NoDup_map_inv id). rewrite (ids_are_keys id m Hwf Hkeyed).
    exact Hwf. }
  apply NoDup_map_NoDup_ForallPairs; [|now apply NoDup_filter].
  intros x y Hx Hy Heq.
  apply filter_In in Hx as [Hx _]. apply filter_In in Hy as [Hy _].
  pose proof (stored_entry id m x Hwf Hkeyed Hx) as Gx.
  pose proof (stored_entry id m y Hwf Hkeyed Hy) as Gy.
  rewrite Heq in Gx. congruence.
Qed.

(** The file phase logs the files of the folder, in the order of the map. *)
Lemma deleteFilesTraced_filesIn (st : Store) (id : Z) :
  stored_by_id st ->
  deleteFilesTraced (filesIn st id) st
  = (deleteFiles (filesIn st id) st,
     map (fun file => FileDeleted (File.id file)) (filesIn st id)).
Proof.
  intros Hst.
  pose proof (deleteFilesTraced_store (filesIn st id) st) as Hs.
  pose proof (deleteFilesTraced_log (filesIn st id) st) as Hl.
  destruct (deleteFilesTraced (filesIn st id) st) as [s1 log1]. simpl in *.
  rewrite Hs, Hl; auto.
  - apply (ids_distinct File.id _ _ (sbi_files_wf Hst) (sbi_files Hst)).
  - intros f Hin. apply filter_In in Hin as [Hin _].
    rewrite (stored_entry File.id _ f (sbi_files_wf Hst) (sbi_files Hst) Hin).
    discriminate.
Qed.

(** *** The folder tree *)

Lemma unique_parent (st : Store) (p p' c : Z) :
  stored_by_id st -> child_of st p c -> child_of st p' c -> p = p'.
Proof.
  intros Hst (f & Hin & Hp & Hc) (f' & Hin' & Hp' & Hc').
  pose proof (stored_entry Folder.id _ f (sbi_folders_wf Hst)
                           (sbi_folders Hst) Hin) as Hget.
  pose proof (stored_entry Folder.id _ f' (sbi_folders_wf Hst)
                           (sbi_folders Hst) Hin') as Hget'.
  rewrite Hc in Hget. rewrite Hc' in Hget'. congruence.
Qed.

Lemma below_or_same (st : Store) (a b : Z) :
  clos_refl_trans Z (child_of st) a b ->
  a = b \/ clos_trans Z (child_of st) a b.
Proof.
  intros H. apply Operators_Properties.clos_rt_rtn1 in H.
  induction H as [|y z Hyz _ [->|IH]]; auto.
  - right. now apply t_step.
  - right. eapply t_trans; [exact IH | now apply t_step].
Qed.

Lemma below_last_step (st : Store) (a b : Z) :
  clos_trans Z (child_of st) a b ->
  exists p, clos_refl_trans Z (child_of st) a p /\ child_of st p b.
Proof.
  induction 1 as [a b H|a b c H1 _ _ (p & Hp & Hstep)].
  - exists a. split; [apply rt_refl | exact H].
  - exists p. split; [|exact Hstep].
    eapply rt_trans; [|exact Hp].
    now apply Operators_Properties.clos_t_clos_rt.
Qed.

(** The folders above a folder form a chain. *)
Lemma above_is_a_chain (st : Store) (a b h : Z) :
  stored_by_id st ->
  clos_refl_trans Z (child_of st) a h ->
  clos_refl_trans Z (child_of st) b h ->
  clos_refl_trans Z (child_of st) a b \/ clos_refl_trans Z (child_of st) b a.
Proof.
  intros Hst Ha. apply Operators_Properties.clos_rt_rtn1 in Ha.
  induction Ha as [|y z Hyz Ha IH]; intros Hb; [now right|].
  destruct (below_or_same st b z Hb) as [->|Hlt].
  - left. eapply rt_trans; [|apply rt_step; exact Hyz].
    now apply Operators_Properties.clos_rtn1_rt.
  - destruct (below_last_step st b z Hlt) as (p & Hbp & Hpz).
    rewrite (unique_parent st p y z Hst Hpz Hyz) in Hbp. auto.
Qed.

(** Two subfolders of one folder have nothing in common below them. *)
Lemma siblings_disjoint (st : Store) (p a b h : Z) :
  stored_by_id st -> acyclic st ->
  child_of st p a -> child_of st p b -> a <> b ->
  clos_refl_trans Z (child_of st) a h ->
  clos_refl_trans Z (child_of st) b h -> False.
Proof.
  intros Hst Hacyclic Hpa Hpb Hne Ha Hb.
  assert (Hcase : forall x y,
             child_of st p x -> child_of st p y -> x <> y ->
             clos_refl_trans Z (child_of st) x y -> False).
  { intros x y Hpx Hpy Hxy Hreach.
    destruct (below_or_same st x y Hreach) as [->|Hlt]; [now apply Hxy|].
    destruct (below_last_step st x y Hlt) as (q & Hxq & Hqy).
    rewrite (unique_parent st q p y Hst Hqy Hpy) in Hxq.
    apply (Hacyclic x).
    eapply Operators_Properties.clos_rt_t; [exact Hxq | now apply t_step]. }
  destruct (above_is_a_chain st a b h Hst Ha Hb) as [H|H].
  - now apply (Hcase a b).
  - apply (Hcase b a); auto.
Qed.

Lemma acyclic_shrinks (st st' : Store) :
  shrinks st st' -> acyclic st -> acyclic st'.
Proof.
  intros Hs Hacyclic g Hcycle. apply (Hacyclic g).
  now apply (descendant_shrinks st st').
Qed.

(** *** The walk *)

(** Every deletion of the walk below [g] is that of a file of a folder at or
    below [g], or that of a folder at or below [g]. *)
Lemma depthFirst_events (k : nat) (st : Store) :
  forall g d,
    In d (depthFirst k st g) ->
    match d with
    | FileDeleted i =>
        exists f h, In f (JsMap.values (files st)) /\ File.id f = i
                    /\ File.folderId f = Some h
                    /\ clos_refl_trans Z (child_of st) g h
    | FolderDeleted j => clos_refl_trans Z (child_of st) g j
    end.
Proof.
  induction k as [|k IH]; intros g d; simpl; [tauto|].
  intros Hin. apply in_app_or in Hin as [Hin|Hin];
    [|apply in_app_or in Hin as [Hin|[<-|[]]]].
  - apply in_map_iff in Hin as (f & <- & Hin).
    apply filter_In in Hin as [Hin Hf]. apply is_id_true in Hf.
    exists f, g. repeat split; auto. apply rt_refl.
  - apply in_flat_map in Hin as (sub & Hsub & Hin).
    apply filter_In in Hsub as [Hsub Hp]. apply is_id_true in Hp.
    assert (Hchild : clos_refl_trans Z (child_of st) g (Folder.id sub)).
    { apply rt_step. exists sub. auto. }
    specialize (IH _ _ Hin). destruct d as [i|j].
    + destruct IH as (f & h & Hf & Hi & Hh & Hreach).
      exists f, h. repeat split; auto. eapply rt_trans; eauto.
    + eapply rt_trans; eauto.
  - apply rt_refl.
Qed.

Lemma flat_map_ext_in {A B : Type} (f g : A -> list B) (l : list A) :
  (forall a, In a l -> f a = g a) -> flat_map f l = flat_map g l.
Proof.
  induction l as [|a l IH]; intros H; simpl; auto.
  rewrite (H a (or_introl eq_refl)), IH; auto.
  intros x Hx. apply H. now right.
Qed.

(** The walk below [g] reads the files and the subfolders of the folders at
    or below [g] only. *)
Lemma depthFirst_frame (k : nat) (st st' : Store) :
  forall g,
    (forall h, clos_refl_trans Z (child_of st) g h ->
               filesIn st' h = filesIn st h
               /\ subfoldersOf st' h = subfoldersOf st h) ->
    depthFirst k st' g = depthFirst k st g.
Proof.
  induction k as [|k IH]; intros g Hsame; simpl; auto.
  destruct (Hsame g (rt_refl _ _ g)) as [-> ->].
  f_equal. f_equal. apply flat_map_ext_in. intros sub Hsub.
  apply IH. intros h Hreach. apply Hsame.
  apply filter_In in Hsub as [Hsub Hp]. apply is_id_true in Hp.
  eapply rt_trans; [|exact Hreach]. apply rt_step. exists sub. auto.
Qed.

(** Below a subfolder that is still to be deleted the store is as it was
    before the call: what was deleted so far are the files of the folder
    and what the walks below the earlier subfolders name. *)
Lemma untouched_below_next (k : nat) (st s : Store) (id : Z)
      (done l : list Folder) (sub : Folder) (h : Z) :
  stored_by_id st -> acyclic st ->
  subfoldersOf st id = done ++ sub :: l ->
  let log := map (fun file => FileDeleted (File.id file)) (filesIn st id)
             ++ flat_map (fun d => depthFirst k st (Folder.id d)) done in
  files s = deleteKeys (fileIds log) (files st) ->
  folders s = deleteKeys (folderIds log) (folders st) ->
  clos_refl_trans Z (child_of st) (Folder.id sub) h ->
  filesIn s h = filesIn st h /\ subfoldersOf s h = subfoldersOf st h.
Proof.
  intros Hst Hacyclic Hsubs log Hfiles Hfolders Hreach.
  assert (Hchildren : forall d, In d (subfoldersOf st id) ->
                                child_of st id (Folder.id d)).
  { intros d Hd. apply filter_In in Hd as [Hd Hp]. apply is_id_true in Hp.
    exists d. auto. }
  assert (Hsub : child_of st id (Folder.id sub)).
  { apply Hchildren. rewrite Hsubs. apply in_or_app. right. now left. }
  assert (Hdone : forall d, In d done ->
                            child_of st id (Folder.id d)
                            /\ Folder.id d <> Folder.id sub).
  { intros d Hd. split.
    - apply Hchildren. rewrite Hsubs. apply in_or_app. now left.
    - assert (Hnd : NoDup (map Folder.id (subfoldersOf st id))).
      { apply (ids_distinct Folder.id _ _ (sbi_folders_wf Hst)
                             (sbi_folders Hst)). }
      rewrite Hsubs, map_app in Hnd. simpl in Hnd.
      apply NoDup_remove_2 in Hnd. intros Heq. apply Hnd.
      apply in_or_app. left. rewrite <- Heq. now apply in_map. }
  assert (Hrecord : forall e f, In e (files st) ->
                                In f (JsMap.values (files st)) ->
                                File.id f = fst e -> snd e = f).
  { intros [k' v] f He Hf Hid. simpl in *.
    pose proof (JsMapFacts.In_get k' v (sbi_files_wf Hst) He) as Hget.
    pose proof (stored_entry File.id _ f (sbi_files_wf Hst) (sbi_files Hst) Hf)
      as Hget'.
    congruence. }
  split.
  - unfold filesIn. rewrite Hfiles. apply filter_values_deleteKeys.
    intros e He Hc Hin. apply is_id_true in Hc. apply In_fileIds in Hin.
    unfold log in Hin. apply in_app_or in Hin as [Hin|Hin].
    + apply in_map_iff in Hin as (f & [= Hid] & Hf).
      apply filter_In in Hf as [Hf Hfid]. apply is_id_true in Hfid.
      rewrite (Hrecord e f He Hf Hid) in Hc.
      assert (h = id) by congruence. subst h.
      apply (Hacyclic (Folder.id sub)).
      eapply Operators_Properties.clos_rt_t; [exact Hreach | now apply t_step].
    + apply in_flat_map in Hin as (d & Hd & Hin).
      apply depthFirst_events in Hin as (f & h' & Hf & Hid & Hfh & Hreach').
      rewrite (Hrecord e f He Hf Hid) in Hc.
      assert (h' = h) by congruence. subst h'.
      destruct (Hdone d Hd) as [Hchild Hne].
      apply (siblings_disjoint st id (Folder.id d) (Folder.id sub) h); auto.
  - unfold subfoldersOf. rewrite Hfolders. apply filter_values_deleteKeys.
    intros e He Hc Hin. apply is_id_true in Hc. apply In_folderIds in Hin.
    unfold log in Hin. apply in_app_or in Hin as [Hin|Hin].
    + apply in_map_iff in Hin as (f & Heq & _). discriminate.
    + apply in_flat_map in Hin as (d & Hd & Hin).
      apply depthFirst_events in Hin.
      destruct (Hdone d Hd) as [Hchild Hne].
      assert (Hstep : child_of st h (fst e)).
      { exists (snd e). split; [now apply in_map|]. split; [exact Hc|].
        destruct e as [k' v]. simpl.
        apply (sbi_folders Hst).
        now apply (JsMapFacts.In_get k' v (sbi_folders_wf Hst)). }
      apply (siblings_disjoint st id (Folder.id d) (Folder.id sub) (fst e));
        auto.
      eapply rt_trans; [exact Hreach | now apply rt_step].
Qed.

(** The subfolder loop makes the walks below the subfolders, one after the
    other. *)
Lemma deleteSubfoldersTraced_walk (k : nat) (st : Store) (id : Z) :
  stored_by_id st -> acyclic st ->
  (forall s g b s' log,
      stored_by_id s -> acyclic s ->
      deleteFolderTraced k s g = Some (b, s', log) ->
      log = depthFirst k s g
      /\ files s' = deleteKeys (fileIds log) (files s)
      /\ folders s' = deleteKeys (folderIds log) (folders s)) ->
  forall l done s s2 log2,
    subfoldersOf st id = done ++ l ->
    stored_by_id s -> shrinks st s ->
    files s
    = deleteKeys
        (fileIds (map (fun file => FileDeleted (File.id file)) (filesIn st id)
                  ++ flat_map (fun d => depthFirst k st (Folder.id d)) done))
        (files st) ->
    folders s
    = deleteKeys
        (folderIds (map (fun file => FileDeleted (File.id file)) (filesIn st id)
                    ++ flat_map (fun d => depthFirst k st (Folder.id d)) done))
        (folders st) ->
    deleteSubfoldersTraced (deleteFolderTraced k) l s = Some (s2, log2) ->
    log2 = flat_map (fun d => depthFirst k st (Folder.id d)) l
    /\ files s2
       = deleteKeys
           (fileIds (map (fun file => FileDeleted (File.id file)) (filesIn st id)
                     ++ flat_map (fun d => depthFirst k st (Folder.id d))
                                 (done ++ l)))
           (files st)
    /\ folders s2
       = deleteKeys
           (folderIds (map (fun file => FileDeleted (File.id file)) (filesIn st id)
                       ++ flat_map (fun d => depthFirst k st (Folder.id d))
                                   (done ++ l)))
           (folders st).
Proof.
  intros Hst Hacyclic Hcall.
  induction l as [|sub l IH];
    intros done s s2 log2 Hsubs Hs Hshr Hfiles Hfolders Hrun.
  - simpl in Hrun. injection Hrun as <- <-. rewrite app_nil_r. auto.
  - simpl in Hrun.
    destruct (deleteFolderTraced k s (Folder.id sub)) as [[[b s1] lg]|] eqn:Hsub;
      [|discriminate].
    destruct (deleteSubfoldersTraced (deleteFolderTraced k) l s1)
      as [[s2' lg2]|] eqn:Hrest; [|discriminate].
    injection Hrun as <- <-.
    destruct (Hcall _ _ _ _ _ Hs (acyclic_shrinks st s Hshr Hacyclic) Hsub)
      as (Hlg & Hf1 & Hd1).
    assert (Hwalk : depthFirst k s (Folder.id sub)
                    = depthFirst k st (Folder.id sub)).
    { apply depthFirst_frame. intros h Hreach.
      exact (untouched_below_next k st s id done l sub h Hst Hacyclic Hsubs
                                  Hfiles Hfolders Hreach). }
    rewrite Hwalk in Hlg. subst lg.
    destruct (deleteFolder_cleans k s (Folder.id sub) b s1
                (deleteFolderTraced_run _ _ _ _ _ _ Hsub)) as [Hc _].
    destruct (Hc Hs) as (Hs1 & Hshr1 & _).
    assert (Hlog : forall A (f : list Deletion -> list A),
               (forall a b, f (a ++ b) = f a ++ f b) ->
               f (map (fun file => FileDeleted (File.id file)) (filesIn st id)
                  ++ flat_map (fun d => depthFirst k st (Folder.id d))
                              (done ++ [sub]))
               = f (map (fun file => FileDeleted (File.id file)) (filesIn st id)
                    ++ flat_map (fun d => depthFirst k st (Folder.id d)) done)
                 ++ f (depthFirst k st (Folder.id sub))).
    { intros A f Happ. rewrite flat_map_app. simpl. rewrite app_nil_r.
      now rewrite app_assoc, Happ. }
    destruct (IH (done ++ [sub]) s1 s2' lg2) as (-> & Hf2 & Hd2).
    + rewrite <- app_assoc. exact Hsubs.
    + exact Hs1.
    + eapply shrinks_trans; eauto.
    + rewrite (Hlog _ fileIds fileIds_app), deleteKeys_app, <- Hfiles.
      exact Hf1.
    + rewrite (Hlog _ folderIds folderIds_app), deleteKeys_app, <- Hfolders.
      exact Hd1.
    + exact Hrest.
    + split; [reflexivity|]. rewrite <- app_assoc in Hf2, Hd2. auto.
Qed.

(** On a store without cycles whose records are stored under their ids, the
    run deletes in the order of the walk, and it leaves the files and the
    folders without what the log names. *)
Lemma deleteFolderTraced_walk (k : nat) :
  forall st id b st' log,
    stored_by_id st -> acyclic st ->
    deleteFolderTraced k st id = Some (b, st', log) ->
    log = depthFirst k st id
    /\ files st' = deleteKeys (fileIds log) (files st)
    /\ folders st' = deleteKeys (folderIds log) (folders st).
Proof.
  induction k as [|k IH]; intros st id b st' log Hst Hacyclic Hrun;
    [discriminate|].
  rewrite deleteFolderTraced_S in Hrun.
  rewrite (deleteFilesTraced_filesIn st id Hst) in Hrun.
  destruct (deleteFiles_maps (filesIn st id) st) as [Hf1 Hd1].
  destruct (deleteFiles_cleans (filesIn st id) st) as [Hc1 _].
  destruct (Hc1 Hst) as (Hst1 & Hshr1 & _).
  set (st1 := deleteFiles (filesIn st id) st) in *.
  assert (Hsubs : subfoldersOf st1 id = subfoldersOf st id)
    by (unfold subfoldersOf; now rewrite Hd1).
  rewrite Hsubs in Hrun.
  destruct (deleteSubfoldersTraced (deleteFolderTraced k)
                                   (subfoldersOf st id) st1)
    as [[st2 log2]|] eqn:Hloop; [|discriminate].
  injection Hrun as <- <- <-.
  destruct (fileIds_files (filesIn st id)) as [Hids Hnone].
  destruct (deleteSubfoldersTraced_walk k st id Hst Hacyclic IH
              (subfoldersOf st id) [] st1 st2 log2) as (-> & Hf2 & Hd2); auto.
  - simpl. now rewrite app_nil_r, Hids.
  - simpl. now rewrite app_nil_r, Hnone.
  - simpl app in Hf2, Hd2. simpl depthFirst. split; [reflexivity|].
    rewrite !app_assoc, fileIds_app, folderIds_app. simpl.
    rewrite app_nil_r, deleteKeys_app. split; [exact Hf2|].
    now rewrite <- Hd2.
Qed.

Lemma deleteFolder_returns (st : Store) (id : Z) :
  acyclic st ->
  exists st',
    deleteFolder (S (List.length (folders st))) st id
    = Some (JsMap.has id (folders st), st').
Proof.
  intros Hacyclic. set (fuel := List.length (folders st)).
  destruct (deleteFolder_enough_fuel (S fuel) st id
              (acyclic_shallower st id Hacyclic)) as (b & st' & Hrun).
  destruct (deleteFiles_shrinks (filesIn st id) st) as [Hs1 Hf1].
  rewrite deleteFolder_S in *. cbv zeta in *.
  set (st1 := deleteFiles (filesIn st id) st) in *.
  destruct (deleteSubfolders fuel (subfoldersOf st1 id) st1) as [st2|] eqn:Hloop;
    [|discriminate].
  assert (Hkept : JsMap.get id (folders st2) = JsMap.get id (folders st)).
  { destruct (deleteSubfolders_touches_from fuel (deleteFolder_touches fuel)
                st id _ _ _ (subfoldersOf_children st st1 id Hf1) Hs1 Hloop id)
      as [Hsame|Hdesc].
    - now rewrite Hsame, Hf1.
    - destruct (Hacyclic id Hdesc). }
  eexists. unfold JsMap.has. now rewrite Hkept.
Qed.

(** A deeper walk names the same deletions once the depth exceeds the
    nesting of the folders. *)
Lemma depthFirst_more (k : nat) (st : Store) :
  forall g k',
    shallower k st g -> (k <= k')%nat ->
    depthFirst k' st g = depthFirst k st g.
Proof.
  induction k as [|k IH]; intros g k' Hdepth Hle; [destruct Hdepth|].
  destruct k' as [|k']; [lia|]. simpl.
  f_equal. f_equal. apply flat_map_ext_in. intros sub Hsub.
  apply filter_In in Hsub as [Hsub Hp]. apply is_id_true in Hp.
  apply IH; [|lia]. now apply Hdepth.
Qed.

(** The walk names every folder at or below [g] and every file of such a
    folder. *)
Lemma depthFirst_complete (k : nat) (st : Store) :
  forall g h,
    shallower k st g ->
    clos_refl_trans Z (child_of st) g h ->
    In (FolderDeleted h) (depthFirst k st g)
    /\ forall file, In file (JsMap.values (files st)) ->
                    File.folderId file = Some h ->
                    In (FileDeleted (File.id file)) (depthFirst k st g).
Proof.
  induction k as [|k IH]; intros g h Hdepth Hreach; [destruct Hdepth|].
  apply Operators_Properties.clos_rt_rt1n in Hreach.
  inversion Hreach as [|c ? (sub & Hsub & Hp & Hc) Hrest]; subst; simpl.
  - split.
    + apply in_or_app. right. apply in_or_app. right. now left.
    + intros file Hin Hf. apply in_or_app. left.
      apply (in_map (fun f => FileDeleted (File.id f))).
      apply filter_In. split; auto. now apply is_id_true.
  - apply Operators_Properties.clos_rt1n_rt in Hrest.
    destruct (IH (Folder.id sub) h (Hdepth sub Hsub Hp) Hrest) as [Hd Hf].
    assert (Hin : In sub (subfoldersOf st g)).
    { apply filter_In. split; auto. now apply is_id_true. }
    split.
    + apply in_or_app. right. apply in_or_app. left.
      apply in_flat_map. exists sub. auto.
    + intros file Hfile Hfid. apply in_or_app. right. apply in_or_app. left.
      apply in_flat_map. exists sub. auto.
Qed.

(** C9.  On a store whose parent relation has no cycle, [deleteFolder]
    returns, within one nested call per stored folder plus one, and more
    nested calls give the same result; it returns whether the folder was
    stored, and the folder is gone afterwards.  The last deletion of the
    run is that of the folder itself.  When the records are stored under
    their ids, the run makes its deletions in the order of the depth-first
    walk of the specification over the store as it was: the files of the
    folder, then for each subfolder in turn the walk below it, then the
    folder.  The walk names every folder at or below the folder and every
    file of such a folder; the run leaves the files and the folders without
    what the log names, so no file or subfolder of the folder is left, nor
    anything in a folder that went away. *)
Theorem deleteFolder_terminates_depth_first (st : Store) (id : Z) :
  acyclic st ->
  let fuel := S (List.length (folders st)) in
  exists st' log,
    deleteFolderTraced fuel st id = Some (JsMap.has id (folders st), st', log)
    /\ deleteFolder fuel st id = Some (JsMap.has id (folders st), st')
    /\ (forall more, (fuel <= more)%nat ->
                     deleteFolder more st id = deleteFolder fuel st id
                     /\ depthFirst more st id = depthFirst fuel st id)
    /\ getFolder st' id = None
    /\ (exists before, log = before ++ [FolderDeleted id])
    /\ (stored_by_id st ->
        log = depthFirst fuel st id
        /\ (forall h,
               clos_refl_trans Z (child_of st) id h ->
               In (FolderDeleted h) log
               /\ forall file, In file (JsMap.values (files st)) ->
                               File.folderId file = Some h ->
                               In (FileDeleted (File.id file)) log)
        /\ files st' = deleteKeys (fileIds log) (files st)
        /\ folders st' = deleteKeys (folderIds log) (folders st)
        /\ (forall file, In file (JsMap.values (files st')) ->
                         File.folderId file <> Some id)
        /\ (forall folder, In folder (JsMap.values (folders st')) ->
                           Folder.parentId folder <> Some id)
        /\ no_orphans st st').
Proof.
  intros Hacyclic fuel.
  pose proof (acyclic_shallower st id Hacyclic) as Hdepth. fold fuel in Hdepth.
  destruct (deleteFolder_returns st id Hacyclic) as (st' & Hrun).
  fold fuel in Hrun.
  destruct (deleteFolder_traced _ _ _ _ _ Hrun) as (log & Htraced).
  exists st', log. split; [exact Htraced|]. split; [exact Hrun|].
  split; [|split; [|split]].
  - intros more Hmore. split.
    + rewrite Hrun. eapply deleteFolder_more_fuel; eauto.
    + now apply depthFirst_more.
  - eapply deleteFolder_gone; eauto.
  - unfold fuel in Htraced. rewrite deleteFolderTraced_S in Htraced.
    destruct (deleteFilesTraced (filesIn st id) st) as [st1 log1].
    destruct (deleteSubfoldersTraced _ _ st1) as [[st2 log2]|]; [|discriminate].
    injection Htraced as _ _ <-. exists (log1 ++ log2). now rewrite app_assoc.
  - intros Hst.
    destruct (deleteFolderTraced_walk _ _ _ _ _ _ Hst Hacyclic Htraced)
      as (Hlog & Hfiles & Hfolders).
    destruct (deleteFolder_cleans _ _ _ _ _ Hrun) as [Hc Hown].
    destruct (Hc Hst) as (_ & _ & Ho). destruct (Hown Hst) as [HA HB].
    split; [exact Hlog|]. split; [|auto 10].
    intros h Hreach. rewrite Hlog. now apply depthFirst_complete.
Qed.

Lemma branchedStore_acyclic : acyclic branchedStore.
Proof.
  apply acyclic_by_rank. intros p c (folder & Hin & Hp & Hc).
  simpl in Hin. destruct Hin as [<-|[<-|[<-|[<-|[]]]]]; simpl in *;
    try discriminate; injection Hp as <-; subst c; lia.
Qed.

Lemma branchedStore_stored : stored_by_id branchedStore.
Proof. constructor; try concrete_keyed; concrete_wf. Qed.

Lemma deleteFolder_terminates_depth_first_witness :
  exists st' log,
    deleteFolderTraced 5 branchedStore 1 = Some (true, st', log)
    /\ log = [FileDeleted 4; FileDeleted 3; FileDeleted 1; FolderDeleted 4;
              FolderDeleted 2; FileDeleted 2; FolderDeleted 3; FolderDeleted 1]
    /\ folders st' = []
    /\ files st' = [].
Proof.
  destruct (deleteFolder_terminates_depth_first branchedStore 1
              branchedStore_acyclic)
    as (st' & log & Htraced & _ & _ & _ & _ & Hstored).
  destruct (Hstored branchedStore_stored) as (Hlog & _ & Hfiles & Hfolders & _).
  exists st', log. split; [exact Htraced|].
  split; [rewrite Hlog; reflexivity|].
  split; [rewrite Hfolders, Hlog | rewrite Hfiles, Hlog]; reflexivity.
Defined.

(** The traced run on the sample store of three nested folders. *)
Example deleteFolderTraced_nested_sample :
  option_map snd (deleteFolderTraced 4 nestedStore 1)
  = Some [FileDeleted 1; FolderDeleted 3; FolderDeleted 2; FolderDeleted 1].
Proof. reflexivity. Qed.
